(** * PyMCObjects: the dependency graph of Stochastic, Deterministic and
      Potential nodes

    A shallow embedding of [pymc/PyMCObjects.py]: the closure functions
    [extend_children] and [extend_parents], the parent binding map
    [ParentDict], the value and log-probability accessors of [Stochastic] and
    [Potential], and the Markov-blanket views.

    Python objects live in a heap indexed by references; object identity
    ([is]) is equality of references.  A method that can raise returns a
    [result]; a method that mutates threads the heap explicitly and hands back
    the heap as it stands when the exception leaves the method. *)

From Stdlib Require Import ZArith SpecFloat Lia.
From stdpp Require Import gmap strings list fin_maps fin_sets.

Open Scope string_scope.

(** ** Exceptions and results *)

Inductive exn :=
| AttributeError (what : string)
| KeyError (what : string)
| ValueError (what : string)
| TypeError (what : string)
| IndexError (what : string)
| ZeroProbability (what : string).

Inductive result (A : Type) :=
| Ok (a : A)
| Raise (e : exn).
Arguments Ok {A} a.
Arguments Raise {A} e.

#[global] Instance result_ret : MRet result := fun A a => Ok a.
#[global] Instance result_bind : MBind result := fun A B f m =>
  match m with
  | Ok a => f a
  | Raise e => Raise e
  end.

(** A Python [for x in xs: body] whose body may raise: the loop stops at the
    first exception. *)
Fixpoint for_in {A S : Type} (xs : list A) (body : A -> S -> result S) (s : S)
  : result S :=
  match xs with
  | [] => Ok s
  | x :: xs' => s' ← body x s; for_in xs' body s'
  end.

(** A method: it returns or raises, and hands back the state it leaves (what
    it mutated before raising stays mutated). *)
Definition ST (S A : Type) : Type := S -> result A * S.

#[global] Instance ST_ret {S : Type} : MRet (ST S) := fun A a st => (Ok a, st).
#[global] Instance ST_bind {S : Type} : MBind (ST S) := fun A B f m st =>
  match m st with
  | (Ok a, st') => f a st'
  | (Raise e, st') => (Raise e, st')
  end.

Definition raise {S A : Type} (e : exn) : ST S A := fun st => (Raise e, st).
Definition lift {S A : Type} (r : result A) : ST S A := fun st => (r, st).

(** [for x in xs: body] in a method. *)
Fixpoint for_each {S A : Type} (xs : list A) (body : A -> ST S unit)
  : ST S unit :=
  match xs with
  | [] => mret tt
  | x :: xs' => _ ← body x; for_each xs' body
  end.

(** ** Objects *)

Abbreviation ref := positive.

(** The concrete classes an object of the graph can have.  [Other] stands for
    any object that is neither a node nor a container (a plain constant bound
    as a parent). *)
Inductive pyclass := Stochastic | Deterministic | Potential | Container | Other.

#[global] Instance pyclass_eq_dec : EqDecision pyclass.
Proof. solve_decision. Defined.

(** The classes that [isinstance] is asked about in PyMCObjects.py. *)
Inductive pytype :=
| VariableT | StochasticBaseT | DeterministicBaseT | PotentialBaseT
| ContainerBaseT | DeterministicT.

(** Modelled from the spec: the class hierarchy of Node.py and Container.py,
    which are not part of the sources.  [Stochastic] and [Deterministic] are
    the two Variables; a [Potential] is a node but not a Variable (its
    constructor calls [Node.__init__], not [Variable.__init__]). *)
Definition subclass (c : pyclass) (t : pytype) : bool :=
  match t, c with
  | VariableT, (Stochastic | Deterministic) => true
  | StochasticBaseT, Stochastic => true
  | DeterministicBaseT, Deterministic => true
  | DeterministicT, Deterministic => true
  | PotentialBaseT, Potential => true
  | ContainerBaseT, Container => true
  | _, _ => false
  end.

(** An object: its class, whether it can be put in a set, and its set-valued
    attributes by name ([children], [extended_parents], [extended_children]
    on nodes; [variables], [stochastics], [deterministics] on containers).
    An attribute that is not in [attrs] does not exist on the object. *)
Record pyobj := PyObj {
  cls : pyclass;
  hashable : bool;
  attrs : gmap string (gset ref)
}.

Abbreviation heap := (gmap ref pyobj).

Definition isinstance (h : heap) (x : ref) (t : pytype) : bool :=
  match h !! x with
  | Some o => subclass (cls o) t
  | None => false
  end.

(** [x.a] for a set-valued attribute. *)
Definition getattr (h : heap) (x : ref) (a : string) : result (gset ref) :=
  match h !! x with
  | Some o =>
      match attrs o !! a with
      | Some s => Ok s
      | None => Raise (AttributeError a)
      end
  | None => Raise (AttributeError a)
  end.

(** [x.a = s]. *)
Definition setattr (h : heap) (x : ref) (a : string) (s : gset ref) : heap :=
  match h !! x with
  | Some o => <[x := PyObj (cls o) (hashable o) (<[a := s]> (attrs o))]> h
  | None => h
  end.

(** [hash(x)] succeeds. *)
Definition is_hashable (h : heap) (x : ref) : bool :=
  match h !! x with
  | Some o => hashable o
  | None => false
  end.

(** [s.add(x)] on a local set. *)
Definition set_add (h : heap) (s : gset ref) (x : ref) : result (gset ref) :=
  if is_hashable h x then Ok (s ∪ {[x]}) else Raise (TypeError "unhashable").

(** ** Closure functions *)

(** One pass of the loop of [extend_children] over one child. *)
Definition extend_children_body (h : heap) (child : ref)
    (acc : gset ref * bool * gset ref) : result (gset ref * bool * gset ref) :=
  let '(new_children, need_recursion, dtrm_children) := acc in
  if isinstance h child DeterministicT then
    cs ← getattr h child "children";
    Ok (new_children ∪ cs, true, dtrm_children ∪ {[child]})
  else Ok (new_children, need_recursion, dtrm_children).

(** [extend_children(children)].  The recursion of the source is bounded here
    by [fuel]; [None] means the bound was reached. *)
Fixpoint extend_children (fuel : nat) (h : heap) (children : gset ref)
  : option (result (gset ref)) :=
  match fuel with
  | O => None
  | S fuel' =>
      match for_in (elements children) (extend_children_body h)
                   (children, false, ∅) with
      | Raise e => Some (Raise e)
      | Ok (new_children, need_recursion, dtrm_children) =>
          let new_children := new_children ∖ dtrm_children in
          if need_recursion then extend_children fuel' h new_children
          else Some (Ok new_children)
      end
  end.

(** The inner loops of the container branch of [extend_parents]. *)
Definition add_contained (h : heap) (contained_parent : ref)
    (new_parents : gset ref) : result (gset ref) :=
  set_add h new_parents contained_parent.

Definition union_contained (h : heap) (contained_parent : ref)
    (new_parents : gset ref) : result (gset ref) :=
  ep ← getattr h contained_parent "extended_parents";
  Ok (new_parents ∪ ep).

(** One pass of the loop of [extend_parents] over one parent. *)
Definition extend_parents_body (h : heap) (parent : ref)
    (new_parents : gset ref) : result (gset ref) :=
  new_parents ← set_add h new_parents parent;
  if isinstance h parent DeterministicBaseT then
    let new_parents := new_parents ∖ {[parent]} in
    ep ← getattr h parent "extended_parents";
    Ok (new_parents ∪ ep)
  else if isinstance h parent ContainerBaseT then
    ss ← getattr h parent "stochastics";
    new_parents ← for_in (elements ss) (add_contained h) new_parents;
    ds ← getattr h parent "deterministics";
    for_in (elements ds) (union_contained h) new_parents
  else Ok new_parents.

(** [extend_parents(parents)], for an iterable given as the list of its items
    in iteration order. *)
Definition extend_parents (h : heap) (parents : list ref) : result (gset ref) :=
  for_in parents (extend_parents_body h) ∅.

(** ** The parent binding map *)

(** The attributes of a [ParentDict] that PyMCObjects.py reads or writes: the
    dictionary itself, [owner], [has_logp], the [variables] set filed by
    [file_items], and the key lists [val_keys] and [nonval_keys]. *)
Record ParentDict := mkParentDict {
  items : gmap string ref;
  owner : ref;
  has_logp : bool;
  variables : gset ref;
  val_keys : list string;
  nonval_keys : list string
}.

(** The state a method of [ParentDict] runs in: the heap and [self]. *)
Record gstate := mkState { objs : heap; self : ParentDict }.

Abbreviation M := (ST gstate).

Definition get_heap : M heap := fun st => (Ok (objs st), st).
Definition get_self : M ParentDict := fun st => (Ok (self st), st).
Definition put_heap (h : heap) : M unit :=
  fun st => (Ok tt, mkState h (self st)).
Definition put_self (s : ParentDict) : M unit :=
  fun st => (Ok tt, mkState (objs st) s).

(** [self.itervalues()]. *)
Definition itervalues (d : gmap string ref) : list ref := (map_to_list d).*2.

(** [x.a.discard(y)], [x.a.add(y)] and [x.a.remove(y)] on the set held by
    attribute [a] of [x]. *)
Definition attr_discard (x : ref) (a : string) (y : ref) : M unit :=
  h ← get_heap;
  s ← lift (getattr h x a);
  if is_hashable h y then put_heap (setattr h x a (s ∖ {[y]}))
  else raise (TypeError "unhashable").

Definition attr_add (x : ref) (a : string) (y : ref) : M unit :=
  h ← get_heap;
  s ← lift (getattr h x a);
  if is_hashable h y then put_heap (setattr h x a (s ∪ {[y]}))
  else raise (TypeError "unhashable").

Definition attr_remove (x : ref) (a : string) (y : ref) : M unit :=
  h ← get_heap;
  s ← lift (getattr h x a);
  if is_hashable h y then
    if decide (y ∈ s) then put_heap (setattr h x a (s ∖ {[y]}))
    else raise (KeyError "set.remove")
  else raise (TypeError "unhashable").

(** [l.remove(k)] on a list of keys: the first occurrence goes, and a key that
    is not there is a [ValueError]. *)
Fixpoint list_remove (k : string) (l : list string) : option (list string) :=
  match l with
  | [] => None
  | k' :: l' =>
      if decide (k = k') then Some l'
      else cons k' <$> list_remove k l'
  end.

(** [sum([parent is x for parent in self.itervalues()])]. *)
Definition count_is (d : gmap string ref) (x : ref) : nat :=
  length (filter (λ parent, parent = x) (itervalues d)).

(** Modelled from the spec: the loop of [file_items] of Container.py, which
    is not part of the sources.  It files the items of a container into its
    attributes; of these the binding map uses [variables], the flattened set
    of contained Variables: an item that is a Variable, and the [variables]
    of an item that is a container. *)
Definition file_items_body (h : heap) (item : ref) (vars : gset ref)
  : result (gset ref) :=
  if isinstance h item VariableT then Ok (vars ∪ {[item]})
  else if isinstance h item ContainerBaseT then
    vs ← getattr h item "variables"; Ok (vars ∪ vs)
  else Ok vars.

(** Modelled from the spec: [file_items(container, iterable)] for a
    dictionary, as far as [variables] goes; the result is the new
    [container.variables]. *)
Definition file_items (h : heap) (d : gmap string ref) : result (gset ref) :=
  for_in (itervalues d) (file_items_body h) ∅.

(** The owner's [gen_lazy_function]: it builds a new LazyFunction over the
    owner's parents and forces a computation.  LazyFunction is an external
    collaborator; the call changes none of the attributes modelled here and
    may raise. *)
Class Evaluator := { gen_lazy_function : heap -> ref -> result unit }.

Section ParentDictMethods.
Context `{Evaluator}.

Definition detach_extended_parents : M unit :=
  s ← get_self;
  h ← get_heap;
  eps ← lift (getattr h (owner s) "extended_parents");
  for_each (elements eps) (λ e_parent,
    h ← get_heap;
    if isinstance h e_parent StochasticBaseT then
      attr_discard e_parent "extended_children" (owner s)
    else mret tt).

Definition attach_extended_parents : M unit :=
  s ← get_self;
  h ← get_heap;
  eps ← lift (getattr h (owner s) "extended_parents");
  for_each (elements eps) (λ e_parent,
    h ← get_heap;
    if isinstance h e_parent StochasticBaseT then
      attr_add e_parent "extended_children" (owner s)
    else mret tt).

Definition detach_parents : M unit :=
  s ← get_self;
  _ ← for_each (itervalues (items s)) (λ parent,
    h ← get_heap;
    if isinstance h parent VariableT then
      attr_discard parent "children" (owner s)
    else if isinstance h parent ContainerBaseT then
      vs ← lift (getattr h parent "variables");
      for_each (elements vs) (λ variable,
        attr_discard variable "chidren" (owner s))
    else mret tt);
  if has_logp s then detach_extended_parents else mret tt.

Definition attach_parents : M unit :=
  s ← get_self;
  _ ← for_each (itervalues (items s)) (λ parent,
    h ← get_heap;
    if isinstance h parent VariableT then
      attr_add parent "children" (owner s)
    else if isinstance h parent ContainerBaseT then
      vs ← lift (getattr h parent "variables");
      for_each (elements vs) (λ variable,
        attr_add variable "children" (owner s))
    else mret tt);
  if has_logp s then attach_extended_parents else mret tt.

(** [isinstance] and attribute reads on the heap as it stands. *)
Definition isinstanceM (x : ref) (t : pytype) : M bool :=
  h ← get_heap; mret (isinstance h x t).
Definition getattrM (x : ref) (a : string) : M (gset ref) :=
  h ← get_heap; lift (getattr h x a).

(** [self.val_keys.remove(key)] and [self.nonval_keys.remove(key)]. *)
Definition val_keys_remove (key : string) : M unit :=
  s ← get_self;
  match list_remove key (val_keys s) with
  | Some vk => put_self (mkParentDict (items s) (owner s) (has_logp s)
                           (variables s) vk (nonval_keys s))
  | None => raise (ValueError "list.remove")
  end.
Definition nonval_keys_remove (key : string) : M unit :=
  s ← get_self;
  match list_remove key (nonval_keys s) with
  | Some nk => put_self (mkParentDict (items s) (owner s) (has_logp s)
                           (variables s) (val_keys s) nk)
  | None => raise (ValueError "list.remove")
  end.

(** [self.val_keys.append(key)] and [self.nonval_keys.append(key)]. *)
Definition val_keys_append (key : string) : M unit :=
  s ← get_self;
  put_self (mkParentDict (items s) (owner s) (has_logp s) (variables s)
              (val_keys s ++ [key]) (nonval_keys s)).
Definition nonval_keys_append (key : string) : M unit :=
  s ← get_self;
  put_self (mkParentDict (items s) (owner s) (has_logp s) (variables s)
              (val_keys s) (nonval_keys s ++ [key])).

(** The first half of [__setitem__]: the owner leaves the old parent. *)
Definition setitem_old (key : string) (old_parent : ref) : M unit :=
  s ← get_self;
  is_var ← isinstanceM old_parent VariableT;
  is_cont ← isinstanceM old_parent ContainerBaseT;
  if is_var || is_cont then
    _ ← (if has_logp s then detach_extended_parents else mret tt);
    _ ← val_keys_remove key;
    _ ← nonval_keys_append key;
    _ ← (if is_var then
           if decide (count_is (items s) old_parent = 1)
           then attr_remove old_parent "children" (owner s)
           else mret tt
         else mret tt);
    if is_cont then
      vs ← getattrM old_parent "variables";
      for_each (elements vs) (λ variable,
        if decide (count_is (items s) variable = 1)
        then attr_remove variable "children" (owner s)
        else mret tt)
    else mret tt
  else mret tt.

(** The second half: the owner joins the new parent. *)
Definition setitem_new (key : string) (new_parent : ref) : M unit :=
  s ← get_self;
  is_var ← isinstanceM new_parent VariableT;
  is_cont ← isinstanceM new_parent ContainerBaseT;
  if is_var || is_cont then
    _ ← val_keys_append key;
    _ ← nonval_keys_remove key;
    if is_var then attr_add new_parent "children" (owner s)
    else if is_cont then
      vs ← getattrM new_parent "variables";
      for_each (elements vs) (λ variable,
        attr_add new_parent "children" (owner s))
    else mret tt
  else mret tt.

(** [ParentDict.__setitem__(self, key, new_parent)]. *)
Definition setitem (key : string) (new_parent : ref) : M unit :=
  s ← get_self;
  old_parent ← match items s !! key with
               | Some p => mret p
               | None => raise (KeyError key)
               end;
  _ ← setitem_old key old_parent;
  _ ← setitem_new key new_parent;
  s ← get_self;
  h ← get_heap;
  eps ← lift (extend_parents h (elements (variables s)));
  _ ← put_heap (setattr h (owner s) "extended_parents" eps);
  _ ← (if has_logp s then attach_extended_parents else mret tt);
  s ← get_self;
  let d := <[key := new_parent]> (items s) in
  _ ← put_self (mkParentDict d (owner s) (has_logp s) (variables s)
                  (val_keys s) (nonval_keys s));
  h ← get_heap;
  vars ← lift (file_items h d);
  _ ← put_self (mkParentDict d (owner s) (has_logp s) vars
                  (val_keys s) (nonval_keys s));
  lift (gen_lazy_function h (owner s)).

End ParentDictMethods.

(** Whether a key goes to [val_keys]: the test of [__setitem__]. *)
Definition is_val (h : heap) (x : ref) : bool :=
  isinstance h x VariableT || isinstance h x ContainerBaseT.

(** Modelled from the spec: [DictContainer.__init__] of Container.py, which
    is not part of the sources.  It stores the bindings and files them with
    [file_items]; [val_keys] are the keys bound to a Variable or a container
    and [nonval_keys] the others, which is the split that [__setitem__]
    maintains.  The owner and [has_logp] are filled in by the caller. *)
Definition DictContainer_init (h : heap) (regular_dict : gmap string ref)
    (owner : ref) (has_logp : bool) : result ParentDict :=
  vars ← file_items h regular_dict;
  let kvs := map_to_list regular_dict in
  Ok (mkParentDict regular_dict owner has_logp vars
        (filter (λ kv, is_val h kv.2) kvs).*1
        (filter (λ kv, negb (is_val h kv.2)) kvs).*1).

(** [ParentDict.__init__(self, regular_dict, owner)]. *)
Definition ParentDict_init (regular_dict : gmap string ref) (owner : ref)
    (h : heap) : result ParentDict * heap :=
  match DictContainer_init h regular_dict owner
          (isinstance h owner StochasticBaseT
           || isinstance h owner PotentialBaseT) with
  | Raise e => (Raise e, h)
  | Ok s =>
      match extend_parents h (elements (variables s)) with
      | Raise e => (Raise e, h)
      | Ok eps => (Ok s, setattr h owner "extended_parents" eps)
      end
  end.

(** ** Markov-blanket views of a Stochastic *)

Definition coparents_body (h : heap) (child : ref) (coparents : gset ref)
  : result (gset ref) :=
  ep ← getattr h child "extended_parents";
  Ok (coparents ∪ ep).

(** [Stochastic._get_coparents]. *)
Definition coparents (h : heap) (this : ref) : result (gset ref) :=
  ec ← getattr h this "extended_children";
  cp ← for_in (elements ec) (coparents_body h) ∅;
  set_add h cp this.

(** The loop of [_get_moral_neighbors] over a copy of the set. *)
Definition drop_potential (h : heap) (moral_neighbors : gset ref)
    (neighbor : ref) : gset ref :=
  if isinstance h neighbor PotentialBaseT then moral_neighbors ∖ {[neighbor]}
  else moral_neighbors.

(** [Stochastic._get_moral_neighbors]. *)
Definition moral_neighbors (h : heap) (this : ref) : result (gset ref) :=
  cp ← coparents h this;
  ep ← getattr h this "extended_parents";
  ec ← getattr h this "extended_children";
  let mn := cp ∪ ep ∪ ec in
  Ok (foldl (drop_potential h) mn (elements mn)).

(** [Stochastic._get_markov_blanket]. *)
Definition markov_blanket (h : heap) (this : ref) : result (gset ref) :=
  mn ← moral_neighbors h this;
  single ← set_add h ∅ this;
  Ok (mn ∪ single).

(** ** Log-probability of a Stochastic and of a Potential *)

(** [d_neg_inf = float(-1.79E308)]: the binary64 number nearest to -1.79e308,
    which is -0x1.fdcf158adbb99p+1023. *)
Definition d_neg_inf : spec_float := S754_finite true 8968653411040153 971.

(** [isnan(x)] and [x <= y] on binary64 numbers. *)
Definition isnan (x : spec_float) : bool :=
  match x with
  | S754_nan => true
  | _ => false
  end.

Definition float_le (x y : spec_float) : bool := SFleb x y.

(** What [get_logp] reads from a node: its [__name__], the result of
    [self._logp.get()] (the evaluator returns a raw object or raises), and the
    text that ['%s'] makes of [self._value] and of [self._parents.value]. *)
Record logp_view (raw : Type) := mkLogpView {
  __name__ : string;
  _logp_get : result raw;
  _value_str : string;
  _parents_value_str : string
}.
Arguments mkLogpView {raw}.
Arguments __name__ {raw}.
Arguments _logp_get {raw}.
Arguments _value_str {raw}.
Arguments _parents_value_str {raw}.

(** Python's built-in [float] and [str] on raw evaluator results: [float]
    either converts or raises. *)
Class Builtins (raw : Type) := {
  py_float : raw -> option spec_float;
  py_str : raw -> string
}.

(** The newline of the message of [ZeroProbability]. *)
Definition nl : string := String (Ascii.ascii_of_nat 10) EmptyString.

Section Logp.
Context {raw : Type} `{Builtins raw}.

(** [Stochastic.get_logp]. *)
Definition Stochastic_get_logp (this : logp_view raw) : result spec_float :=
  logp ← _logp_get this;
  match py_float logp with
  | None =>
      Raise (TypeError (__name__ this ++ ": computed log-probability "
                        ++ py_str logp ++ " cannot be cast to float"))
  | Some logp =>
      if isnan logp then
        Raise (ValueError (__name__ this ++ ": computed log-probability is nan"))
      else if float_le logp d_neg_inf then
        Raise (ZeroProbability
          ("Stochastic " ++ __name__ this
           ++ "'s value is outside its support," ++ nl
           ++ " or it forbids its parents' current values." ++ nl
           ++ "Value: " ++ _value_str this ++ nl
           ++ "Parents' values:" ++ _parents_value_str this))
      else Ok logp
  end.

(** [Potential.get_logp]. *)
Definition Potential_get_logp (this : logp_view raw) : result spec_float :=
  logp ← _logp_get this;
  match py_float logp with
  | None =>
      Raise (TypeError (__name__ this ++ ": computed log-probability "
                        ++ py_str logp ++ " cannot be cast to float"))
  | Some logp =>
      if isnan logp then
        Raise (ValueError (__name__ this ++ ": computed log-probability is nan"))
      else if float_le logp d_neg_inf then
        Raise (ZeroProbability
          ("Potential " ++ __name__ this
           ++ " forbids its parents' current values: "
           ++ _parents_value_str this))
      else Ok logp
  end.

End Logp.

(** ** The value of a Stochastic *)

(** A numpy array: its entries in flat order, its WRITEABLE flag and its
    dtype.  A payload is an array or any other object. *)
Record ndarray (elem dty : Type) := mkArray {
  data : list elem;
  writeable : bool;
  adtype : dty
}.
Arguments mkArray {elem dty}.
Arguments data {elem dty}.
Arguments writeable {elem dty}.
Arguments adtype {elem dty}.

Inductive pyval (elem dty : Type) :=
| NdArray (a : ndarray elem dty)
| Plain (x : elem).
Arguments NdArray {elem dty} a.
Arguments Plain {elem dty} x.

(** numpy and the built-in types, as [set_value] uses them.  Values of [dty]
    are the objects that can be a [dtype] (a Python type or a numpy dtype);
    their equality is object identity.  [asarray_same] is numpy's promise
    that [asarray] hands back its argument when that is an array of the dtype
    asked for. *)
Class Numpy (elem dty : Type) := {
  dty_eq_dec :: EqDecision dty;
  dtype_truthy : dty -> bool;
  dtype_is_object : dty -> bool;
  dtype_matches : dty -> dty -> bool;
  call_dtype : dty -> pyval elem dty -> result (pyval elem dty);
  asarray : pyval elem dty -> dty -> result (ndarray elem dty);
  asarray_same : forall a dt,
    dtype_matches dt (adtype a) = true -> asarray (NdArray a) dt = Ok a
}.

(** The attributes of a Stochastic that [set_value] and [revert] touch.
    [last_value] is [None] while the attribute does not exist; [_missing] is
    Python's [None] or a list of indices. *)
Record StochasticObj (dty : Type) := mkStochastic {
  isdata : bool;
  _missing : option (list nat);
  dtype : option dty;
  _value : ref;
  last_value : option ref
}.
Arguments mkStochastic {dty}.
Arguments isdata {dty}.
Arguments _missing {dty}.
Arguments dtype {dty}.
Arguments _value {dty}.
Arguments last_value {dty}.

(** The state a value method runs in: the payloads by reference, and [self]. *)
Record vstate (elem dty : Type) := mkVState {
  store : gmap ref (pyval elem dty);
  this : StochasticObj dty
}.
Arguments mkVState {elem dty}.
Arguments store {elem dty}.
Arguments this {elem dty}.

(** [if self._missing:]. *)
Definition truthy (m : option (list nat)) : bool :=
  match m with
  | Some (_ :: _) => true
  | _ => false
  end.

Section Values.
Context {elem dty : Type} `{Numpy elem dty}.

Abbreviation VM := (ST (vstate elem dty)).

Definition get_this : VM (StochasticObj dty) := fun st => (Ok (this st), st).
Definition put_this (s : StochasticObj dty) : VM unit :=
  fun st => (Ok tt, mkVState (store st) s).

(** The object behind a reference. *)
Definition deref (r : ref) : VM (pyval elem dty) := fun st =>
  match store st !! r with
  | Some v => (Ok v, st)
  | None => (Raise (ValueError "no such object"), st)
  end.

(** A new object. *)
Definition alloc (v : pyval elem dty) : VM ref := fun st =>
  let r := fresh (dom (store st)) in
  (Ok r, mkVState (<[r := v]> (store st)) (this st)).

(** An object changed in place. *)
Definition update (r : ref) (v : pyval elem dty) : VM unit := fun st =>
  (Ok tt, mkVState (<[r := v]> (store st)) (this st)).

(** [value[idx]] for a list of indices. *)
Fixpoint take_entries (d : list elem) (idx : list nat) : result (list elem) :=
  match idx with
  | [] => Ok []
  | i :: idx' =>
      match d !! i with
      | Some x => xs ← take_entries d idx'; Ok (x :: xs)
      | None => Raise (IndexError "index out of bounds")
      end
  end.

Definition getitem (v : pyval elem dty) (idx : list nat) : result (list elem) :=
  match v with
  | NdArray a => take_entries (data a) idx
  | Plain _ => Raise (TypeError "not subscriptable")
  end.

(** [a[idx] = vals] for a list of indices. *)
Fixpoint put_entries (d : list elem) (idx : list nat) (vals : list elem)
  : list elem :=
  match idx, vals with
  | i :: idx', x :: vals' => put_entries (<[i := x]> d) idx' vals'
  | _, _ => d
  end.

Definition array_setitem (a : ndarray elem dty) (idx : list nat)
    (vals : list elem) : result (ndarray elem dty) :=
  if negb (writeable a) then Raise (ValueError "array is not writeable")
  else if forallb (λ i, Nat.ltb i (length (data a))) idx then
    if decide (length idx = length vals) then
      Ok (mkArray (put_entries (data a) idx vals) (writeable a) (adtype a))
    else Raise (ValueError "shape mismatch")
  else Raise (IndexError "index out of bounds").

(** [copy(a)] of an array: a new array that owns its data and is writeable. *)
Definition copy_array (a : ndarray elem dty) : ndarray elem dty :=
  mkArray (data a) true (adtype a).

(** [self._value = r]. *)
Definition assign_value (r : ref) : VM unit :=
  s ← get_this;
  put_this (mkStochastic (isdata s) (_missing s) (dtype s) r (last_value s)).

(** The [isdata] part of [set_value]: the value that goes on to be stored. *)
Definition set_value_data (s : StochasticObj dty) (value : ref) : VM ref :=
  if isdata s then
    if truthy (_missing s) then
      let missing := default [] (_missing s) in
      v ← deref value;
      missing_values ← lift (getitem v missing);
      old ← deref (_value s);
      match old with
      | NdArray a =>
          value ← alloc (NdArray (copy_array a));
          a' ← lift (array_setitem (copy_array a) missing missing_values);
          _ ← update value (NdArray a');
          mret value
      | Plain _ =>
          raise (TypeError "object does not support item assignment")
      end
    else
      raise (AttributeError
               "value cannot be updated if isdata flag is set")
  else mret value.

(** [Stochastic.set_value(self, value)]. *)
Definition set_value (value : ref) : VM unit :=
  s ← get_this;
  value ← set_value_data s value;
  _ ← put_this (mkStochastic (isdata s) (_missing s) (dtype s) (_value s)
                  (Some (_value s)));
  v ← deref value;
  match v with
  | NdArray a =>
      let a := mkArray (data a) false (adtype a) in
      _ ← update value (NdArray a);
      match dtype s with
      | Some dt =>
          if decide (dt = adtype a) then assign_value value
          else
            a' ← lift (asarray (NdArray a) dt);
            r ← alloc (NdArray a');
            assign_value r
      | None => assign_value value
      end
  | Plain _ =>
      match dtype s with
      | Some dt =>
          if dtype_truthy dt && negb (dtype_is_object dt) then
            match call_dtype dt v with
            | Ok v' => r ← alloc v'; assign_value r
            | Raise (TypeError _) =>
                a' ← lift (asarray v dt);
                r ← alloc (NdArray a');
                assign_value r
            | Raise e => raise e
            end
          else assign_value value
      | None => assign_value value
      end
  end.

(** [Stochastic.get_value] and a read of the attribute [last_value]. *)
Definition get_value : VM ref := s ← get_this; mret (_value s).

Definition get_last_value : VM ref :=
  s ← get_this;
  match last_value s with
  | Some r => mret r
  | None => raise (AttributeError "last_value")
  end.

(** [Stochastic.revert]. *)
Definition revert : VM unit :=
  r ← get_last_value;
  assign_value r.

End Values.

(** *** Drawing a value *)

Section Random.
Context {elem dty : Type} `{Numpy elem dty}.

(** [Stochastic.random(self)].  [_random] is what the constructor was given
    as [random]: [None], or a function; a call of it with the values of the
    parents makes a new object, or raises. *)
Definition random (_random : option (ST (vstate elem dty) ref))
  : ST (vstate elem dty) ref :=
  match _random with
  | Some draw => r ← draw; _ ← set_value r; mret r
  | None =>
      raise (AttributeError
               "does not know how to draw its value, see documentation")
  end.

End Random.

(** ** Notions the properties are stated with *)

(** The set held by attribute [a] of [x], empty when there is none. *)
Definition attr_set (h : heap) (x : ref) (a : string) : gset ref :=
  match getattr h x a with
  | Ok s => s
  | Raise _ => ∅
  end.

(** The Deterministic members of a set. *)
Definition deterministic_members (h : heap) (s : gset ref) : gset ref :=
  filter (λ x, isinstance h x DeterministicT = true) s.

(** One round of the replacement that the specification describes for
    [extend_children]: every Deterministic member is replaced by its own
    [children], and the replaced members are removed. *)
Definition replace_deterministics (h : heap) (s : gset ref) : gset ref :=
  (s ∪ ⋃ (map (λ d, attr_set h d "children")
              (elements (deterministic_members h s))))
  ∖ deterministic_members h s.

(** Every Deterministic has a [children] set. *)
Definition deterministics_have_children (h : heap) : Prop :=
  ∀ d, isinstance h d DeterministicT = true →
       ∃ s, getattr h d "children" = Ok s.

(** The graph below the Deterministic nodes is acyclic: [rank] falls along
    every edge from a Deterministic to one of its children. *)
Definition acyclic_by (h : heap) (rank : ref → nat) : Prop :=
  ∀ d c, isinstance h d DeterministicT = true →
         c ∈ attr_set h d "children" → rank c < rank d.

(** A node that carries a log-probability: a Stochastic or a Potential. *)
Definition density_bearing (h : heap) (x : ref) : bool :=
  isinstance h x StochasticBaseT || isinstance h x PotentialBaseT.

(** The registration of extended children is consistent: the extended
    children of a Stochastic are density-bearing nodes that have it among
    their extended parents, and every density-bearing node that has it among
    its extended parents is one of them. *)
Definition consistently_registered (h : heap) : Prop :=
  ∀ p c, isinstance h p StochasticBaseT = true →
    (c ∈ attr_set h p "extended_children" →
       density_bearing h c = true ∧ p ∈ attr_set h c "extended_parents")
    ∧ (density_bearing h c = true → p ∈ attr_set h c "extended_parents" →
       c ∈ attr_set h p "extended_children").

(** A binary64 number that is not an infinity and not a NaN. *)
Definition is_finite (x : spec_float) : bool :=
  match x with
  | S754_zero _ | S754_finite _ _ _ => true
  | _ => false
  end.

(** *** Registration and key lists *)

(** The two heaps hold the same objects: what changes is only what the
    attributes hold. *)
Definition same_objects (h h' : heap) : Prop :=
  ∀ y, (λ o, (cls o, hashable o)) <$> h' !! y
       = (λ o, (cls o, hashable o)) <$> h !! y.

(** From [h] to [h'] the operation [op] has been applied to the sets of the
    attributes chosen by [P], which all exist; every other attribute is as
    it was, and none has appeared or gone. *)
Definition applied (op : gset ref → gset ref) (P : ref → string → bool)
    (h h' : heap) : Prop :=
  same_objects h h'
  ∧ (∀ y b, getattr h' y b
            = match getattr h y b with
              | Ok s => Ok (if P y b then op s else s)
              | Raise e => Raise e
              end)
  ∧ (∀ y b, P y b = true → ∃ s, getattr h y b = Ok s).

(** The attributes that one pass of the loops of [attach_parents] and
    [detach_parents] aims at, for the parent [p]; [members] is the attribute
    the pass asks the Variables of a container for. *)
Definition pass_targets (members : string) (h : heap) (p y : ref)
    (b : string) : bool :=
  if isinstance h p VariableT
  then bool_decide (y = p) && bool_decide (b = "children")
  else isinstance h p ContainerBaseT
       && bool_decide (y ∈ attr_set h p "variables")
       && bool_decide (b = members).

(** The attributes that one pass of the loops of [attach_extended_parents]
    and [detach_extended_parents] aims at. *)
Definition extended_pass_targets (h : heap) (e y : ref) (b : string) : bool :=
  bool_decide (y = e) && bool_decide (b = "extended_children")
  && isinstance h e StochasticBaseT.

(** The objects whose [children] the binding of [parents] concerns: a bound
    Variable, and the [variables] of a bound container. *)
Definition parent_targets (h : heap) (parents : list ref) (y : ref) : bool :=
  existsb (λ p, if isinstance h p VariableT then bool_decide (y = p)
                else isinstance h p ContainerBaseT
                     && bool_decide (y ∈ attr_set h p "variables"))
          parents.

(** The objects whose [extended_children] the owner concerns: its Stochastic
    extended parents. *)
Definition extended_targets (h : heap) (owner y : ref) : bool :=
  bool_decide (y ∈ attr_set h owner "extended_parents")
  && isinstance h y StochasticBaseT.

(** The attributes in which a binding map registers its owner. *)
Definition registration_targets (h : heap) (s : ParentDict) (y : ref)
    (b : string) : bool :=
  bool_decide (b = "children") && parent_targets h (itervalues (items s)) y
  || has_logp s && (bool_decide (b = "extended_children")
                    && extended_targets h (owner s) y).

(** The two heaps hold the same objects with the same attributes, whatever
    the attributes hold. *)
Definition same_shape (h h' : heap) : Prop :=
  same_objects h h'
  ∧ ∀ y b, (∃ s, getattr h' y b = Ok s) ↔ (∃ s, getattr h y b = Ok s).

(** What the two halves of [__setitem__] do to the key lists. *)
Definition old_keys (is_val_old : bool) (key : string)
    (vk nk : list string) : option (list string * list string) :=
  if is_val_old then vk' ← list_remove key vk; Some (vk', (nk ++ [key])%list)
  else Some (vk, nk).

Definition new_keys (is_val_new : bool) (key : string)
    (vk nk : list string) : option (list string * list string) :=
  if is_val_new then nk' ← list_remove key nk; Some ((vk ++ [key])%list, nk')
  else Some (vk, nk).

(** The key lists follow the bindings: [val_keys] lists, once each, the keys
    bound to a Variable or a container, and [nonval_keys] the other keys. *)
Definition keys_filed (h : heap) (s : ParentDict) : Prop :=
  NoDup (val_keys s) ∧ NoDup (nonval_keys s)
  ∧ ∀ k, (k ∈ val_keys s ↔ ∃ v, items s !! k = Some v ∧ is_val h v = true)
         ∧ (k ∈ nonval_keys s
            ↔ ∃ v, items s !! k = Some v ∧ is_val h v = false).

(** What a rebinding from [old_parent] to [new_parent], neither of them a
    container, makes of the [children] set [s] of [y]; [d] are the bindings
    before and [o] is the owner. *)
Definition rebound_children (h : heap) (d : gmap string ref)
    (o old_parent new_parent y : ref) (s : gset ref) : gset ref :=
  let s1 := if isinstance h old_parent VariableT
               && bool_decide (count_is d old_parent = 1)
               && bool_decide (y = old_parent)
            then s ∖ {[o]} else s in
  if isinstance h new_parent VariableT && bool_decide (y = new_parent)
  then s1 ∪ {[o]} else s1.

(** From [h] to [h'] only registrations have changed: the objects are the
    same, and every attribute other than [children] and [extended_children]
    holds what it held. *)
Definition registrations_only (h h' : heap) : Prop :=
  same_objects h h'
  ∧ ∀ y b, b ≠ "children" → b ≠ "extended_children" →
           getattr h' y b = getattr h y b.

(** ** Samples *)

Definition node (c : pyclass) (children eps ecs : gset ref) : pyobj :=
  PyObj c true {[ "children" := children; "extended_parents" := eps;
                  "extended_children" := ecs ]}.

Definition container (vars ss ds : gset ref) : pyobj :=
  PyObj Container true {[ "variables" := vars; "stochastics" := ss;
                          "deterministics" := ds ]}.

(** Stochastic 1 -> Deterministic 2 -> Stochastic 3, a free Stochastic 4 and
    a container 5 that holds 4 and 2. *)
Definition chain : heap :=
  {[ 1%positive := node Stochastic {[2%positive]} ∅ {[3%positive]};
     2%positive := node Deterministic {[3%positive]} {[1%positive]} ∅;
     3%positive := node Stochastic ∅ {[1%positive]} ∅;
     4%positive := node Stochastic ∅ ∅ ∅;
     5%positive := container {[4%positive; 2%positive]} {[4%positive]}
                             {[2%positive]} ]}.

Definition chain_rank (x : ref) : nat :=
  match x with
  | 1%positive => 2
  | 2%positive => 1
  | _ => 0
  end.

(** Stochastic 3 with the single parent [mu] bound to Stochastic 1; a second
    Stochastic 2 and a container 4 that holds 2 stand by. *)
Definition family : heap :=
  {[ 1%positive := node Stochastic {[3%positive]} ∅ {[3%positive]};
     2%positive := node Stochastic ∅ ∅ ∅;
     3%positive := node Stochastic ∅ {[1%positive]} ∅;
     4%positive := container {[2%positive]} {[2%positive]} ∅ ]}.

Definition family_parents : ParentDict :=
  mkParentDict {[ "mu" := 1%positive ]} 3 true {[1%positive]} ["mu"] [].

(** The same Stochastic 3 with [mu] bound to the container 4; 3 is registered
    as a child of the contained Stochastic 2. *)
Definition boxed : heap :=
  {[ 1%positive := node Stochastic ∅ ∅ ∅;
     2%positive := node Stochastic {[3%positive]} ∅ {[3%positive]};
     3%positive := node Stochastic ∅ {[2%positive]} ∅;
     4%positive := container {[2%positive]} {[2%positive]} ∅ ]}.

Definition boxed_parents : ParentDict :=
  mkParentDict {[ "mu" := 4%positive ]} 3 true {[2%positive]} ["mu"] [].

(** An evaluator that never raises. *)
Definition quiet_evaluator : Evaluator :=
  {| gen_lazy_function := λ _ _, Ok tt |}.

(** Raw results that are floats already. *)
Definition float_builtins : Builtins spec_float :=
  {| py_float := Some; py_str := λ _, "<float>" |}.

(** Sample payload entries: an integer, the string ['abc'], and [None];
    sample dtypes: the types [int] and [object], and numpy's
    [dtype('int64')].  [int(x)] returns an integer, raises [ValueError] on
    ['abc'] and [TypeError] on [None]; [asarray(v, dtype=int)] converts entry
    by entry. *)
Inductive entry := an_int (z : Z) | abc | none.
Inductive sample_dtype := py_int | py_object | np_int64.

#[global] Instance sample_dtype_eq_dec : EqDecision sample_dtype.
Proof. solve_decision. Defined.

Definition to_int (x : entry) : result entry :=
  match x with
  | an_int z => Ok (an_int z)
  | abc => Raise (ValueError "invalid literal for int()")
  | none => Raise (TypeError "int() argument must be a string or a number")
  end.

Definition sample_call (dt : sample_dtype) (v : pyval entry sample_dtype)
  : result (pyval entry sample_dtype) :=
  match dt, v with
  | py_int, Plain x => y ← to_int x; Ok (Plain y)
  | py_int, NdArray _ => Raise (TypeError "only length-1 arrays can be converted")
  | _, _ => Ok v
  end.

Definition sample_matches (dt dt' : sample_dtype) : bool :=
  match dt, dt' with
  | py_int, np_int64 | np_int64, np_int64 => true
  | py_object, py_object => true
  | _, _ => false
  end.

Fixpoint to_ints (d : list entry) : result (list entry) :=
  match d with
  | [] => Ok []
  | x :: d' => y ← to_int x; ys ← to_ints d'; Ok (y :: ys)
  end.

(** [asarray] of an array whose dtype does not match the one asked for. *)
Definition sample_convert (a : ndarray entry sample_dtype) (dt : sample_dtype)
  : result (ndarray entry sample_dtype) :=
  match dt with
  | py_object => Ok (mkArray (data a) true py_object)
  | _ => d ← to_ints (data a); Ok (mkArray d true np_int64)
  end.

Definition sample_asarray (v : pyval entry sample_dtype) (dt : sample_dtype)
  : result (ndarray entry sample_dtype) :=
  match v with
  | NdArray a =>
      if sample_matches dt (adtype a) then Ok a else sample_convert a dt
  | Plain x =>
      match dt with
      | py_object => Ok (mkArray [x] true py_object)
      | _ => y ← to_int x; Ok (mkArray [y] true np_int64)
      end
  end.

#[global] Instance sample_numpy : Numpy entry sample_dtype := {|
  dtype_truthy := λ dt, match dt with np_int64 => false | _ => true end;
  dtype_is_object := λ dt, match dt with py_object => true | _ => false end;
  dtype_matches := sample_matches;
  call_dtype := sample_call;
  asarray := sample_asarray;
  asarray_same := λ a dt Hm,
    eq_ind_r (x := true)
             (λ b : bool, (if b then Ok a else sample_convert a dt) = Ok a)
             eq_refl Hm
|}.

(** Sample payloads: two integer arrays and three plain objects. *)
Definition payloads : gmap ref (pyval entry sample_dtype) :=
  {[ 10%positive :=
       NdArray (mkArray [an_int 1; an_int 2; an_int 5] false np_int64);
     11%positive :=
       NdArray (mkArray [an_int 7; an_int 8; an_int 9] true np_int64);
     12%positive := Plain (an_int 1);
     13%positive := Plain (an_int 2);
     14%positive := Plain abc ]}.

(** A Stochastic of dtype [int] that is data with entry 2 missing, one that
    is data with nothing missing, and one that is not data. *)
Definition partly_observed : vstate entry sample_dtype :=
  mkVState payloads (mkStochastic true (Some [2]) (Some py_int) 10 None).

Definition observed : vstate entry sample_dtype :=
  mkVState payloads (mkStochastic true None (Some py_int) 10 None).

Definition unobserved : vstate entry sample_dtype :=
  mkVState payloads (mkStochastic false None (Some py_int) 12 None).

(** *** Further samples *)

(** Two Deterministic nodes that are each other's child. *)
Definition cycle : heap :=
  {[ 1%positive := node Deterministic {[2%positive]} ∅ ∅;
     2%positive := node Deterministic {[1%positive]} ∅ ∅ ]}.

(** Stochastic 1 and Stochastic 2 are the two parents of Stochastic 3; a
    Potential 4 hangs on 1. *)
Definition collider : heap :=
  {[ 1%positive := node Stochastic {[3%positive; 4%positive]} ∅
                        {[3%positive; 4%positive]};
     2%positive := node Stochastic {[3%positive]} ∅ {[3%positive]};
     3%positive := node Stochastic ∅ {[1%positive; 2%positive]} ∅;
     4%positive := PyObj Potential true
                     {[ "extended_parents" := {[1%positive]} ]} ]}.

(** A Stochastic without a declared dtype that is not data. *)
Definition untyped : vstate entry sample_dtype :=
  mkVState payloads (mkStochastic false None None 12 None).

(** A draw that makes the array [[4; 5; 6]]. *)
Definition sample_draw : ST (vstate entry sample_dtype) ref :=
  alloc (NdArray (mkArray [an_int 4; an_int 5; an_int 6] true np_int64)).

(** The sample family after [mu] has been rebound to Stochastic 2. *)
Definition family_rebound : gstate :=
  (setitem (H := quiet_evaluator) "mu" 2 (mkState family family_parents)).2.

(** * Properties *)

(** Unfolding of the binds of [result]. *)
Tactic Notation "unbind" "in" hyp(H) :=
  cbv [mbind mret result_bind result_ret] in H.
Tactic Notation "unbind" := cbv [mbind mret result_bind result_ret].

(** Unfolding of a value method down to the state it works on. *)
Ltac unfold_method :=
  cbv [set_value set_value_data revert get_last_value get_value assign_value
       get_this put_this deref alloc update lift raise
       mbind mret ST_bind ST_ret].

Tactic Notation "unfold_method" "in" hyp(H) :=
  cbv [set_value set_value_data revert get_last_value get_value assign_value
       get_this put_this deref alloc update lift raise
       mbind mret ST_bind ST_ret] in H.

(** ** [extend_children] *)

Section ExtendChildren.
Variable h : heap.

Lemma for_in_extend_children (l : list ref) :
  (∀ x, x ∈ l → isinstance h x DeterministicT = true → ∃ s, getattr h x "children" = Ok s) →
  ∀ a b d,
  for_in l (extend_children_body h) (a, b, d)
  = Ok (a ∪ ⋃ (map (λ x, attr_set h x "children") (filter (λ x, isinstance h x DeterministicT = true) l)),
        b || existsb (λ x, isinstance h x DeterministicT) l,
        d ∪ list_to_set (filter (λ x, isinstance h x DeterministicT = true) l)).
Proof.
  induction l as [|x l IH]; intros Hc a b d.
  - simpl. by rewrite orb_false_r, !(right_id_L ∅ (∪)).
  - simpl. destruct (isinstance h x DeterministicT) eqn:Hx.
    + destruct (Hc x) as [s Hs]; [left | done |].
      rewrite Hs. simpl. rewrite IH by (intros; apply Hc; [by right | done]).
      rewrite filter_cons_True by done. simpl.
      unfold attr_set at 2. rewrite Hs.
      rewrite orb_true_r. by rewrite !(assoc_L (∪)).
    + simpl. rewrite IH by (intros; apply Hc; [by right | done]).
      rewrite filter_cons_False by (rewrite Hx; done). done.
Qed.

Lemma extend_children_round (s : gset ref) :
  deterministics_have_children h →
  for_in (elements s) (extend_children_body h) (s, false, ∅)
  = Ok (s ∪ ⋃ (map (λ x, attr_set h x "children")
                   (filter (λ x, isinstance h x DeterministicT = true) (elements s))),
        existsb (λ x, isinstance h x DeterministicT) (elements s),
        deterministic_members h s).
Proof.
  intros Hc. rewrite for_in_extend_children by (intros; by apply Hc).
  do 2 f_equal. apply set_eq. intros x.
  unfold deterministic_members.
  rewrite elem_of_union, elem_of_list_to_set, list_elem_of_filter,
    elem_of_filter, elem_of_elements. set_solver.
Qed.

Lemma round_is_replace (s : gset ref) :
  (s ∪ ⋃ (map (λ x, attr_set h x "children")
              (filter (λ x, isinstance h x DeterministicT = true) (elements s))))
  ∖ deterministic_members h s
  = replace_deterministics h s.
Proof.
  unfold replace_deterministics. apply set_eq. intros x.
  rewrite !elem_of_difference, !elem_of_union, !elem_of_union_list.
  apply and_iff_compat_r, or_iff_compat_l.
  split; intros (X & HX & Hx); exists X; split; try done;
    apply list_elem_of_fmap in HX as (d & -> & Hd); apply list_elem_of_fmap;
    exists d; split; try done.
  - apply list_elem_of_filter in Hd as [Hd1 Hd2].
    apply elem_of_elements, elem_of_filter. by rewrite elem_of_elements in Hd2.
  - apply elem_of_elements, elem_of_filter in Hd as [Hd1 Hd2].
    apply list_elem_of_filter. by rewrite elem_of_elements.
Qed.

Lemma no_deterministic_member (s : gset ref) :
  existsb (λ x, isinstance h x DeterministicT) (elements s) = false → deterministic_members h s = ∅.
Proof.
  intros He. apply set_eq. intros x. split; [|set_solver].
  intros [Hx Hs]%elem_of_filter.
  assert (existsb (λ x, isinstance h x DeterministicT) (elements s) = true); [|congruence].
  apply existsb_exists. exists x. split; [|done].
  apply list_elem_of_In. by apply elem_of_elements.
Qed.

Lemma replace_no_deterministics (s : gset ref) :
  deterministic_members h s = ∅ → replace_deterministics h s = s.
Proof.
  intros He. unfold replace_deterministics. rewrite He.
  rewrite elements_empty. simpl. set_solver.
Qed.

Lemma replace_lowers_rank (rank : ref → nat) (s : gset ref) (n : nat) :
  acyclic_by h rank →
  (∀ d, d ∈ deterministic_members h s → rank d < S n) →
  ∀ d, d ∈ deterministic_members h (replace_deterministics h s) → rank d < n.
Proof.
  intros Hacyc Hs d [Hd Hin]%elem_of_filter.
  unfold replace_deterministics in Hin.
  apply elem_of_difference in Hin as [Hin Hnot].
  apply elem_of_union in Hin as [Hin|Hin].
  - exfalso. apply Hnot. by apply elem_of_filter.
  - apply elem_of_union_list in Hin as (X & HX & Hx).
    apply list_elem_of_fmap in HX as (p & -> & Hp).
    apply elem_of_elements in Hp.
    specialize (Hs p Hp). apply elem_of_filter in Hp as [Hp _].
    specialize (Hacyc p d Hp Hx). lia.
Qed.

Lemma extend_children_terminates (rank : ref → nat) :
  deterministics_have_children h → acyclic_by h rank →
  ∀ n s, (∀ d, d ∈ deterministic_members h s → rank d < n) →
  ∃ r k,
    (∀ fuel, n < fuel → extend_children fuel h s = Some (Ok r))
    ∧ r = Nat.iter k (replace_deterministics h) s
    ∧ replace_deterministics h r = r
    ∧ deterministic_members h r = ∅.
Proof.
  intros Hc Hacyc. induction n as [|n IH]; intros s Hs.
  - assert (deterministic_members h s = ∅) as He.
    { apply set_eq. intros d. split; [|set_solver]. intros Hd.
      specialize (Hs d Hd). lia. }
    exists s, 0. split_and!; try done.
    + intros [|fuel] Hf; [lia|]. simpl.
      rewrite extend_children_round by done.
      destruct (existsb (λ x, isinstance h x DeterministicT) (elements s)) eqn:Hex.
      * apply existsb_exists in Hex as (d & Hd1 & Hd2).
        apply list_elem_of_In, elem_of_elements in Hd1.
        assert (d ∈ deterministic_members h s) by by apply elem_of_filter.
        set_solver.
      * rewrite round_is_replace. by rewrite replace_no_deterministics.
    + by apply replace_no_deterministics.
  - destruct (existsb (λ x, isinstance h x DeterministicT) (elements s)) eqn:Hex.
    + destruct (IH (replace_deterministics h s)) as (r & k & Hrun & Hr & Hfix & Hno).
      { by eapply replace_lowers_rank. }
      exists r, (S k). split_and!; try done.
      * intros [|fuel] Hf; [lia|]. simpl.
        rewrite extend_children_round by done. rewrite Hex.
        rewrite round_is_replace. apply Hrun. lia.
      * rewrite Nat.iter_succ_r. done.
    + pose proof (no_deterministic_member s Hex) as He.
      exists s, 0. split_and!; try done.
      * intros [|fuel] Hf; [lia|]. simpl.
        rewrite extend_children_round by done. rewrite Hex.
        rewrite round_is_replace. by rewrite replace_no_deterministics.
      * by apply replace_no_deterministics.
Qed.
End ExtendChildren.

Lemma rank_bound (h : heap) (rank : ref → nat) (s : gset ref) :
  ∃ n, ∀ d, d ∈ deterministic_members h s → rank d < n.
Proof.
  exists (S (max_list (rank <$> elements s))). intros d [_ Hd]%elem_of_filter.
  apply Nat.lt_succ_r, max_list_elem_of_le, list_elem_of_fmap.
  exists d. split; [done|]. by apply elem_of_elements.
Qed.

(** C5: over an acyclic graph whose Deterministic nodes have a [children]
    set, [extend_children] returns (for every large enough recursion bound)
    the set reached from the seed by repeating the replacement of every
    Deterministic member by its own children; that set is a fixed point of
    the replacement and has no Deterministic member. *)
Theorem extend_children_fixed_point (h : heap) (rank : ref → nat)
    (seed : gset ref) :
  deterministics_have_children h → acyclic_by h rank →
  ∃ r k fuel0,
    (∀ fuel, (fuel0 ≤ fuel)%nat → extend_children fuel h seed = Some (Ok r))
    ∧ r = Nat.iter k (replace_deterministics h) seed
    ∧ replace_deterministics h r = r
    ∧ ∀ x, x ∈ r → isinstance h x DeterministicT = false.
Proof.
  intros Hc Hacyc. destruct (rank_bound h rank seed) as [n Hn].
  destruct (extend_children_terminates h rank Hc Hacyc n seed Hn)
    as (r & k & Hrun & Hr & Hfix & Hno).
  exists r, k, (S n).
  split_and!; [intros fuel Hf; apply Hrun; lia | done | done |].
  intros x Hx. destruct (isinstance h x DeterministicT) eqn:Hd; [|done].
  assert (x ∈ deterministic_members h r) by by apply elem_of_filter.
  set_solver.
Qed.

(** The sample chain meets the hypotheses. *)
Lemma chain_deterministic (d : ref) :
  isinstance chain d DeterministicT = true → d = 2%positive.
Proof.
  unfold isinstance, chain.
  repeat (rewrite lookup_insert; case_decide; subst; simpl; try done).
  rewrite lookup_singleton. by case_decide.
Qed.

Lemma chain_has_children : deterministics_have_children chain.
Proof. intros d ->%chain_deterministic. by eexists. Qed.

Lemma chain_acyclic : acyclic_by chain chain_rank.
Proof.
  intros d c ->%chain_deterministic Hc.
  assert (attr_set chain 2 "children" = {[3%positive]}) as E
    by (vm_compute; reflexivity).
  rewrite E in Hc. apply elem_of_singleton in Hc as ->. simpl. lia.
Qed.

Lemma extend_children_fixed_point_witness :
  deterministics_have_children chain ∧ acyclic_by chain chain_rank
  ∧ ∃ r k fuel0,
      (∀ fuel, (fuel0 ≤ fuel)%nat →
         extend_children fuel chain {[2%positive]} = Some (Ok r))
      ∧ r = Nat.iter k (replace_deterministics chain) {[2%positive]}
      ∧ replace_deterministics chain r = r
      ∧ ∀ x, x ∈ r → isinstance chain x DeterministicT = false.
Proof.
  split; [apply chain_has_children|]. split; [apply chain_acyclic|].
  apply (extend_children_fixed_point chain chain_rank {[2%positive]});
    [apply chain_has_children | apply chain_acyclic].
Defined.

Example extend_children_chain :
  extend_children 2 chain {[2%positive]} = Some (Ok {[3%positive]}).
Proof. vm_compute. reflexivity. Qed.

(** ** [extend_parents] *)

Section ExtendParents.
Variable h : heap.

Lemma for_in_add_contained (l : list ref) (acc r : gset ref) :
  for_in l (add_contained h) acc = Ok r → acc ⊆ r.
Proof.
  revert acc. induction l as [|x l IH]; intros acc Hrun; simpl in Hrun.
  - by injection Hrun as <-.
  - cbv [mbind result_bind add_contained set_add] in Hrun.
    destruct (is_hashable h x); [|done]. apply IH in Hrun. set_solver.
Qed.

Lemma for_in_union_contained (l : list ref) (acc r : gset ref) :
  for_in l (union_contained h) acc = Ok r → acc ⊆ r.
Proof.
  revert acc. induction l as [|x l IH]; intros acc Hrun; simpl in Hrun.
  - by injection Hrun as <-.
  - cbv [mbind result_bind] in Hrun.
    destruct (union_contained h x acc) as [acc'|] eqn:Hbody; [|done].
    unfold union_contained in Hbody. cbv [mbind result_bind] in Hbody.
    destruct (getattr h x "extended_parents"); [|done].
    injection Hbody as <-. apply IH in Hrun. set_solver.
Qed.

(** A member that is not a Deterministic stays through the loop. *)
Lemma extend_parents_body_keeps (p c : ref) (acc r : gset ref) :
  extend_parents_body h p acc = Ok r →
  isinstance h c DeterministicBaseT = false →
  c ∈ acc ∨ c = p → c ∈ r.
Proof.
  unfold extend_parents_body, set_add. cbv [mbind result_bind].
  intros Hrun Hc Hin. destruct (is_hashable h p); [|done].
  destruct (isinstance h p DeterministicBaseT) eqn:Hp.
  - destruct (getattr h p "extended_parents"); [|done]. injection Hrun as <-.
    destruct Hin as [Hin| ->]; [|congruence].
    assert (c ≠ p) by (intros ->; congruence). set_solver.
  - destruct (isinstance h p ContainerBaseT).
    + destruct (getattr h p "stochastics") as [ss|]; [|done].
      destruct (for_in (elements ss) (add_contained h) (acc ∪ {[p]}))
        as [acc'|] eqn:Hss; [|done].
      destruct (getattr h p "deterministics") as [ds|]; [|done].
      apply for_in_add_contained in Hss.
      apply for_in_union_contained in Hrun. set_solver.
    + injection Hrun as <-. set_solver.
Qed.

Lemma for_in_extend_parents_keeps (l : list ref) (c : ref) (acc r : gset ref) :
  for_in l (extend_parents_body h) acc = Ok r →
  isinstance h c DeterministicBaseT = false →
  c ∈ acc ∨ c ∈ l → c ∈ r.
Proof.
  revert acc. induction l as [|p l IH]; intros acc Hrun Hc Hin;
    simpl in Hrun.
  - injection Hrun as <-. destruct Hin as [?|Hin]; [done|].
    by apply elem_of_nil in Hin.
  - cbv [mbind result_bind] in Hrun.
    destruct (extend_parents_body h p acc) as [acc'|] eqn:Hbody; [|done].
    apply (IH acc' Hrun Hc).
    destruct Hin as [Hin|[->|Hin]%elem_of_cons]; [left | left | by right];
      eapply extend_parents_body_keeps; eauto.
Qed.

(** Whenever [extend_parents] returns, every container among the parents is
    a member of the result. *)
Lemma extend_parents_keeps_containers (parents : list ref) (c : ref)
    (r : gset ref) :
  extend_parents h parents = Ok r →
  c ∈ parents → isinstance h c ContainerBaseT = true → c ∈ r.
Proof.
  intros Hrun Hin Hc. eapply for_in_extend_parents_keeps; eauto.
  unfold isinstance in *. destruct (h !! c) as [o|]; [|done].
  by destruct (cls o).
Qed.
End ExtendParents.

(** C4: on the sample chain, the container 5, bound as a parent, is itself
    a member of what [extend_parents] returns, next to its Stochastic member
    4 and the extended parent 1 of its Deterministic member 2. *)
Theorem extend_parents_returns_container :
  isinstance chain 5 ContainerBaseT = true
  ∧ extend_parents chain [5%positive]
    = Ok {[5%positive; 4%positive; 1%positive]}
  ∧ density_bearing chain 5 = false.
Proof. split_and!; vm_compute; reflexivity. Qed.

(** ** The parent binding map *)

(** C6: [detach_parents] on a map whose parent is a container raises
    [AttributeError] at the first contained Variable (it asks for the
    attribute [chidren]) and leaves the owner registered as a child of that
    Variable; [attach_parents] on the same bindings registers the owner. *)
Theorem detach_parents_container_fails :
  detach_parents (mkState boxed boxed_parents)
  = (Raise (AttributeError "chidren"), mkState boxed boxed_parents)
  ∧ getattr boxed 2 "children" = Ok {[3%positive]}
  ∧ (attach_parents (mkState family boxed_parents)).1 = Ok tt
  ∧ getattr family 2 "children" = Ok ∅
  ∧ getattr (objs (attach_parents (mkState family boxed_parents)).2)
            2 "children" = Ok {[3%positive]}.
Proof. split_and!; vm_compute; reflexivity. Qed.

(** C2: rebinding [mu] from Stochastic 1 to the container 4 asks the
    container itself for [children]: the call raises [AttributeError] and the
    owner 3 is not a child of the contained Stochastic 2; and where the
    container has a [children] set, the owner is put there and still not
    among the children of 2. *)
Theorem setitem_container_skips_members :
  (setitem (H := quiet_evaluator) "mu" 4
     (mkState family family_parents)).1
  = Raise (AttributeError "children")
  ∧ getattr (objs (setitem (H := quiet_evaluator) "mu" 4
                     (mkState family family_parents)).2) 2 "children"
    = Ok ∅
  ∧ (setitem (H := quiet_evaluator) "mu" 4
       (mkState (setattr family 4 "children" ∅) family_parents)).1
    = Ok tt
  ∧ getattr (objs (setitem (H := quiet_evaluator) "mu" 4
                     (mkState (setattr family 4 "children" ∅)
                        family_parents)).2) 2 "children"
    = Ok ∅
  ∧ getattr (objs (setitem (H := quiet_evaluator) "mu" 4
                     (mkState (setattr family 4 "children" ∅)
                        family_parents)).2) 4 "children"
    = Ok {[3%positive]}.
Proof. split_and!; vm_compute; reflexivity. Qed.

(** Rebinding [mu] from the container 4 to Stochastic 1 leaves the owner
    among the children of the contained Stochastic 2, which no key
    references any more. *)
Lemma setitem_old_container_keeps_members :
  (setitem (H := quiet_evaluator) "mu" 1 (mkState boxed boxed_parents)).1
  = Ok tt
  ∧ items (self (setitem (H := quiet_evaluator) "mu" 1
                   (mkState boxed boxed_parents)).2)
    = {[ "mu" := 1%positive ]}
  ∧ getattr (objs (setitem (H := quiet_evaluator) "mu" 1
                     (mkState boxed boxed_parents)).2) 2 "children"
    = Ok {[3%positive]}.
Proof. split_and!; vm_compute; reflexivity. Qed.

(** Between Variables the registration follows the bindings: rebinding [mu]
    from Stochastic 1 to Stochastic 2 takes the owner 3 out of the children
    of 1 and puts it among those of 2; while a second key [tau] still binds
    1, the owner stays a child of 1. *)
Example setitem_variable_children :
  getattr (objs (setitem (H := quiet_evaluator) "mu" 2
                   (mkState family family_parents)).2) 1 "children"
  = Ok ∅
  ∧ getattr (objs (setitem (H := quiet_evaluator) "mu" 2
                     (mkState family family_parents)).2) 2 "children"
    = Ok {[3%positive]}
  ∧ (setitem (H := quiet_evaluator) "mu" 2
       (mkState family
          (mkParentDict {[ "mu" := 1%positive; "tau" := 1%positive ]} 3 true
             {[1%positive]} ["mu"; "tau"] []))).1
    = Ok tt
  ∧ getattr (objs (setitem (H := quiet_evaluator) "mu" 2
                     (mkState family
                        (mkParentDict
                           {[ "mu" := 1%positive; "tau" := 1%positive ]} 3 true
                           {[1%positive]} ["mu"; "tau"] []))).2) 1 "children"
    = Ok {[3%positive]}.
Proof. split_and!; vm_compute; reflexivity. Qed.

(** The constructor files the bindings first and computes the extended
    parents from them. *)
Example init_extended_parents :
  getattr (ParentDict_init {[ "mu" := 2%positive ]} 3 family).2
          3 "extended_parents"
  = Ok {[2%positive]}
  ∧ (ParentDict_init {[ "mu" := 1%positive ]} 3 family).1
    = Ok family_parents.
Proof. split; vm_compute; reflexivity. Qed.

(** C1: rebinding [mu] from Stochastic 1 to Stochastic 2 succeeds and leaves
    the owner 3 with the extended parents of the old binding, [{1}], where
    [extend_parents] of the bindings as they now stand is [{2}]. *)
Theorem setitem_extended_parents_stale :
  (setitem (H := quiet_evaluator) "mu" 2
     (mkState family family_parents)).1 = Ok tt
  ∧ items (self (setitem (H := quiet_evaluator) "mu" 2
                   (mkState family family_parents)).2)
    = {[ "mu" := 2%positive ]}
  ∧ variables (self (setitem (H := quiet_evaluator) "mu" 2
                       (mkState family family_parents)).2)
    = {[ 2%positive ]}
  ∧ getattr (objs (setitem (H := quiet_evaluator) "mu" 2
                     (mkState family family_parents)).2)
            3 "extended_parents"
    = Ok {[1%positive]}
  ∧ extend_parents
      (objs (setitem (H := quiet_evaluator) "mu" 2
               (mkState family family_parents)).2)
      [2%positive]
    = Ok {[2%positive]}.
Proof. split_and!; vm_compute; reflexivity. Qed.

(** ** Markov blanket *)

Section MarkovBlanket.
Variable h : heap.

Lemma for_in_coparents (l : list ref) (acc r : gset ref) :
  for_in l (coparents_body h) acc = Ok r →
  ∀ x, x ∈ r ↔ x ∈ acc ∨ ∃ c, c ∈ l ∧ x ∈ attr_set h c "extended_parents".
Proof.
  revert acc. induction l as [|c l IH]; intros acc Hrun x; simpl in Hrun.
  - injection Hrun as <-. split; [by left|]. intros [?|(c & Hc & _)]; [done|].
    by apply elem_of_nil in Hc.
  - unbind in Hrun.
    destruct (coparents_body h c acc) as [acc'|] eqn:Hbody; [|done].
    unfold coparents_body in Hbody. unbind in Hbody.
    destruct (getattr h c "extended_parents") as [ep|] eqn:Hep; [|done].
    injection Hbody as <-. rewrite (IH _ Hrun), elem_of_union. split.
    + intros [[?|Hx]|(c' & Hc' & Hx)]; [by left | right | right].
      * exists c. split; [left|]. unfold attr_set. by rewrite Hep.
      * exists c'. split; [by right | done].
    + intros [?|(c' & Hc' & Hx)]; [by left; left|].
      apply elem_of_cons in Hc' as [->|Hc'].
      * left; right. unfold attr_set in Hx. by rewrite Hep in Hx.
      * right. by exists c'.
Qed.

Lemma foldl_drop_potential (l : list ref) (mn : gset ref) (x : ref) :
  x ∈ foldl (drop_potential h) mn l
  ↔ x ∈ mn ∧ ¬ (x ∈ l ∧ isinstance h x PotentialBaseT = true).
Proof.
  revert mn. induction l as [|n l IH]; intros mn; simpl.
  - split; [|by intros [? _]]. intros ?. split; [done|].
    intros [Hx _]. by apply elem_of_nil in Hx.
  - rewrite IH. unfold drop_potential.
    destruct (isinstance h n PotentialBaseT) eqn:Hn.
    + rewrite elem_of_difference, elem_of_singleton, elem_of_cons. split.
      * intros [[Hx Hne] Hl]. split; [done|]. intros [[->|?] ?]; [done|].
        by apply Hl.
      * intros [Hx Hl]. split; [split; [done|]|].
        -- intros ->. apply Hl. split; [by left | done].
        -- intros [? ?]. apply Hl. split; [by right | done].
    + rewrite elem_of_cons. split; intros [Hx Hl]; (split; [done|]).
      * intros [[->|?] Hp]; [congruence|]. by apply Hl.
      * intros [? ?]. apply Hl. split; [by right | done].
Qed.

(** What [markov_blanket] returns, member by member. *)
Lemma markov_blanket_members (b : ref) (mb : gset ref) :
  markov_blanket h b = Ok mb →
  ∀ x, x ∈ mb ↔
    x = b
    ∨ (isinstance h x PotentialBaseT = false
       ∧ (x ∈ attr_set h b "extended_parents"
          ∨ x ∈ attr_set h b "extended_children"
          ∨ ∃ c, c ∈ attr_set h b "extended_children"
                 ∧ x ∈ attr_set h c "extended_parents")).
Proof.
  unfold markov_blanket, moral_neighbors, coparents, set_add, attr_set.
  intros Hrun x. unbind in Hrun.
  destruct (getattr h b "extended_children") as [ec|] eqn:Hec; [|done].
  destruct (for_in (elements ec) (coparents_body h) ∅) as [cp|] eqn:Hcp;
    [|done].
  destruct (is_hashable h b); [|done].
  destruct (getattr h b "extended_parents") as [ep|] eqn:Hep; [|done].
  injection Hrun as <-.
  pose proof (for_in_coparents _ _ _ Hcp) as Hmem.
  rewrite elem_of_union, foldl_drop_potential, !elem_of_union,
    elem_of_elements, !elem_of_union, Hmem, !elem_of_singleton.
  setoid_rewrite elem_of_elements.
  destruct (isinstance h x PotentialBaseT) eqn:Hp.
  - split.
    + intros [[Hx Hn]|Hx]; [|left; set_solver]. exfalso. apply Hn. done.
    + intros [->|[? _]]; [right; set_solver | done].
  - split.
    + intros [[Hx _]|Hx]; [|left; set_solver].
      destruct Hx as [[[[?|?]|?]|?]|?]; [set_solver | | by left | | ];
        right; (split; [done|]); auto.
    + intros [->|[_ Hx]]; [right; set_solver|]. left. split; [|by intros [_ ?]].
      destruct Hx as [?|[?|?]]; auto.
Qed.

(** C9: in a consistently registered graph, membership in the Markov blanket
    is symmetric between two Stochastic nodes. *)
Theorem markov_blanket_symmetric (a b : ref) (mba mbb : gset ref) :
  consistently_registered h →
  isinstance h a StochasticBaseT = true →
  isinstance h b StochasticBaseT = true →
  markov_blanket h a = Ok mba →
  markov_blanket h b = Ok mbb →
  a ∈ mbb → b ∈ mba.
Proof.
  intros Hcons Ha Hb Hmba Hmbb Hin.
  assert (isinstance h b PotentialBaseT = false) as Hbp.
  { unfold isinstance in *. destruct (h !! b) as [o|]; [|done].
    by destruct (cls o). }
  apply (markov_blanket_members _ _ Hmbb) in Hin.
  apply (markov_blanket_members _ _ Hmba).
  destruct Hin as [->|[_ [Hep|[Hec|(c & Hc & Hac)]]]]; [by left | right ..];
    (split; [done|]).
  - right; left. apply (Hcons a b Ha); [|done].
    unfold density_bearing. by rewrite Hb.
  - left. by apply (Hcons b a Hb).
  - right; right. exists c. destruct (proj1 (Hcons b c Hb) Hc) as [Hd Hbc].
    split; [|done]. by apply (Hcons a c Ha).
Qed.
End MarkovBlanket.

Lemma chain_stochastic (p : ref) :
  isinstance chain p StochasticBaseT = true →
  p = 1%positive ∨ p = 3%positive ∨ p = 4%positive.
Proof.
  unfold isinstance, chain.
  repeat (rewrite lookup_insert; case_decide; subst; simpl; try done);
    try tauto.
  rewrite lookup_singleton. by case_decide.
Qed.

Lemma chain_density_bearing (c : ref) :
  density_bearing chain c = true →
  c = 1%positive ∨ c = 3%positive ∨ c = 4%positive.
Proof.
  unfold density_bearing, isinstance, chain.
  repeat (rewrite lookup_insert; case_decide; subst; simpl; try done);
    try tauto.
  rewrite lookup_singleton. by case_decide.
Qed.

Lemma chain_consistent : consistently_registered chain.
Proof.
  assert (attr_set chain 1 "extended_children" = {[3%positive]}) as E1
    by (vm_compute; reflexivity).
  assert (attr_set chain 3 "extended_children" = ∅) as E3
    by (vm_compute; reflexivity).
  assert (attr_set chain 4 "extended_children" = ∅) as E4
    by (vm_compute; reflexivity).
  assert (attr_set chain 1 "extended_parents" = ∅) as P1
    by (vm_compute; reflexivity).
  assert (attr_set chain 3 "extended_parents" = {[1%positive]}) as P3
    by (vm_compute; reflexivity).
  assert (attr_set chain 4 "extended_parents" = ∅) as P4
    by (vm_compute; reflexivity).
  intros p c Hp. split.
  - destruct (chain_stochastic p Hp) as [-> | [-> | ->]];
      rewrite ?E1, ?E3, ?E4; intros Hc; [|set_solver..].
    apply elem_of_singleton in Hc as ->. rewrite P3. split; [done|set_solver].
  - intros Hc Hin.
    destruct (chain_density_bearing c Hc) as [-> | [-> | ->]];
      rewrite ?P1, ?P3, ?P4 in Hin; [set_solver| |set_solver].
    apply elem_of_singleton in Hin as ->. rewrite E1. set_solver.
Qed.

Lemma markov_blanket_symmetric_witness :
  consistently_registered chain
  ∧ isinstance chain 1 StochasticBaseT = true
  ∧ isinstance chain 3 StochasticBaseT = true
  ∧ markov_blanket chain 1 = Ok {[1%positive; 3%positive]}
  ∧ markov_blanket chain 3 = Ok {[1%positive; 3%positive]}
  ∧ 1%positive ∈ ({[1%positive; 3%positive]} : gset ref)
  ∧ 3%positive ∈ ({[1%positive; 3%positive]} : gset ref).
Proof.
  split; [apply chain_consistent|].
  split; [reflexivity|]. split; [reflexivity|].
  assert (markov_blanket chain 1 = Ok {[1%positive; 3%positive]}) as M1
    by (vm_compute; reflexivity).
  assert (markov_blanket chain 3 = Ok {[1%positive; 3%positive]}) as M3
    by (vm_compute; reflexivity).
  assert (1%positive ∈ ({[1%positive; 3%positive]} : gset ref)) as I1
    by (apply elem_of_union; left; by apply elem_of_singleton).
  split; [exact M1|]. split; [exact M3|]. split; [exact I1|].
  exact (markov_blanket_symmetric chain 1 3 _ _ chain_consistent
           eq_refl eq_refl M1 M3 I1).
Defined.

(** ** Log-probability *)

Section LogpProperties.
Context {raw : Type} `{Builtins raw}.

Lemma above_sentinel (x : spec_float) :
  isnan x = false → float_le x d_neg_inf = false →
  is_finite x = true ∨ x = S754_infinity false.
Proof.
  destruct x as [s|[|]| |s m e]; simpl; intros Hn Hle; try done; auto.
Qed.

(** C3: [get_logp] of a Stochastic and of a Potential put the evaluator's
    result through the same checks in the same order: a result that [float]
    rejects is a [TypeError]; a NaN is a [ValueError]; a float at or below
    [d_neg_inf] is a [ZeroProbability] whose message names the node (and, for
    a Stochastic, its value) and its parents' values; every other float is
    returned, and it is finite or plus infinity. *)
Theorem get_logp_checks (this : logp_view raw) (r : raw) :
  _logp_get this = Ok r →
  (py_float r = None →
     Stochastic_get_logp this
     = Raise (TypeError (__name__ this ++ ": computed log-probability "
                         ++ py_str r ++ " cannot be cast to float"))
     ∧ Potential_get_logp this
       = Raise (TypeError (__name__ this ++ ": computed log-probability "
                           ++ py_str r ++ " cannot be cast to float")))
  ∧ (∀ x, py_float r = Some x → isnan x = true →
       Stochastic_get_logp this
       = Raise (ValueError (__name__ this
                            ++ ": computed log-probability is nan"))
       ∧ Potential_get_logp this
         = Raise (ValueError (__name__ this
                              ++ ": computed log-probability is nan")))
  ∧ (∀ x, py_float r = Some x → isnan x = false →
       float_le x d_neg_inf = true →
       Stochastic_get_logp this
       = Raise (ZeroProbability
           ("Stochastic " ++ __name__ this
            ++ "'s value is outside its support," ++ nl
            ++ " or it forbids its parents' current values." ++ nl
            ++ "Value: " ++ _value_str this ++ nl
            ++ "Parents' values:" ++ _parents_value_str this))
       ∧ Potential_get_logp this
         = Raise (ZeroProbability
             ("Potential " ++ __name__ this
              ++ " forbids its parents' current values: "
              ++ _parents_value_str this)))
  ∧ (∀ x, py_float r = Some x → isnan x = false →
       float_le x d_neg_inf = false →
       Stochastic_get_logp this = Ok x
       ∧ Potential_get_logp this = Ok x
       ∧ (is_finite x = true ∨ x = S754_infinity false)).
Proof.
  intros Hget. unfold Stochastic_get_logp, Potential_get_logp.
  rewrite Hget. cbv [mbind result_bind]. split_and!.
  - by intros ->.
  - by intros x -> ->.
  - by intros x -> -> ->.
  - intros x -> Hn Hle. rewrite Hn, Hle. split_and!; try done.
    by apply above_sentinel.
Qed.
End LogpProperties.

Lemma get_logp_checks_witness :
  _logp_get (mkLogpView "x" (Ok (S754_zero false)) "0.5" "{}")
  = Ok (S754_zero false)
  ∧ Stochastic_get_logp (H := float_builtins)
      (mkLogpView "x" (Ok (S754_zero false)) "0.5" "{}")
    = Ok (S754_zero false)
  ∧ Potential_get_logp (H := float_builtins)
      (mkLogpView "x" (Ok (S754_zero false)) "0.5" "{}")
    = Ok (S754_zero false).
Proof.
  split; [reflexivity|].
  pose proof (get_logp_checks (H := float_builtins)
                (mkLogpView "x" (Ok (S754_zero false)) "0.5" "{}")
                (S754_zero false) eq_refl) as (_ & _ & _ & Hok).
  destruct (Hok (S754_zero false) eq_refl eq_refl eq_refl) as (HS & HP & _).
  split; [exact HS | exact HP].
Defined.

(** A result of plus infinity passes every check of [get_logp] and is
    returned, although it is not finite. *)
Lemma get_logp_returns_infinity :
  Stochastic_get_logp (H := float_builtins)
    (mkLogpView "x" (Ok (S754_infinity false)) "0.5" "{}")
  = Ok (S754_infinity false)
  ∧ Potential_get_logp (H := float_builtins)
      (mkLogpView "x" (Ok (S754_infinity false)) "0.5" "{}")
    = Ok (S754_infinity false)
  ∧ is_finite (S754_infinity false) = false.
Proof. repeat split. Qed.

(** The sentinel and its neighbours. *)
Example sentinel_is_rejected :
  Potential_get_logp (H := float_builtins)
    (mkLogpView "psi" (Ok d_neg_inf) "" "{}")
  = Raise (ZeroProbability "Potential psi forbids its parents' current values: {}").
Proof. reflexivity. Qed.

(** ** The value of a Stochastic *)

Section ValueProperties.
Context {elem dty : Type} `{Numpy elem dty}.
Implicit Types (st : vstate elem dty) (d : list elem) (m : list nat).

Lemma take_entries_lookup d m vals :
  take_entries d m = Ok vals →
  length vals = length m ∧ ∀ i, i ∈ m → (i < length d)%nat.
Proof.
  revert vals. induction m as [|j m IH]; intros vals Ht; simpl in Ht.
  - injection Ht as <-. split; [done|]. intros i Hi. by apply elem_of_nil in Hi.
  - destruct (d !! j) as [x|] eqn:Hj; [|done].
    cbv [mbind result_bind] in Ht.
    destruct (take_entries d m) as [xs|]; [|done]. injection Ht as <-.
    destruct (IH xs eq_refl) as [Hl Hb]. split; [simpl; by rewrite Hl|].
    intros i [->|Hi]%elem_of_cons; [by eapply lookup_lt_Some | by apply Hb].
Qed.

Lemma put_entries_length d m vals :
  length (put_entries d m vals) = length d.
Proof.
  revert d vals. induction m as [|j m IH]; intros d [|x vals]; simpl; try done.
  by rewrite IH, length_insert.
Qed.

Lemma put_entries_lookup d' m : ∀ d vals,
  take_entries d' m = Ok vals →
  (∀ i, i ∈ m → (i < length d)%nat) →
  ∀ i, (i ∈ m → put_entries d m vals !! i = d' !! i)
       ∧ (i ∉ m → put_entries d m vals !! i = d !! i).
Proof.
  induction m as [|j m IH]; intros d vals Ht Hb i; simpl in Ht.
  - injection Ht as <-. split; [|done]. intros Hi. by apply elem_of_nil in Hi.
  - destruct (d' !! j) as [x|] eqn:Hj; [|done].
    cbv [mbind result_bind] in Ht.
    destruct (take_entries d' m) as [xs|] eqn:Hxs; [|done]. injection Ht as <-.
    simpl.
    assert (∀ i, i ∈ m → (i < length (<[j:=x]> d))%nat) as Hb'.
    { intros k Hk. rewrite length_insert. apply Hb. by right. }
    destruct (IH (<[j:=x]> d) xs eq_refl Hb' i) as [Hin Hout]. split.
    + intros Hi. destruct (decide (i ∈ m)) as [Him|Him]; [by apply Hin|].
      apply elem_of_cons in Hi as [->|Hi]; [|done].
      rewrite Hout by done. rewrite Hj. apply list_lookup_insert_eq.
      apply Hb. by left.
    + intros Hi. apply not_elem_of_cons in Hi as [Hij Him].
      rewrite Hout by done. by apply list_lookup_insert_ne.
Qed.

Lemma fresh_is_new (σ : gmap ref (pyval elem dty)) (r : ref) :
  is_Some (σ !! r) → fresh (dom σ) ≠ r.
Proof.
  intros Hr E. apply (is_fresh (dom σ)). rewrite E. by apply elem_of_dom.
Qed.

(** C8: with [isdata] unset, a write that succeeds leaves in [last_value] the
    very object that was the value, and [revert] then makes that object the
    value again without touching any payload; the object itself is as it was
    before the write (unless it was itself the object written). *)
Theorem write_then_revert st (value : ref) st' :
  isdata (this st) = false →
  set_value value st = (Ok tt, st') →
  last_value (this st') = Some (_value (this st))
  ∧ ∃ st'', revert st' = (Ok tt, st'')
      ∧ _value (this st'') = _value (this st)
      ∧ store st'' = store st'
      ∧ (value ≠ _value (this st) →
         is_Some (store st !! _value (this st)) →
         store st'' !! _value (this st) = store st !! _value (this st)).
Proof.
  intros Hdata Hrun. unfold_method in Hrun. rewrite Hdata in Hrun.
  repeat case_match; simplify_eq/=;
    (split; [done|]); unfold_method; simpl;
    (eexists; split; [done|]); simpl; (split; [done|]); (split; [done|]);
    intros Hv Hold; rewrite ?lookup_insert_ne; try done;
    apply fresh_is_new; by rewrite ?lookup_insert_ne.
Qed.
(** C7: with [isdata] set and no missing indices a write raises and changes
    nothing; with missing indices, a write that succeeds stores an array that
    has the entries of the written array at the missing indices and the
    entries of the old value everywhere else (the old value being of the
    declared dtype, as every stored value is). *)
Theorem data_write st (value : ref) :
  isdata (this st) = true →
  (truthy (_missing (this st)) = false →
     set_value value st
     = (Raise (AttributeError "value cannot be updated if isdata flag is set"),
        st))
  ∧ (∀ m st', _missing (this st) = Some m → m ≠ [] →
       (∀ dt old, dtype (this st) = Some dt →
          store st !! _value (this st) = Some (NdArray old) →
          dt = adtype old ∨ dtype_matches dt (adtype old) = true) →
       set_value value st = (Ok tt, st') →
       ∃ old new res,
         store st !! _value (this st) = Some (NdArray old)
         ∧ store st !! value = Some (NdArray new)
         ∧ store st' !! _value (this st') = Some (NdArray res)
         ∧ length (data res) = length (data old)
         ∧ (∀ i, i ∈ m → data res !! i = data new !! i)
         ∧ (∀ i, i ∉ m → data res !! i = data old !! i)).
Proof.
  intros Hdata. split.
  - intros Hm. unfold_method. rewrite Hdata, Hm. by destruct st.
  - intros m st' Hm Hne Hdt Hrun.
    assert (truthy (Some m) = true) as Ht by (by destruct m).
    unfold_method in Hrun. rewrite Hdata, Hm, Ht in Hrun. simpl in Hrun.
    destruct (store st !! value) as [[new|]|] eqn:Hnew; try done.
    simpl in Hrun.
    destruct (take_entries (data new) m) as [vals|] eqn:Hvals; [|done].
    destruct (store st !! _value (this st)) as [[old|]|] eqn:Hold; try done.
    unfold array_setitem in Hrun. simpl in Hrun.
    destruct (forallb _ m) eqn:Hall; [|done].
    destruct (decide (length m = length vals)) as [Hlen|]; [|done].
    simpl in Hrun. rewrite lookup_insert_eq in Hrun.
    assert (∀ i, i ∈ m → (i < length (data old))%nat) as Hb.
    { intros i Hi. rewrite forallb_forall in Hall.
      apply Nat.ltb_lt, Hall, list_elem_of_In, Hi. }
    pose proof (put_entries_lookup _ _ (data old) _ Hvals Hb) as Hput.
    pose proof (put_entries_length (data old) m vals) as Hlen'.
    exists old, new.
    assert (∀ dt, dtype (this st) = Some dt →
              dt = adtype old ∨ dtype_matches dt (adtype old) = true) as Hdt'
      by (intros; by apply Hdt).
    simpl in Hrun.
    destruct (dtype (this st)) as [dt|] eqn:Hd.
    + destruct (decide (dt = adtype old)) as [->|Hnd].
      * simpl in Hrun. injection Hrun as <-. simpl. rewrite lookup_insert_eq.
        eexists. split_and!; try done; simpl; intros i; by apply Hput.
      * destruct (Hdt' dt eq_refl) as [?|Hmatch]; [done|].
        simpl in Hrun. rewrite asarray_same in Hrun by done.
        injection Hrun as <-. simpl. rewrite lookup_insert_eq.
        eexists. split_and!; try done; simpl; intros i; by apply Hput.
    + injection Hrun as <-. simpl. rewrite lookup_insert_eq.
      eexists. split_and!; try done; simpl; intros i; by apply Hput.
Qed.

(** C10: while [last_value] does not exist, [revert] and a read of
    [last_value] raise [AttributeError] and change nothing; a write that
    [set_value] rejects in its [isdata] part leaves it non-existent, and a
    write that succeeds creates it. *)
Theorem last_value_created_by_write st (value : ref) :
  last_value (this st) = None →
  revert st = (Raise (AttributeError "last_value"), st)
  ∧ get_last_value st = (Raise (AttributeError "last_value"), st)
  ∧ (∀ e st', set_value_data (this st) value st = (Raise e, st') →
       set_value value st = (Raise e, st')
       ∧ last_value (this st') = None)
  ∧ (∀ st', set_value value st = (Ok tt, st') →
       last_value (this st') = Some (_value (this st))).
Proof.
  intros Hlast. split_and!.
  - unfold_method. by rewrite Hlast.
  - unfold_method. by rewrite Hlast.
  - intros e st' Hrun. unfold set_value. cbv [mbind ST_bind get_this].
    rewrite Hrun. split; [done|]. unfold_method in Hrun.
    repeat case_match; simplify_eq/=; done.
  - intros st' Hrun. unfold_method in Hrun.
    repeat case_match; simplify_eq/=; done.
Qed.
End ValueProperties.

Lemma write_then_revert_witness :
  isdata (this unobserved) = false
  ∧ set_value 13 unobserved = (Ok tt, (set_value 13 unobserved).2)
  ∧ last_value (this (set_value 13 unobserved).2) = Some 12%positive
  ∧ ∃ st'', revert (set_value 13 unobserved).2 = (Ok tt, st'')
      ∧ _value (this st'') = 12%positive
      ∧ store st'' = store (set_value 13 unobserved).2
      ∧ (13%positive ≠ 12%positive →
         is_Some (store unobserved !! 12%positive) →
         store st'' !! 12%positive = store unobserved !! 12%positive).
Proof.
  assert (set_value 13 unobserved = (Ok tt, (set_value 13 unobserved).2))
    as Hrun by (vm_compute; reflexivity).
  split; [reflexivity|]. split; [exact Hrun|].
  exact (write_then_revert unobserved 13 _ eq_refl Hrun).
Defined.

Lemma observed_stored_dtype (dt : sample_dtype)
    (old : ndarray entry sample_dtype) :
  dtype (this partly_observed) = Some dt →
  store partly_observed !! _value (this partly_observed) = Some (NdArray old) →
  dt = adtype old ∨ dtype_matches dt (adtype old) = true.
Proof.
  intros [= <-] Hold. vm_compute in Hold. injection Hold as <-. by right.
Qed.

Lemma data_write_witness :
  isdata (this observed) = true
  ∧ truthy (_missing (this observed)) = false
  ∧ set_value 11 observed
    = (Raise (AttributeError "value cannot be updated if isdata flag is set"),
       observed)
  ∧ isdata (this partly_observed) = true
  ∧ set_value 11 partly_observed
    = (Ok tt, (set_value 11 partly_observed).2)
  ∧ ∃ old new res,
      store partly_observed !! _value (this partly_observed)
      = Some (NdArray old)
      ∧ store partly_observed !! 11%positive = Some (NdArray new)
      ∧ store (set_value 11 partly_observed).2
          !! _value (this (set_value 11 partly_observed).2)
        = Some (NdArray res)
      ∧ length (data res) = length (data old)
      ∧ (∀ i, i ∈ [2] → data res !! i = data new !! i)
      ∧ (∀ i, i ∉ [2] → data res !! i = data old !! i).
Proof.
  assert (set_value 11 partly_observed
          = (Ok tt, (set_value 11 partly_observed).2)) as Hrun
    by (vm_compute; reflexivity).
  split; [reflexivity|]. split; [reflexivity|].
  split; [exact (proj1 (data_write observed 11 eq_refl) eq_refl)|].
  split; [reflexivity|]. split; [exact Hrun|].
  refine (proj2 (data_write partly_observed 11 eq_refl) [2] _ eq_refl _
            observed_stored_dtype Hrun).
  discriminate.
Defined.

Example partial_write_result :
  (λ st, store st !! _value (this st)) (set_value 11 partly_observed).2
  = Some (NdArray (mkArray [an_int 1; an_int 2; an_int 9] false np_int64)).
Proof. vm_compute. reflexivity. Qed.

Lemma last_value_created_by_write_witness :
  last_value (this unobserved) = None
  ∧ revert unobserved = (Raise (AttributeError "last_value"), unobserved)
  ∧ get_last_value unobserved
    = (Raise (AttributeError "last_value"), unobserved)
  ∧ last_value (this (set_value 13 unobserved).2) = Some 12%positive.
Proof.
  pose proof (last_value_created_by_write unobserved 13 eq_refl)
    as (Hrev & Hget & _ & Hok).
  split; [reflexivity|]. split; [exact Hrev|]. split; [exact Hget|].
  apply Hok. vm_compute. reflexivity.
Defined.

(** A write of ['abc'] to a Stochastic of dtype [int] fails in the coercion,
    after [last_value] was assigned: no write has succeeded, [last_value]
    exists and [revert] returns. *)
Lemma failed_write_creates_last_value :
  last_value (this unobserved) = None
  ∧ (set_value 14 unobserved).1
    = Raise (ValueError "invalid literal for int()")
  ∧ last_value (this (set_value 14 unobserved).2) = Some 12%positive
  ∧ (revert (set_value 14 unobserved).2).1 = Ok tt.
Proof. split_and!; vm_compute; reflexivity. Qed.

(** * Further properties *)

(** ** The closure functions on their own *)

Section Closures.
Variable h : heap.

Lemma for_in_extend_parents_plain (l : list ref) (acc : gset ref) :
  (∀ p, p ∈ l → is_hashable h p = true
               ∧ isinstance h p DeterministicBaseT = false
               ∧ isinstance h p ContainerBaseT = false) →
  for_in l (extend_parents_body h) acc = Ok (acc ∪ list_to_set l).
Proof.
  revert acc. induction l as [|p l IH]; intros acc Hl; simpl.
  - by rewrite (right_id_L ∅ (∪)).
  - destruct (Hl p) as (Hh & Hd & Hc); [left|].
    assert (extend_parents_body h p acc = Ok (acc ∪ {[p]})) as ->.
    { unfold extend_parents_body, set_add. rewrite Hh. unbind.
      by rewrite Hd, Hc. }
    unbind. rewrite IH by (intros; apply Hl; by right).
    by rewrite (assoc_L (∪)).
Qed.

(** X1: on parents that are all plain density-bearing objects (hashable,
    neither Deterministic nor container) [extend_parents] returns exactly
    the set of those parents. *)
Theorem extend_parents_of_reduced (parents : list ref) :
  (∀ p, p ∈ parents → is_hashable h p = true
                     ∧ isinstance h p DeterministicBaseT = false
                     ∧ isinstance h p ContainerBaseT = false) →
  extend_parents h parents = Ok (list_to_set parents).
Proof.
  intros Hl. unfold extend_parents. rewrite for_in_extend_parents_plain by done.
  by rewrite (left_id_L ∅ (∪)).
Qed.

Lemma extend_parents_body_variables (p : ref) (acc r : gset ref) :
  isinstance h p ContainerBaseT = false →
  extend_parents_body h p acc = Ok r →
  r = if isinstance h p DeterministicBaseT
      then (acc ∖ {[p]}) ∪ attr_set h p "extended_parents"
      else acc ∪ {[p]}.
Proof.
  intros Hc. unfold extend_parents_body, set_add, attr_set. unbind.
  destruct (is_hashable h p); [|done]. rewrite Hc.
  destruct (isinstance h p DeterministicBaseT).
  - destruct (getattr h p "extended_parents"); [|done].
    intros [= <-]. set_solver.
  - by intros [= <-].
Qed.

Lemma for_in_extend_parents_variables (l : list ref) : ∀ (acc r : gset ref),
  (∀ p, p ∈ l → isinstance h p ContainerBaseT = false) →
  (∀ d x, d ∈ l → isinstance h d DeterministicBaseT = true →
          x ∈ attr_set h d "extended_parents" →
          isinstance h x DeterministicBaseT = false) →
  (∀ x, x ∈ acc → isinstance h x DeterministicBaseT = false) →
  for_in l (extend_parents_body h) acc = Ok r →
  ∀ x, x ∈ r ↔
    x ∈ acc
    ∨ (x ∈ l ∧ isinstance h x DeterministicBaseT = false)
    ∨ ∃ d, d ∈ l ∧ isinstance h d DeterministicBaseT = true
           ∧ x ∈ attr_set h d "extended_parents".
Proof.
  induction l as [|p l IH]; intros acc r Hc Hep Hacc Hrun x; simpl in Hrun.
  - injection Hrun as <-. split; [by left|].
    intros [?|[[Hx _]|(d & Hd & _)]]; [done| |];
      [by apply elem_of_nil in Hx | by apply elem_of_nil in Hd].
  - unbind in Hrun.
    destruct (extend_parents_body h p acc) as [acc'|] eqn:Hbody; [|done].
    apply extend_parents_body_variables in Hbody; [|apply Hc; by left].
    assert (∀ y, y ∈ acc' → isinstance h y DeterministicBaseT = false) as Hacc'.
    { intros y. rewrite Hbody.
      destruct (isinstance h p DeterministicBaseT) eqn:Hp.
      - intros [[Hy _]%elem_of_difference|Hy]%elem_of_union; [by apply Hacc|].
        apply (Hep p y); [by left | done | done].
      - intros [Hy| ->%elem_of_singleton]%elem_of_union; [by apply Hacc|done]. }
    rewrite (IH acc' r); try done.
    2:{ intros; apply Hc; by right. }
    2:{ intros d y Hd. apply Hep. by right. }
    rewrite Hbody. destruct (isinstance h p DeterministicBaseT) eqn:Hp.
    + rewrite elem_of_union, elem_of_difference, elem_of_singleton. split.
      * intros [[[Hx _]|Hx]|[[Hx Hd]|(d & Hd & Hdd & Hx)]].
        -- by left.
        -- right; right. exists p. split; [left|done].
        -- right; left. split; [by right|done].
        -- right; right. exists d. split; [by right|done].
      * intros [Hx|[[Hx Hd]|(d & Hd & Hdd & Hx)]].
        -- left; left. split; [done|]. intros ->.
           specialize (Hacc _ Hx). congruence.
        -- apply elem_of_cons in Hx as [->|Hx]; [congruence|].
           right; left. done.
        -- apply elem_of_cons in Hd as [->|Hd]; [by left; right|].
           right; right. by exists d.
    + rewrite elem_of_union, elem_of_singleton. split.
      * intros [[Hx| ->]|[[Hx Hd]|(d & Hd & Hdd & Hx)]].
        -- by left.
        -- right; left. split; [left|done].
        -- right; left. split; [by right|done].
        -- right; right. exists d. split; [by right|done].
      * intros [Hx|[[Hx Hd]|(d & Hd & Hdd & Hx)]].
        -- by left; left.
        -- apply elem_of_cons in Hx as [->|Hx]; [by left; right|].
           right; left. done.
        -- apply elem_of_cons in Hd as [->|Hd]; [congruence|].
           right; right. by exists d.
Qed.

(** X2: on parents without containers, where the extended parents of every
    Deterministic parent hold no Deterministic, the result of
    [extend_parents] is made of the parents that are not Deterministic and
    of the extended parents of those that are; it holds no Deterministic. *)
Theorem extend_parents_collapses (parents : list ref) (r : gset ref) :
  (∀ p, p ∈ parents → isinstance h p ContainerBaseT = false) →
  (∀ d x, d ∈ parents → isinstance h d DeterministicBaseT = true →
          x ∈ attr_set h d "extended_parents" →
          isinstance h x DeterministicBaseT = false) →
  extend_parents h parents = Ok r →
  (∀ x, x ∈ r ↔
     (x ∈ parents ∧ isinstance h x DeterministicBaseT = false)
     ∨ ∃ d, d ∈ parents ∧ isinstance h d DeterministicBaseT = true
            ∧ x ∈ attr_set h d "extended_parents")
  ∧ ∀ x, x ∈ r → isinstance h x DeterministicBaseT = false.
Proof.
  intros Hc Hep Hrun.
  assert (∀ x, x ∈ r ↔
     (x ∈ parents ∧ isinstance h x DeterministicBaseT = false)
     ∨ ∃ d, d ∈ parents ∧ isinstance h d DeterministicBaseT = true
            ∧ x ∈ attr_set h d "extended_parents") as Hmem.
  { intros x.
    rewrite (for_in_extend_parents_variables parents ∅ r Hc Hep); [|set_solver|done].
    set_solver. }
  split; [done|]. intros x [[_ Hx]|(d & Hd & Hdd & Hx)]%Hmem; [done|].
  by apply (Hep d x).
Qed.
End Closures.

Lemma extend_parents_of_reduced_witness :
  (∀ p, p ∈ [1%positive; 3%positive; 4%positive] →
        is_hashable chain p = true
        ∧ isinstance chain p DeterministicBaseT = false
        ∧ isinstance chain p ContainerBaseT = false)
  ∧ extend_parents chain [1%positive; 3%positive; 4%positive]
    = Ok (list_to_set [1%positive; 3%positive; 4%positive]).
Proof.
  assert (∀ p, p ∈ [1%positive; 3%positive; 4%positive] →
            is_hashable chain p = true
            ∧ isinstance chain p DeterministicBaseT = false
            ∧ isinstance chain p ContainerBaseT = false) as Hl.
  { intros p Hp. repeat (apply elem_of_cons in Hp as [->|Hp]);
      [by vm_compute..|by apply elem_of_nil in Hp]. }
  split; [exact Hl|]. exact (extend_parents_of_reduced chain _ Hl).
Defined.

Lemma extend_parents_collapses_witness :
  extend_parents chain [1%positive; 2%positive] = Ok {[1%positive]}
  ∧ (∀ x, x ∈ ({[1%positive]} : gset ref) ↔
       (x ∈ [1%positive; 2%positive]
        ∧ isinstance chain x DeterministicBaseT = false)
       ∨ ∃ d, d ∈ [1%positive; 2%positive]
              ∧ isinstance chain d DeterministicBaseT = true
              ∧ x ∈ attr_set chain d "extended_parents")
  ∧ ∀ x, x ∈ ({[1%positive]} : gset ref) →
         isinstance chain x DeterministicBaseT = false.
Proof.
  assert (extend_parents chain [1%positive; 2%positive] = Ok {[1%positive]})
    as Hrun by (vm_compute; reflexivity).
  split; [exact Hrun|].
  apply (extend_parents_collapses chain [1%positive; 2%positive]); [| |exact Hrun].
  - intros p Hp. repeat (apply elem_of_cons in Hp as [->|Hp]);
      [by vm_compute..|by apply elem_of_nil in Hp].
  - intros d x Hd Hdd Hx. repeat (apply elem_of_cons in Hd as [->|Hd]);
      [by vm_compute in Hdd| |by apply elem_of_nil in Hd].
    assert (attr_set chain 2 "extended_parents" = {[1%positive]}) as E
      by (vm_compute; reflexivity).
    rewrite E in Hx. apply elem_of_singleton in Hx as ->. by vm_compute.
Defined.

Section ExtendChildrenMore.
Variable h : heap.

(** A round of the loop that returns has found a [children] set on every
    Deterministic it met. *)
Lemma for_in_extend_children_ok (l : list ref) : ∀ acc acc',
  for_in l (extend_children_body h) acc = Ok acc' →
  ∀ x, x ∈ l → isinstance h x DeterministicT = true →
       ∃ s, getattr h x "children" = Ok s.
Proof.
  induction l as [|y l IH]; intros acc acc' Hrun x Hx Hd.
  - by apply elem_of_nil in Hx.
  - simpl in Hrun. unbind in Hrun.
    destruct (extend_children_body h y acc) as [acc1|] eqn:Hbody; [|done].
    apply elem_of_cons in Hx as [->|Hx]; [|by eapply IH].
    unfold extend_children_body in Hbody. destruct acc as [[a b] d].
    rewrite Hd in Hbody. unbind in Hbody.
    destruct (getattr h y "children") as [s|]; [by eexists|done].
Qed.

(** What one call does, when every Deterministic member of the set has a
    [children] set. *)
Lemma extend_children_step (fuel : nat) (s : gset ref) :
  (∀ x, x ∈ s → isinstance h x DeterministicT = true →
        ∃ c, getattr h x "children" = Ok c) →
  extend_children (S fuel) h s
  = if decide (deterministic_members h s = ∅) then Some (Ok s)
    else extend_children fuel h (replace_deterministics h s).
Proof.
  intros Hc. simpl.
  assert (∀ x, x ∈ elements s → isinstance h x DeterministicT = true →
               ∃ c, getattr h x "children" = Ok c) as Hok
    by (intros x Hx%elem_of_elements; by apply Hc).
  rewrite (for_in_extend_children h (elements s) Hok).
  rewrite (left_id_L ∅ (∪)).
  assert (list_to_set (filter (λ x, isinstance h x DeterministicT = true)
                         (elements s)) = deterministic_members h s) as ->.
  { apply set_eq. intros x. unfold deterministic_members.
    rewrite elem_of_list_to_set, list_elem_of_filter, elem_of_filter,
      elem_of_elements. done. }
  rewrite round_is_replace. simpl.
  destruct (existsb _ (elements s)) eqn:Hex.
  - apply existsb_exists in Hex as (x & Hx & Hd).
    apply list_elem_of_In, elem_of_elements in Hx.
    assert (x ∈ deterministic_members h s) by by apply elem_of_filter.
    rewrite decide_False by set_solver. done.
  - pose proof (no_deterministic_member h s Hex) as He.
    rewrite decide_True by done. by rewrite replace_no_deterministics.
Qed.

(** X3: a seed without Deterministic members is returned as it is, by the
    first call. *)
Theorem extend_children_of_reduced (fuel : nat) (s : gset ref) :
  (∀ x, x ∈ s → isinstance h x DeterministicT = false) →
  extend_children (S fuel) h s = Some (Ok s).
Proof.
  intros Hs. rewrite extend_children_step.
  - rewrite decide_True; [done|]. apply set_eq. intros x.
    split; [|set_solver]. intros [Hd Hx]%elem_of_filter.
    rewrite (Hs x Hx) in Hd. done.
  - intros x Hx Hd. rewrite (Hs x Hx) in Hd. done.
Qed.

(** X4: where every round of the replacement leaves a Deterministic member,
    as on a cycle of Deterministic nodes, [extend_children] does not return,
    whatever the bound on the recursion. *)
Theorem extend_children_diverges (s : gset ref) :
  deterministics_have_children h →
  (∀ k, deterministic_members h (Nat.iter k (replace_deterministics h) s) ≠ ∅) →
  ∀ fuel, extend_children fuel h s = None.
Proof.
  intros Hc Hk fuel. revert s Hk. induction fuel as [|fuel IH]; intros s Hk.
  - done.
  - rewrite extend_children_step by (intros; by apply Hc).
    rewrite decide_False by apply (Hk 0).
    apply IH. intros k. specialize (Hk (S k)).
    by rewrite Nat.iter_succ_r in Hk.
Qed.

(** X5: whatever the graph, a set that [extend_children] returns holds no
    Deterministic, holds every member of the seed that is not a
    Deterministic, and holds beyond the seed only children of Deterministic
    nodes. *)
Theorem extend_children_result (fuel : nat) (s r : gset ref) :
  extend_children fuel h s = Some (Ok r) →
  (∀ x, x ∈ r → isinstance h x DeterministicT = false)
  ∧ (∀ x, x ∈ s → isinstance h x DeterministicT = false → x ∈ r)
  ∧ (∀ x, x ∈ r → x ∈ s ∨ ∃ d, isinstance h d DeterministicT = true
                                ∧ x ∈ attr_set h d "children").
Proof.
  revert s. induction fuel as [|fuel IH]; intros s Hrun; [done|].
  assert (∀ x, x ∈ s → isinstance h x DeterministicT = true →
               ∃ c, getattr h x "children" = Ok c) as Hc.
  { simpl in Hrun.
    destruct (for_in (elements s) (extend_children_body h) (s, false, ∅))
      as [acc|] eqn:Hloop; [|done].
    intros x Hx. apply (for_in_extend_children_ok _ _ _ Hloop).
    by apply elem_of_elements. }
  rewrite extend_children_step in Hrun by done.
  destruct (decide (deterministic_members h s = ∅)) as [He|Hne].
  - injection Hrun as <-. split_and!.
    + intros x Hx. destruct (isinstance h x DeterministicT) eqn:Hd; [|done].
      assert (x ∈ deterministic_members h s) by by apply elem_of_filter.
      set_solver.
    + done.
    + intros x Hx. by left.
  - destruct (IH _ Hrun) as (Hno & Hkeep & Hfrom). split_and!; [done| |].
    + intros x Hx Hd. apply Hkeep; [|done]. unfold replace_deterministics.
      apply elem_of_difference. split; [set_solver|].
      intros [Hd' _]%elem_of_filter. congruence.
    + intros x Hx. destruct (Hfrom x Hx) as [Hin|?]; [|by right].
      unfold replace_deterministics in Hin.
      apply elem_of_difference in Hin as [[?|Hin]%elem_of_union _]; [by left|].
      right. apply elem_of_union_list in Hin as (X & HX & Hin).
      apply list_elem_of_fmap in HX as (d & -> & Hd).
      apply elem_of_elements, elem_of_filter in Hd as [Hd _]. by exists d.
Qed.
End ExtendChildrenMore.

Lemma extend_children_of_reduced_witness :
  (∀ x, x ∈ ({[3%positive; 4%positive]} : gset ref) →
        isinstance chain x DeterministicT = false)
  ∧ extend_children 1 chain {[3%positive; 4%positive]}
    = Some (Ok {[3%positive; 4%positive]}).
Proof.
  assert (∀ x, x ∈ ({[3%positive; 4%positive]} : gset ref) →
               isinstance chain x DeterministicT = false) as Hs.
  { intros x [->%elem_of_singleton| ->%elem_of_singleton]%elem_of_union;
      reflexivity. }
  split; [exact Hs|]. exact (extend_children_of_reduced chain 0 _ Hs).
Defined.

Lemma cycle_has_children : deterministics_have_children cycle.
Proof.
  intros d. unfold isinstance, getattr, cycle.
  rewrite lookup_insert. case_decide; subst; simpl; [by eexists|].
  rewrite lookup_singleton. case_decide; subst; simpl; [by eexists|done].
Qed.

Lemma cycle_round (k : nat) :
  Nat.iter k (replace_deterministics cycle) {[1%positive]}
  = if Nat.even k then {[1%positive]} else {[2%positive]}.
Proof.
  induction k as [|k IH]; [done|].
  rewrite Nat.iter_succ, IH, Nat.even_succ, <- Nat.negb_even.
  destruct (Nat.even k); simpl; vm_compute; reflexivity.
Qed.

Lemma cycle_never_reduced (k : nat) :
  deterministic_members cycle
    (Nat.iter k (replace_deterministics cycle) {[1%positive]}) ≠ ∅.
Proof.
  rewrite cycle_round. destruct (Nat.even k); intros E.
  - assert (1%positive ∈ deterministic_members cycle {[1%positive]}) as Hin
      by (apply elem_of_filter; split; [reflexivity|set_solver]).
    rewrite E in Hin. set_solver.
  - assert (2%positive ∈ deterministic_members cycle {[2%positive]}) as Hin
      by (apply elem_of_filter; split; [reflexivity|set_solver]).
    rewrite E in Hin. set_solver.
Qed.

Lemma extend_children_diverges_witness :
  deterministics_have_children cycle
  ∧ (∀ k, deterministic_members cycle
            (Nat.iter k (replace_deterministics cycle) {[1%positive]}) ≠ ∅)
  ∧ ∀ fuel, extend_children fuel cycle {[1%positive]} = None.
Proof.
  split; [exact cycle_has_children|]. split; [exact cycle_never_reduced|].
  exact (extend_children_diverges cycle _ cycle_has_children
           cycle_never_reduced).
Defined.

Lemma extend_children_result_witness :
  extend_children 2 chain {[2%positive]} = Some (Ok {[3%positive]})
  ∧ (∀ x, x ∈ ({[3%positive]} : gset ref) →
          isinstance chain x DeterministicT = false)
  ∧ (∀ x, x ∈ ({[2%positive]} : gset ref) →
          isinstance chain x DeterministicT = false →
          x ∈ ({[3%positive]} : gset ref))
  ∧ (∀ x, x ∈ ({[3%positive]} : gset ref) →
          x ∈ ({[2%positive]} : gset ref)
          ∨ ∃ d, isinstance chain d DeterministicT = true
                 ∧ x ∈ attr_set chain d "children").
Proof.
  assert (extend_children 2 chain {[2%positive]} = Some (Ok {[3%positive]}))
    as Hrun by (vm_compute; reflexivity).
  split; [exact Hrun|]. exact (extend_children_result chain 2 _ _ Hrun).
Defined.

(** ** The Markov-blanket views on their own *)

Section MarkovMore.
Variable h : heap.

Lemma coparents_members (b : ref) (cp : gset ref) :
  coparents h b = Ok cp →
  is_hashable h b = true
  ∧ ∀ x, x ∈ cp ↔
      x = b ∨ ∃ c, c ∈ attr_set h b "extended_children"
                   ∧ x ∈ attr_set h c "extended_parents".
Proof.
  unfold coparents, set_add, attr_set. intros Hrun. unbind in Hrun.
  destruct (getattr h b "extended_children") as [ec|] eqn:Hec; [|done].
  destruct (for_in (elements ec) (coparents_body h) ∅) as [cp'|] eqn:Hcp;
    [|done].
  destruct (is_hashable h b); [|done]. injection Hrun as <-.
  split; [done|]. intros x.
  rewrite elem_of_union, elem_of_singleton, (for_in_coparents _ _ _ _ Hcp).
  setoid_rewrite elem_of_elements. set_solver.
Qed.

(** X6: the coparents of a Stochastic are itself and the extended parents of
    its extended children; in a consistently registered graph, being a
    coparent is symmetric between two Stochastic nodes. *)
Theorem coparents_symmetric (a b : ref) (ca cb : gset ref) :
  consistently_registered h →
  isinstance h a StochasticBaseT = true →
  isinstance h b StochasticBaseT = true →
  coparents h a = Ok ca →
  coparents h b = Ok cb →
  (∀ x, x ∈ cb ↔
     x = b ∨ ∃ c, c ∈ attr_set h b "extended_children"
                  ∧ x ∈ attr_set h c "extended_parents")
  ∧ (a ∈ cb → b ∈ ca).
Proof.
  intros Hcons Ha Hb Hca Hcb.
  destruct (coparents_members _ _ Hca) as [_ Hma].
  destruct (coparents_members _ _ Hcb) as [_ Hmb].
  split; [done|]. intros [->|(c & Hc & Hac)]%Hmb; apply Hma; [by left|].
  right. exists c. destruct (proj1 (Hcons b c Hb) Hc) as [Hd Hbc].
  split; [|done]. by apply (Hcons a c Ha).
Qed.

(** X7: a Stochastic is a member of its own [moral_neighbors], so that its
    [markov_blanket] is the same set. *)
Theorem markov_blanket_is_moral_neighbors (x : ref) (mn : gset ref) :
  isinstance h x PotentialBaseT = false →
  moral_neighbors h x = Ok mn →
  x ∈ mn ∧ markov_blanket h x = Ok mn.
Proof.
  intros Hp Hmn.
  assert (x ∈ mn ∧ is_hashable h x = true) as [Hin Hh].
  { unfold moral_neighbors in Hmn. unbind in Hmn.
    destruct (coparents h x) as [cp|] eqn:Hcp; [|done].
    destruct (getattr h x "extended_parents") as [ep|]; [|done].
    destruct (getattr h x "extended_children") as [ec|]; [|done].
    injection Hmn as <-. destruct (coparents_members _ _ Hcp) as [Hh Hm].
    split; [|done]. apply foldl_drop_potential. split.
    - apply elem_of_union; left. apply elem_of_union; left. apply Hm.
      by left.
    - intros [_ ?]. congruence. }
  split; [done|]. unfold markov_blanket, set_add. rewrite Hmn, Hh. unbind.
  f_equal. set_solver.
Qed.

(** X8: no Potential is a member of the Markov blanket of a Stochastic. *)
Theorem markov_blanket_without_potentials (b : ref) (mb : gset ref) :
  isinstance h b StochasticBaseT = true →
  markov_blanket h b = Ok mb →
  ∀ x, x ∈ mb → isinstance h x PotentialBaseT = false.
Proof.
  intros Hb Hmb x Hx. apply (markov_blanket_members _ _ _ Hmb) in Hx.
  destruct Hx as [->|[Hp _]]; [|done].
  unfold isinstance in *. destruct (h !! b) as [o|]; [|done].
  by destruct (cls o).
Qed.
End MarkovMore.

Lemma collider_stochastic (p : ref) :
  isinstance collider p StochasticBaseT = true →
  p = 1%positive ∨ p = 2%positive ∨ p = 3%positive.
Proof.
  unfold isinstance, collider.
  repeat (rewrite lookup_insert; case_decide; subst; simpl; try done);
    try tauto.
  rewrite lookup_singleton. by case_decide.
Qed.

Lemma collider_density_bearing (c : ref) :
  density_bearing collider c = true →
  c = 1%positive ∨ c = 2%positive ∨ c = 3%positive ∨ c = 4%positive.
Proof.
  unfold density_bearing, isinstance, collider.
  repeat (rewrite lookup_insert; case_decide; subst; simpl; try done);
    try tauto.
  rewrite lookup_singleton. case_decide; subst; simpl; [tauto|done].
Qed.

Lemma collider_consistent : consistently_registered collider.
Proof.
  assert (attr_set collider 1 "extended_children"
          = {[3%positive; 4%positive]}) as E1 by (vm_compute; reflexivity).
  assert (attr_set collider 2 "extended_children" = {[3%positive]}) as E2
    by (vm_compute; reflexivity).
  assert (attr_set collider 3 "extended_children" = ∅) as E3
    by (vm_compute; reflexivity).
  assert (attr_set collider 1 "extended_parents" = ∅) as P1
    by (vm_compute; reflexivity).
  assert (attr_set collider 2 "extended_parents" = ∅) as P2
    by (vm_compute; reflexivity).
  assert (attr_set collider 3 "extended_parents"
          = {[1%positive; 2%positive]}) as P3 by (vm_compute; reflexivity).
  assert (attr_set collider 4 "extended_parents" = {[1%positive]}) as P4
    by (vm_compute; reflexivity).
  intros p c Hp. split.
  - destruct (collider_stochastic p Hp) as [-> | [-> | ->]];
      rewrite ?E1, ?E2, ?E3; intros Hc.
    + apply elem_of_union in Hc as [->%elem_of_singleton| ->%elem_of_singleton];
        rewrite ?P3, ?P4; (split; [reflexivity|set_solver]).
    + apply elem_of_singleton in Hc as ->. rewrite P3.
      split; [reflexivity|set_solver].
    + set_solver.
  - intros Hc Hin.
    destruct (collider_density_bearing c Hc) as [-> | [-> | [-> | ->]]];
      rewrite ?P1, ?P2, ?P3, ?P4 in Hin; [set_solver|set_solver| |].
    + apply elem_of_union in Hin as [->%elem_of_singleton| ->%elem_of_singleton];
        rewrite ?E1, ?E2; set_solver.
    + apply elem_of_singleton in Hin as ->. rewrite E1. set_solver.
Qed.

Lemma coparents_symmetric_witness :
  consistently_registered collider
  ∧ coparents collider 1 = Ok {[1%positive; 2%positive]}
  ∧ coparents collider 2 = Ok {[1%positive; 2%positive]}
  ∧ 1%positive ∈ ({[1%positive; 2%positive]} : gset ref)
  ∧ 2%positive ∈ ({[1%positive; 2%positive]} : gset ref).
Proof.
  assert (coparents collider 1 = Ok {[1%positive; 2%positive]}) as C1
    by (vm_compute; reflexivity).
  assert (coparents collider 2 = Ok {[1%positive; 2%positive]}) as C2
    by (vm_compute; reflexivity).
  assert (1%positive ∈ ({[1%positive; 2%positive]} : gset ref)) as I1
    by (apply elem_of_union; left; by apply elem_of_singleton).
  split; [exact collider_consistent|]. split; [exact C1|].
  split; [exact C2|]. split; [exact I1|].
  exact (proj2 (coparents_symmetric collider 1 2 _ _ collider_consistent
                  eq_refl eq_refl C1 C2) I1).
Defined.

Lemma markov_blanket_is_moral_neighbors_witness :
  isinstance collider 1 PotentialBaseT = false
  ∧ moral_neighbors collider 1 = Ok {[1%positive; 2%positive; 3%positive]}
  ∧ 1%positive ∈ ({[1%positive; 2%positive; 3%positive]} : gset ref)
  ∧ markov_blanket collider 1 = Ok {[1%positive; 2%positive; 3%positive]}.
Proof.
  assert (moral_neighbors collider 1
          = Ok {[1%positive; 2%positive; 3%positive]}) as Hmn
    by (vm_compute; reflexivity).
  split; [reflexivity|]. split; [exact Hmn|].
  exact (markov_blanket_is_moral_neighbors collider 1 _ eq_refl Hmn).
Defined.

Lemma markov_blanket_without_potentials_witness :
  isinstance collider 1 StochasticBaseT = true
  ∧ markov_blanket collider 1 = Ok {[1%positive; 2%positive; 3%positive]}
  ∧ 4%positive ∈ attr_set collider 1 "extended_children"
  ∧ ∀ x, x ∈ ({[1%positive; 2%positive; 3%positive]} : gset ref) →
         isinstance collider x PotentialBaseT = false.
Proof.
  assert (markov_blanket collider 1
          = Ok {[1%positive; 2%positive; 3%positive]}) as Hmb
    by (vm_compute; reflexivity).
  split; [reflexivity|]. split; [exact Hmb|].
  split; [by vm_compute|].
  exact (markov_blanket_without_potentials collider 1 _ eq_refl Hmb).
Defined.

(** ** Writes and reverts on their own *)

(** A bind that ran: its first part returned, or raised and ended it. *)
Lemma bind_inv {S A B : Type} (m : ST S A) (k : A → ST S B) (st st' : S)
    (res : result B) :
  (a ← m; k a) st = (res, st') →
  (∃ a st1, m st = (Ok a, st1) ∧ k a st1 = (res, st'))
  ∨ (∃ e, m st = (Raise e, st') ∧ res = Raise e).
Proof.
  cbv [mbind ST_bind]. destruct (m st) as [[a|e] st1].
  - intros Hk. left. by exists a, st1.
  - intros [= <- <-]. right. by exists e.
Qed.

Section ValueMore.
Context {elem dty : Type} `{Numpy elem dty}.
Implicit Types (st : vstate elem dty).

(** The [isdata] part of a write touches payloads only. *)
Lemma set_value_data_this (s : StochasticObj dty) (value : ref) st
    (res : result ref) st1 :
  set_value_data s value st = (res, st1) → this st1 = this st.
Proof.
  intros Hrun. unfold_method in Hrun. unfold array_setitem in Hrun.
  repeat case_match; simplify_eq/=; done.
Qed.

(** What a write does to the fields, whether it returns or raises. *)
Lemma set_value_fields st (value : ref) (res : result unit) st' :
  set_value value st = (res, st') →
  isdata (this st') = isdata (this st)
  ∧ _missing (this st') = _missing (this st)
  ∧ dtype (this st') = dtype (this st)
  ∧ match res with
    | Ok _ => last_value (this st') = Some (_value (this st))
    | Raise _ => _value (this st') = _value (this st)
    end.
Proof.
  unfold set_value. intros Hrun.
  apply bind_inv in Hrun as [(s & st0 & [= <- <-] & Hrun)|(e & [=] & _)].
  apply bind_inv in Hrun as [(r & st1 & Hdata & Hrun)|(e & Hdata & ->)].
  - apply set_value_data_this in Hdata. destruct st1 as [σ1 s1].
    simpl in Hdata. subst s1. unfold_method in Hrun. simpl in Hrun.
    repeat case_match; simplify_eq/=; done.
  - apply set_value_data_this in Hdata. by rewrite Hdata.
Qed.

(** X9: a write that raises never changes the value: [_value], [isdata],
    [_missing] and [dtype] are as before, whatever was raised and wherever. *)
Theorem set_value_failure_keeps_value st (value : ref) (e : exn) st' :
  set_value value st = (Raise e, st') →
  _value (this st') = _value (this st)
  ∧ isdata (this st') = isdata (this st)
  ∧ _missing (this st') = _missing (this st)
  ∧ dtype (this st') = dtype (this st).
Proof.
  intros (Hd & Hm & Ht & Hv)%set_value_fields. done.
Qed.

(** X10: with [isdata] unset and no coercion due (no declared dtype; for an
    array, a declared dtype that is the array's own; for another object, a
    dtype that is false or is [object]), a write stores the very object that
    was written and keeps the old one in [last_value]; an array is not
    copied but made read-only in place, and nothing else changes. *)
Theorem set_value_stores_object st (value : ref) (p : pyval elem dty) :
  isdata (this st) = false →
  store st !! value = Some p →
  match dtype (this st), p with
  | None, _ => True
  | Some dt, NdArray a => dt = adtype a
  | Some dt, Plain _ => dtype_truthy dt && negb (dtype_is_object dt) = false
  end →
  set_value value st
  = (Ok tt,
     mkVState
       match p with
       | NdArray a =>
           <[value := NdArray (mkArray (data a) false (adtype a))]> (store st)
       | Plain _ => store st
       end
       (mkStochastic false (_missing (this st)) (dtype (this st)) value
          (Some (_value (this st))))).
Proof.
  intros Hdata Hp Hno. unfold_method. rewrite Hdata. simpl. rewrite Hp. simpl.
  destruct p as [a|x]; simpl.
  - destruct (dtype (this st)) as [dt|]; simpl; [|done].
    rewrite decide_True by done. done.
  - destruct (dtype (this st)) as [dt|]; simpl; [|done].
    by rewrite Hno.
Qed.

(** X11: [revert] keeps [last_value], so a second [revert] changes nothing:
    there is one level of undo.  After two writes, [revert] brings back the
    value of the first write, not the one before it. *)
Theorem revert_one_level st st1 :
  revert st = (Ok tt, st1) →
  revert st1 = (Ok tt, st1)
  ∧ last_value (this st1) = last_value (this st)
  ∧ store st1 = store st
  ∧ ∀ v st2 st3, set_value v st1 = (Ok tt, st2) →
      revert st2 = (Ok tt, st3) →
      _value (this st3) = _value (this st1).
Proof.
  intros Hrun. split_and!.
  1-3: unfold_method in Hrun;
       destruct (last_value (this st)) as [r|] eqn:Hlast; [|done];
       injection Hrun as <-; unfold_method; simpl; rewrite ?Hlast; done.
  intros v st2 st3 (_ & _ & _ & Hl)%set_value_fields Hr.
  unfold_method in Hr. rewrite Hl in Hr. by injection Hr as <-.
Qed.

Lemma partial_write_frame st (value : ref) st' :
  isdata (this st) = true →
  truthy (_missing (this st)) = true →
  set_value value st = (Ok tt, st') →
  (_value (this st') ∉ dom (store st))
  ∧ store st' !! value = store st !! value
  ∧ store st' !! _value (this st) = store st !! _value (this st).
Proof.
  intros Hdata Hm Hrun. unfold_method in Hrun. rewrite Hdata, Hm in Hrun.
  unfold array_setitem in Hrun. simpl in Hrun.
  pose proof (is_fresh (dom (store st))) as Hfresh.
  destruct (store st !! value) as [pv|] eqn:Hv; [|done].
  destruct (getitem pv _) as [vals|]; [|done].
  destruct (store st !! _value (this st)) as [[old|]|] eqn:Hold; try done.
  assert (fresh (dom (store st)) ≠ value) as Hnv
    by (apply fresh_is_new; by rewrite Hv).
  assert (fresh (dom (store st)) ≠ _value (this st)) as Hno
    by (apply fresh_is_new; by rewrite Hold).
  simpl in Hrun.
  destruct (forallb _ _); [|done]. destruct (decide _); [|done].
  simpl in Hrun. rewrite lookup_insert_eq in Hrun. simpl in Hrun.
  set (σ1 := <[fresh (dom (store st)) := _]> (<[fresh (dom (store st)) := _]> (<[fresh (dom (store st)) := _]> (store st)))) in *.
  assert (σ1 !! value = Some pv ∧ σ1 !! _value (this st) = Some (NdArray old))
    as [Hv1 Ho1].
  { unfold σ1. by rewrite !lookup_insert_ne. }
  assert (fresh (dom σ1) ≠ value) as Hnv1
    by (apply fresh_is_new; by rewrite Hv1).
  assert (fresh (dom σ1) ≠ _value (this st)) as Hno1
    by (apply fresh_is_new; by rewrite Ho1).
  assert (fresh (dom σ1) ∉ dom (store st)) as Hf1.
  { assert (∀ x, x ∈ dom (store st) → x ∈ dom σ1) as Hsub.
    { intros x Hx. unfold σ1. rewrite !dom_insert_L, !elem_of_union. auto. }
    intros Hin. by apply (is_fresh (dom σ1)), Hsub. }
  repeat case_match; simplify_eq/=;
    rewrite ?lookup_insert_ne by done; rewrite ?Hv1, ?Ho1; done.
Qed.

(** X12: a successful write to a partly observed Stochastic stores a new
    object: the array written and the array that was the value are both left
    as they were (the written array is not even made read-only). *)
Theorem partial_write_leaves_arguments st (value : ref) st' :
  isdata (this st) = true →
  truthy (_missing (this st)) = true →
  set_value value st = (Ok tt, st') →
  (_value (this st') ∉ dom (store st))
  ∧ store st' !! value = store st !! value
  ∧ store st' !! _value (this st) = store st !! _value (this st).
Proof. apply partial_write_frame. Qed.

(** X13: a draw can be undone.  When [random] returns on a Stochastic that
    is not data, it returns the object drawn, the value from before the draw
    is in [last_value], and [revert] makes it the value again. *)
Theorem random_then_revert (draw : ST (vstate elem dty) ref) st st1 st'
    (r r' : ref) :
  isdata (this st) = false →
  draw st = (Ok r, st1) → this st1 = this st →
  random (Some draw) st = (Ok r', st') →
  r' = r
  ∧ last_value (this st') = Some (_value (this st))
  ∧ ∃ st'', revert st' = (Ok tt, st'')
            ∧ _value (this st'') = _value (this st)
            ∧ store st'' = store st'.
Proof.
  intros Hdata Hdraw Hthis Hrun. unfold random in Hrun.
  cbv [mbind ST_bind mret ST_ret] in Hrun. rewrite Hdraw in Hrun.
  destruct (set_value r st1) as [[[]|e] st2] eqn:Hset; [|done].
  injection Hrun as <- <-. split; [done|].
  rewrite <- Hthis in *. clear Hthis Hdraw.
  unfold_method in Hset. rewrite Hdata in Hset.
  repeat case_match; simplify_eq/=;
    (split; [done|]); unfold_method; simpl; by eexists.
Qed.

(** X14: on data, [random] draws first and then goes through the write.
    With nothing missing it raises the data-is-fixed error, after the draw;
    with missing entries it returns the object drawn, which is not the
    object that is stored as the value and is left as it was drawn. *)
Theorem random_on_data (draw : ST (vstate elem dty) ref) st st1 (r : ref) :
  isdata (this st) = true →
  draw st = (Ok r, st1) → this st1 = this st →
  (truthy (_missing (this st)) = false →
     random (Some draw) st
     = (Raise (AttributeError "value cannot be updated if isdata flag is set"),
        st1))
  ∧ (truthy (_missing (this st)) = true → ∀ r' st',
       random (Some draw) st = (Ok r', st') →
       r' = r ∧ _value (this st') ≠ r ∧ store st' !! r = store st1 !! r).
Proof.
  intros Hdata Hdraw Hthis. split.
  - intros Hm. unfold random. cbv [mbind ST_bind mret ST_ret].
    rewrite Hdraw. unfold_method. rewrite Hthis, Hdata, Hm. by destruct st1.
  - intros Hm r' st' Hrun. unfold random in Hrun.
    cbv [mbind ST_bind mret ST_ret] in Hrun. rewrite Hdraw in Hrun.
    destruct (set_value r st1) as [[[]|e] st2] eqn:Hset; [|done].
    injection Hrun as <- <-. split; [done|].
    rewrite <- Hthis in Hdata, Hm.
    destruct (partial_write_frame _ _ _ Hdata Hm Hset) as (Hfresh & Hr & _).
    split; [|done]. intros E. rewrite E in Hfresh. apply Hfresh.
    apply elem_of_dom. unfold_method in Hset. rewrite Hdata, Hm in Hset.
    simpl in Hset. destruct (store st1 !! r); [done|done].
Qed.
End ValueMore.

Lemma set_value_failure_keeps_value_witness :
  set_value 14 unobserved
  = (Raise (ValueError "invalid literal for int()"),
     (set_value 14 unobserved).2)
  ∧ _value (this (set_value 14 unobserved).2) = 12%positive
  ∧ isdata (this (set_value 14 unobserved).2) = false
  ∧ _missing (this (set_value 14 unobserved).2) = None
  ∧ dtype (this (set_value 14 unobserved).2) = Some py_int.
Proof.
  assert (set_value 14 unobserved
          = (Raise (ValueError "invalid literal for int()"),
             (set_value 14 unobserved).2)) as Hrun
    by (vm_compute; reflexivity).
  split; [exact Hrun|].
  exact (set_value_failure_keeps_value unobserved 14 _ _ Hrun).
Defined.

Lemma set_value_stores_object_witness :
  isdata (this untyped) = false
  ∧ store untyped !! 11%positive
    = Some (NdArray (mkArray [an_int 7; an_int 8; an_int 9] true np_int64))
  ∧ set_value 11 untyped
    = (Ok tt,
       mkVState
         (<[11%positive :=
              NdArray (mkArray [an_int 7; an_int 8; an_int 9] false np_int64)]>
            (store untyped))
         (mkStochastic false None None 11 (Some 12%positive))).
Proof.
  assert (store untyped !! 11%positive
          = Some (NdArray (mkArray [an_int 7; an_int 8; an_int 9] true
                             np_int64))) as Hp by (vm_compute; reflexivity).
  split; [reflexivity|]. split; [exact Hp|].
  exact (set_value_stores_object untyped 11 _ eq_refl Hp I).
Defined.

Lemma revert_one_level_witness :
  revert (set_value 13 unobserved).2
  = (Ok tt, (revert (set_value 13 unobserved).2).2)
  ∧ revert (revert (set_value 13 unobserved).2).2
    = (Ok tt, (revert (set_value 13 unobserved).2).2)
  ∧ last_value (this (revert (set_value 13 unobserved).2).2)
    = last_value (this (set_value 13 unobserved).2).
Proof.
  assert (revert (set_value 13 unobserved).2
          = (Ok tt, (revert (set_value 13 unobserved).2).2)) as Hrun
    by (vm_compute; reflexivity).
  split; [exact Hrun|].
  destruct (revert_one_level _ _ Hrun) as (H1 & H2 & _).
  split; [exact H1 | exact H2].
Defined.

Lemma partial_write_leaves_arguments_witness :
  isdata (this partly_observed) = true
  ∧ truthy (_missing (this partly_observed)) = true
  ∧ set_value 11 partly_observed = (Ok tt, (set_value 11 partly_observed).2)
  ∧ (_value (this (set_value 11 partly_observed).2)
     ∉ dom (store partly_observed))
  ∧ store (set_value 11 partly_observed).2 !! 11%positive
    = store partly_observed !! 11%positive
  ∧ store (set_value 11 partly_observed).2 !! _value (this partly_observed)
    = store partly_observed !! _value (this partly_observed).
Proof.
  assert (set_value 11 partly_observed
          = (Ok tt, (set_value 11 partly_observed).2)) as Hrun
    by (vm_compute; reflexivity).
  split; [reflexivity|]. split; [reflexivity|]. split; [exact Hrun|].
  exact (partial_write_leaves_arguments partly_observed 11 _ eq_refl eq_refl
           Hrun).
Defined.

Lemma random_then_revert_witness :
  isdata (this untyped) = false
  ∧ sample_draw untyped = (Ok 15%positive, (sample_draw untyped).2)
  ∧ this (sample_draw untyped).2 = this untyped
  ∧ random (Some sample_draw) untyped
    = (Ok 15%positive, (random (Some sample_draw) untyped).2)
  ∧ last_value (this (random (Some sample_draw) untyped).2)
    = Some 12%positive
  ∧ ∃ st'', revert (random (Some sample_draw) untyped).2 = (Ok tt, st'')
            ∧ _value (this st'') = 12%positive
            ∧ store st'' = store (random (Some sample_draw) untyped).2.
Proof.
  assert (sample_draw untyped = (Ok 15%positive, (sample_draw untyped).2))
    as Hdraw by (vm_compute; reflexivity).
  assert (random (Some sample_draw) untyped
          = (Ok 15%positive, (random (Some sample_draw) untyped).2)) as Hrun
    by (vm_compute; reflexivity).
  split; [reflexivity|]. split; [exact Hdraw|]. split; [reflexivity|].
  split; [exact Hrun|].
  exact (proj2 (random_then_revert sample_draw untyped _ _ _ _ eq_refl Hdraw
                  eq_refl Hrun)).
Defined.

Lemma random_on_data_witness :
  isdata (this observed) = true
  ∧ sample_draw observed = (Ok 15%positive, (sample_draw observed).2)
  ∧ random (Some sample_draw) observed
    = (Raise (AttributeError "value cannot be updated if isdata flag is set"),
       (sample_draw observed).2)
  ∧ isdata (this partly_observed) = true
  ∧ random (Some sample_draw) partly_observed
    = (Ok 15%positive, (random (Some sample_draw) partly_observed).2)
  ∧ _value (this (random (Some sample_draw) partly_observed).2)
    ≠ 15%positive.
Proof.
  assert (sample_draw observed = (Ok 15%positive, (sample_draw observed).2))
    as Hdraw by (vm_compute; reflexivity).
  assert (sample_draw partly_observed
          = (Ok 15%positive, (sample_draw partly_observed).2))
    as Hdraw' by (vm_compute; reflexivity).
  assert (random (Some sample_draw) partly_observed
          = (Ok 15%positive, (random (Some sample_draw) partly_observed).2))
    as Hrun by (vm_compute; reflexivity).
  split; [reflexivity|]. split; [exact Hdraw|].
  split; [exact (proj1 (random_on_data sample_draw observed _ _ eq_refl Hdraw
                          eq_refl) eq_refl)|].
  split; [reflexivity|]. split; [exact Hrun|].
  exact (proj1 (proj2 (proj2 (random_on_data sample_draw partly_observed _ _
                                eq_refl Hdraw' eq_refl) eq_refl _ _ Hrun))).
Defined.

(** ** The registration done by the parent binding map *)

Lemma bind_ok {S A B : Type} (m : ST S A) (k : A → ST S B) (st st' : S)
    (b : B) :
  (a ← m; k a) st = (Ok b, st') →
  ∃ a st1, m st = (Ok a, st1) ∧ k a st1 = (Ok b, st').
Proof.
  cbv [mbind ST_bind]. destruct (m st) as [[a|e] st1]; [|done].
  intros Hk. by exists a, st1.
Qed.

Lemma bind_run {S A B : Type} (m : ST S A) (k : A → ST S B) (st st1 : S)
    (a : A) :
  m st = (Ok a, st1) → (a ← m; k a) st = k a st1.
Proof. cbv [mbind ST_bind]. by intros ->. Qed.

Lemma same_objects_trans (h1 h2 h3 : heap) :
  same_objects h1 h2 → same_objects h2 h3 → same_objects h1 h3.
Proof. intros H12 H23 y. by rewrite H23, H12. Qed.

Lemma same_objects_isinstance (h h' : heap) (y : ref) (t : pytype) :
  same_objects h h' → isinstance h' y t = isinstance h y t.
Proof.
  intros Hs. specialize (Hs y). unfold isinstance.
  destruct (h' !! y), (h !! y); simpl in Hs; try done. by injection Hs as -> _.
Qed.

Lemma same_objects_hashable (h h' : heap) (y : ref) :
  same_objects h h' → is_hashable h' y = is_hashable h y.
Proof.
  intros Hs. specialize (Hs y). unfold is_hashable.
  destruct (h' !! y), (h !! y); simpl in Hs; try done. by injection Hs as _ ->.
Qed.

Lemma applied_getattr (op : gset ref → gset ref) (P : ref → string → bool)
    (h h' : heap) (y : ref) (b : string) :
  applied op P h h' → P y b = false → getattr h' y b = getattr h y b.
Proof.
  intros (_ & Hg & _) HP. rewrite Hg, HP. by destruct (getattr h y b).
Qed.

Lemma applied_attr_set (op : gset ref → gset ref) (P : ref → string → bool)
    (h h' : heap) (y : ref) (b : string) :
  applied op P h h' →
  attr_set h' y b = if P y b then op (attr_set h y b) else attr_set h y b.
Proof.
  intros (_ & Hg & Hex). unfold attr_set. rewrite Hg.
  destruct (P y b) eqn:HP.
  - destruct (Hex y b HP) as [s ->]. done.
  - by destruct (getattr h y b).
Qed.

Lemma applied_refl (op : gset ref → gset ref) (h : heap) :
  applied op (λ _ _, false) h h.
Proof.
  split; [done|]. split; [|done]. intros y b. by destruct (getattr h y b).
Qed.

Lemma applied_trans (op : gset ref → gset ref) (P Q : ref → string → bool)
    (h1 h2 h3 : heap) :
  (∀ s, op (op s) = op s) →
  applied op P h1 h2 → applied op Q h2 h3 →
  applied op (λ y b, P y b || Q y b) h1 h3.
Proof.
  intros Hidem (Hs1 & Hf & Hex1) (Hs2 & Hg & Hex2).
  split; [by eapply same_objects_trans|]. split.
  - intros y b. rewrite Hg, Hf. destruct (getattr h1 y b); [|done].
    destruct (P y b), (Q y b); simpl; by rewrite ?Hidem.
  - intros y b [HP|HQ]%orb_true_iff; [by apply Hex1|].
    destruct (Hex2 y b HQ) as [s Hs]. rewrite Hf in Hs.
    destruct (getattr h1 y b); [by eexists|done].
Qed.

Lemma applied_ext (op : gset ref → gset ref) (P Q : ref → string → bool)
    (h h' : heap) :
  (∀ y b, P y b = Q y b) → applied op P h h' → applied op Q h h'.
Proof.
  intros HPQ (Hs & Hf & Hex). split; [done|]. split.
  - intros y b. rewrite Hf, HPQ. done.
  - intros y b HQ. apply Hex. by rewrite HPQ.
Qed.

(** An attribute that exists, set to a new set. *)
Lemma applied_setattr (op : gset ref → gset ref) (h : heap) (x : ref)
    (a : string) (s : gset ref) :
  getattr h x a = Ok s →
  applied op (λ y b, bool_decide (y = x) && bool_decide (b = a))
          h (setattr h x a (op s)).
Proof.
  unfold getattr, setattr. intros Hx.
  destruct (h !! x) as [o|] eqn:Ho; [|done].
  destruct (attrs o !! a) as [s0|] eqn:Ha; [|done]. injection Hx as ->.
  split; [|split].
  - intros y. destruct (decide (y = x)) as [->|Hy].
    + by rewrite lookup_insert_eq, Ho.
    + by rewrite lookup_insert_ne.
  - intros y b. unfold getattr. destruct (decide (y = x)) as [->|Hy].
    + rewrite lookup_insert_eq, Ho. simpl. rewrite bool_decide_eq_true_2 by done.
      destruct (decide (b = a)) as [->|Hb].
      * rewrite lookup_insert_eq, Ha. by rewrite bool_decide_eq_true_2.
      * rewrite lookup_insert_ne by done.
        destruct (attrs o !! b); [|done]. by rewrite bool_decide_eq_false_2.
    + rewrite lookup_insert_ne by done.
      destruct (h !! y) as [o'|]; [|done].
      destruct (attrs o' !! b); [|done]. by rewrite bool_decide_eq_false_2.
  - intros y b [->%bool_decide_eq_true ->%bool_decide_eq_true]%andb_true_iff.
    unfold getattr. rewrite Ho, Ha. by eexists.
Qed.

(** What [x.a.add(y)], [x.a.discard(y)] and [x.a.remove(y)] do when they
    return. *)
Lemma attr_add_ok (x : ref) (a : string) (o : ref) (st st' : gstate) :
  attr_add x a o st = (Ok tt, st') →
  self st' = self st
  ∧ applied (λ s, s ∪ {[o]})
            (λ y b, bool_decide (y = x) && bool_decide (b = a))
            (objs st) (objs st').
Proof.
  unfold attr_add. cbv [mbind ST_bind get_heap lift put_heap raise].
  destruct (getattr (objs st) x a) as [s|] eqn:Hs; [|done].
  destruct (is_hashable (objs st) o); [|done]. intros [= <-]. simpl.
  split; [done|]. by apply (applied_setattr (λ s, s ∪ {[o]})).
Qed.

Lemma attr_discard_ok (x : ref) (a : string) (o : ref) (st st' : gstate) :
  attr_discard x a o st = (Ok tt, st') →
  self st' = self st
  ∧ applied (λ s, s ∖ {[o]})
            (λ y b, bool_decide (y = x) && bool_decide (b = a))
            (objs st) (objs st').
Proof.
  unfold attr_discard. cbv [mbind ST_bind get_heap lift put_heap raise].
  destruct (getattr (objs st) x a) as [s|] eqn:Hs; [|done].
  destruct (is_hashable (objs st) o); [|done]. intros [= <-]. simpl.
  split; [done|]. by apply (applied_setattr (λ s, s ∖ {[o]})).
Qed.

Lemma attr_remove_ok (x : ref) (a : string) (o : ref) (st st' : gstate) :
  attr_remove x a o st = (Ok tt, st') →
  self st' = self st
  ∧ o ∈ attr_set (objs st) x a
  ∧ applied (λ s, s ∖ {[o]})
            (λ y b, bool_decide (y = x) && bool_decide (b = a))
            (objs st) (objs st').
Proof.
  unfold attr_remove, attr_set.
  cbv [mbind ST_bind get_heap lift put_heap raise].
  destruct (getattr (objs st) x a) as [s|] eqn:Hs; [|done].
  destruct (is_hashable (objs st) o); [|done].
  destruct (decide (o ∈ s)) as [Hin|]; [|done]. intros [= <-]. simpl.
  split; [done|]. split; [done|]. by apply (applied_setattr (λ s, s ∖ {[o]})).
Qed.

(** A loop whose passes each apply one and the same idempotent operation [op]
    to the attributes that a pass aims at, [T h e], aims at the union of the
    targets.  The targets are read from attributes outside [A] and the
    operation is applied inside [A], so that the targets do not move while
    the loop runs. *)
Section Loops.
Variable op : gset ref → gset ref.
Hypothesis op_idem : ∀ s, op (op s) = op s.
Variable A : string → bool.
Variable T : heap → ref → ref → string → bool.
Variable body : ref → M unit.

Hypothesis T_in_A : ∀ h e y b, T h e y b = true → A b = true.
Hypothesis T_stable : ∀ h h' P e y b,
  applied op P h h' →
  (∀ y b, P y b = true → A b = true) →
  T h' e y b = T h e y b.
Hypothesis body_ok : ∀ e st st',
  body e st = (Ok tt, st') →
  self st' = self st ∧ applied op (T (objs st) e) (objs st) (objs st').

Lemma for_each_apply (l : list ref) : ∀ st st',
  for_each l body st = (Ok tt, st') →
  self st' = self st
  ∧ applied op (λ y b, existsb (λ e, T (objs st) e y b) l)
            (objs st) (objs st').
Proof.
  induction l as [|e l IH]; intros st st' Hrun; simpl in Hrun.
  - injection Hrun as <-. split; [done|]. apply applied_refl.
  - apply bind_ok in Hrun as ([] & st1 & Hbody & Hrest).
    destruct (body_ok _ _ _ Hbody) as [Hself1 Hup1].
    destruct (IH _ _ Hrest) as [Hself2 Hup2].
    split; [congruence|].
    eapply applied_ext; [|eapply applied_trans; eauto].
    intros y b. simpl. f_equal.
    clear IH Hrest Hup2 Hself2.
    induction l as [|e' l' IHl]; [done|]. simpl. f_equal; [|exact IHl].
    eapply T_stable; [exact Hup1|]. intros y' b'. apply T_in_A.
Qed.
End Loops.

Lemma existsb_elements (s : gset ref) (y : ref) (f : ref → bool) :
  existsb (λ e, bool_decide (y = e) && f e) (elements s)
  = bool_decide (y ∈ s) && f y.
Proof.
  apply eq_true_iff_eq. rewrite existsb_exists, andb_true_iff.
  rewrite bool_decide_eq_true. split.
  - intros (e & He & [<-%bool_decide_eq_true Hf]%andb_true_iff).
    split; [|done]. by apply elem_of_elements, list_elem_of_In.
  - intros [Hy Hf]. exists y. split.
    + by apply list_elem_of_In, elem_of_elements.
    + by rewrite bool_decide_eq_true_2.
Qed.

Lemma union_idem (o : ref) (s : gset ref) : s ∪ {[o]} ∪ {[o]} = s ∪ {[o]}.
Proof. set_solver. Qed.

Lemma difference_idem (o : ref) (s : gset ref) : s ∖ {[o]} ∖ {[o]} = s ∖ {[o]}.
Proof. set_solver. Qed.

Lemma extended_pass_stable (op : gset ref → gset ref) (h h' : heap)
    (P : ref → string → bool) (e y : ref) (b : string) :
  applied op P h h' →
  extended_pass_targets h' e y b = extended_pass_targets h e y b.
Proof.
  intros [Hs _]. unfold extended_pass_targets.
  by rewrite (same_objects_isinstance _ _ _ _ Hs).
Qed.

Lemma pass_stable (members : string) (op : gset ref → gset ref) (h h' : heap)
    (P : ref → string → bool) (p y : ref) (b : string) :
  applied op P h h' →
  (∀ y b, P y b = true → bool_decide (b = "variables") = false) →
  pass_targets members h' p y b = pass_targets members h p y b.
Proof.
  intros Hup HP. unfold pass_targets.
  rewrite !(same_objects_isinstance _ _ _ _ (proj1 Hup)).
  rewrite (applied_attr_set _ _ _ _ p "variables" Hup).
  destruct (P p "variables") eqn:E; [|done].
  apply HP in E. by rewrite bool_decide_eq_true_2 in E.
Qed.

Section RegistrationLoops.
Variable o : ref.
Variable op : gset ref → gset ref.
Hypothesis op_idem : ∀ s, op (op s) = op s.
Variable attr_op : ref → string → ref → M unit.
Hypothesis attr_op_ok : ∀ x a st st',
  attr_op x a o st = (Ok tt, st') →
  self st' = self st
  ∧ applied op (λ y b, bool_decide (y = x) && bool_decide (b = a))
            (objs st) (objs st').
Variable members : string.
Hypothesis members_not_variables : members ≠ "variables".

Lemma extended_pass (e : ref) (st st' : gstate) :
  (h ← get_heap;
   if isinstance h e StochasticBaseT
   then attr_op e "extended_children" o else mret tt) st = (Ok tt, st') →
  self st' = self st
  ∧ applied op (extended_pass_targets (objs st) e) (objs st) (objs st').
Proof.
  intros Hrun. apply bind_ok in Hrun as (h & st1 & [= <- <-] & Hrun).
  unfold extended_pass_targets.
  destruct (isinstance (objs st) e StochasticBaseT).
  - apply attr_op_ok in Hrun as [Hself Hup]. split; [done|].
    eapply applied_ext; [|exact Hup]. intros y b. simpl.
    by rewrite andb_true_r.
  - injection Hrun as <-. split; [done|].
    eapply applied_ext; [|apply applied_refl].
    intros y b. simpl. by rewrite andb_false_r.
Qed.

Lemma extended_loop (eps : list ref) (st st' : gstate) :
  for_each eps (λ e_parent,
    h ← get_heap;
    if isinstance h e_parent StochasticBaseT
    then attr_op e_parent "extended_children" o else mret tt) st
  = (Ok tt, st') →
  self st' = self st
  ∧ applied op (λ y b, existsb (λ e, extended_pass_targets (objs st) e y b)
                               eps)
            (objs st) (objs st').
Proof.
  intros Hrun.
  apply (for_each_apply op op_idem
           (λ b, bool_decide (b = "extended_children"))
           extended_pass_targets) in Hrun; [done|..].
  - intros h e y b. unfold extended_pass_targets.
    intros [[_ ?]%andb_true_iff _]%andb_true_iff. done.
  - intros h h' P e y b Hup _. by eapply extended_pass_stable.
  - intros e st0 st0'. apply extended_pass.
Qed.

Lemma members_loop (vs : list ref) (st st' : gstate) :
  for_each vs (λ variable, attr_op variable members o) st = (Ok tt, st') →
  self st' = self st
  ∧ applied op (λ y b, existsb (λ e, bool_decide (y = e)
                                     && bool_decide (b = members)) vs)
            (objs st) (objs st').
Proof.
  intros Hrun.
  apply (for_each_apply op op_idem (λ b, bool_decide (b = members))
           (λ _ e y b, bool_decide (y = e) && bool_decide (b = members)))
    in Hrun; [done|..].
  - intros h e y b [_ ?]%andb_true_iff. done.
  - done.
  - intros e st0 st0' Hbody. by apply attr_op_ok in Hbody.
Qed.

Lemma parent_pass (p : ref) (st st' : gstate) :
  (h ← get_heap;
   if isinstance h p VariableT then attr_op p "children" o
   else if isinstance h p ContainerBaseT then
     vs ← lift (getattr h p "variables");
     for_each (elements vs) (λ variable, attr_op variable members o)
   else mret tt) st = (Ok tt, st') →
  self st' = self st
  ∧ applied op (pass_targets members (objs st) p) (objs st) (objs st').
Proof.
  intros Hrun. apply bind_ok in Hrun as (h & st1 & [= <- <-] & Hrun).
  unfold pass_targets.
  destruct (isinstance (objs st) p VariableT).
  - by apply attr_op_ok in Hrun.
  - destruct (isinstance (objs st) p ContainerBaseT).
    + apply bind_ok in Hrun as (vs & st1 & Hvs & Hrun).
      unfold lift in Hvs. injection Hvs as Hvs <-.
      apply members_loop in Hrun as [Hself Hup]. split; [done|].
      eapply applied_ext; [|exact Hup]. intros y b.
      simpl. unfold attr_set. rewrite Hvs.
      rewrite (existsb_elements vs y (λ _, bool_decide (b = members))). done.
    + injection Hrun as <-. split; [done|]. apply applied_refl.
Qed.

Lemma parents_loop (parents : list ref) (st st' : gstate) :
  for_each parents (λ parent,
    h ← get_heap;
    if isinstance h parent VariableT then attr_op parent "children" o
    else if isinstance h parent ContainerBaseT then
      vs ← lift (getattr h parent "variables");
      for_each (elements vs) (λ variable, attr_op variable members o)
    else mret tt) st = (Ok tt, st') →
  self st' = self st
  ∧ applied op (λ y b, existsb (λ p, pass_targets members (objs st) p y b)
                               parents)
            (objs st) (objs st').
Proof.
  intros Hrun.
  apply (for_each_apply op op_idem
           (λ b, bool_decide (b = "children") || bool_decide (b = members))
           (pass_targets members)) in Hrun; [done|..].
  - intros h p y b. unfold pass_targets.
    destruct (isinstance h p VariableT).
    + intros [_ ->]%andb_true_iff. done.
    + intros [_ ->]%andb_true_iff. by rewrite orb_true_r.
  - intros h h' P p y b Hup HP. eapply pass_stable; [exact Hup|].
    intros y' b' HPb. apply HP in HPb.
    apply orb_true_iff in HPb as [->%bool_decide_eq_true| ->%bool_decide_eq_true];
      by apply bool_decide_eq_false_2.
  - intros p st0 st0'. apply parent_pass.
Qed.
End RegistrationLoops.

Lemma extended_targets_loop (h : heap) (ow y : ref) (b : string)
    (eps : gset ref) :
  getattr h ow "extended_parents" = Ok eps →
  existsb (λ e, extended_pass_targets h e y b) (elements eps)
  = bool_decide (b = "extended_children") && extended_targets h ow y.
Proof.
  intros Heps. unfold extended_pass_targets, extended_targets, attr_set.
  rewrite Heps.
  rewrite <- (existsb_elements eps y (λ e, isinstance h e StochasticBaseT)).
  destruct (bool_decide (b = "extended_children")) eqn:Eb; simpl.
  - induction (elements eps) as [|e l IH]; [done|]. simpl.
    by rewrite IH, andb_true_r.
  - induction (elements eps) as [|e l IH]; [done|]. simpl.
    by rewrite IH, andb_false_r.
Qed.

Lemma parent_targets_loop (h : heap) (parents : list ref) (y : ref)
    (b : string) :
  existsb (λ p, pass_targets "children" h p y b) parents
  = bool_decide (b = "children") && parent_targets h parents y.
Proof.
  unfold parent_targets. induction parents as [|p l IH]; simpl.
  - by rewrite andb_false_r.
  - rewrite IH. unfold pass_targets.
    destruct (isinstance h p VariableT), (isinstance h p ContainerBaseT),
      (bool_decide (b = "children")); simpl;
      rewrite ?andb_true_r, ?andb_false_r; done.
Qed.

Lemma parent_targets_loop_plain (members : string) (h : heap)
    (parents : list ref) (y : ref) (b : string) :
  (∀ p, p ∈ parents → isinstance h p ContainerBaseT = false) →
  existsb (λ p, pass_targets members h p y b) parents
  = bool_decide (b = "children") && parent_targets h parents y.
Proof.
  unfold parent_targets. induction parents as [|p l IH]; intros Hc; simpl.
  - by rewrite andb_false_r.
  - rewrite IH by (intros; apply Hc; by right). unfold pass_targets.
    rewrite (Hc p) by left.
    destruct (isinstance h p VariableT), (bool_decide (b = "children")); simpl;
      rewrite ?andb_true_r, ?andb_false_r; done.
Qed.

Lemma extended_targets_stable (op : gset ref → gset ref)
    (P : ref → string → bool) (h h' : heap) (ow y : ref) :
  applied op P h h' → P ow "extended_parents" = false →
  extended_targets h' ow y = extended_targets h ow y.
Proof.
  intros Hup HP. unfold extended_targets.
  rewrite (same_objects_isinstance _ _ _ _ (proj1 Hup)).
  by rewrite (applied_attr_set _ _ _ _ ow "extended_parents" Hup), HP.
Qed.

Lemma parent_targets_stable (op : gset ref → gset ref)
    (P : ref → string → bool) (h h' : heap) (parents : list ref) (y : ref) :
  applied op P h h' → (∀ p, P p "variables" = false) →
  parent_targets h' parents y = parent_targets h parents y.
Proof.
  intros Hup HP. unfold parent_targets.
  induction parents as [|p l IH]; [done|]. simpl. rewrite IH. f_equal.
  rewrite !(same_objects_isinstance _ _ _ _ (proj1 Hup)).
  by rewrite (applied_attr_set _ _ _ _ p "variables" Hup), HP.
Qed.

(** What [attach_extended_parents] and [detach_extended_parents] do when
    they return. *)
Lemma attach_extended_parents_ok (st st' : gstate) :
  attach_extended_parents st = (Ok tt, st') →
  self st' = self st
  ∧ applied (λ s, s ∪ {[owner (self st)]})
      (λ y b, bool_decide (b = "extended_children")
              && extended_targets (objs st) (owner (self st)) y)
      (objs st) (objs st').
Proof.
  unfold attach_extended_parents. intros Hrun.
  apply bind_ok in Hrun as (s & st1 & [= <- <-] & Hrun).
  apply bind_ok in Hrun as (h & st1 & [= <- <-] & Hrun).
  apply bind_ok in Hrun as (eps & st1 & Heps & Hrun).
  unfold lift in Heps. injection Heps as Heps <-.
  apply (extended_loop _ _ (union_idem _) attr_add
           (λ x a, attr_add_ok x a _)) in Hrun
    as [Hself Hup].
  split; [done|]. eapply applied_ext; [|exact Hup].
  intros y b. exact (extended_targets_loop _ _ _ _ _ Heps).
Qed.

Lemma detach_extended_parents_ok (st st' : gstate) :
  detach_extended_parents st = (Ok tt, st') →
  self st' = self st
  ∧ applied (λ s, s ∖ {[owner (self st)]})
      (λ y b, bool_decide (b = "extended_children")
              && extended_targets (objs st) (owner (self st)) y)
      (objs st) (objs st').
Proof.
  unfold detach_extended_parents. intros Hrun.
  apply bind_ok in Hrun as (s & st1 & [= <- <-] & Hrun).
  apply bind_ok in Hrun as (h & st1 & [= <- <-] & Hrun).
  apply bind_ok in Hrun as (eps & st1 & Heps & Hrun).
  unfold lift in Heps. injection Heps as Heps <-.
  apply (extended_loop _ _ (difference_idem _) attr_discard
           (λ x a, attr_discard_ok x a _)) in Hrun as [Hself Hup].
  split; [done|]. eapply applied_ext; [|exact Hup].
  intros y b. exact (extended_targets_loop _ _ _ _ _ Heps).
Qed.

Lemma children_not_variables : "children" ≠ "variables".
Proof. done. Qed.

Lemma chidren_not_variables : "chidren" ≠ "variables".
Proof. done. Qed.

Lemma attach_parents_ok (st st' : gstate) :
  attach_parents st = (Ok tt, st') →
  self st' = self st
  ∧ applied (λ s, s ∪ {[owner (self st)]})
            (registration_targets (objs st) (self st))
            (objs st) (objs st').
Proof.
  unfold attach_parents. intros Hrun.
  apply bind_ok in Hrun as (s & st0 & [= <- <-] & Hrun).
  apply bind_ok in Hrun as ([] & st1 & Hloop & Hrun).
  apply (parents_loop _ _ (union_idem _) attr_add
           (λ x a, attr_add_ok x a _) "children" children_not_variables)
    in Hloop as [Hself1 Hup1].
  assert (applied (λ s, s ∪ {[owner (self st)]})
            (λ y b, bool_decide (b = "children")
                    && parent_targets (objs st) (itervalues (items (self st))) y)
            (objs st) (objs st1)) as Hup1'.
  { eapply applied_ext; [|exact Hup1]. intros y b.
    apply parent_targets_loop. }
  unfold registration_targets.
  destruct (has_logp (self st)).
  - apply attach_extended_parents_ok in Hrun as [Hself2 Hup2].
    split; [congruence|]. rewrite Hself1 in Hup2.
    eapply applied_ext; [|eapply (applied_trans _ _ _ _ _ _ (union_idem _));
                           [exact Hup1'|exact Hup2]].
    intros y b. simpl. f_equal. f_equal.
    by apply (extended_targets_stable _ _ _ _ _ _ Hup1').
  - injection Hrun as <-. split; [done|].
    eapply applied_ext; [|exact Hup1']. intros y b. simpl.
    by rewrite orb_false_r.
Qed.

Lemma detach_parents_ok (st st' : gstate) :
  (∀ p, p ∈ itervalues (items (self st)) →
        isinstance (objs st) p ContainerBaseT = false) →
  detach_parents st = (Ok tt, st') →
  self st' = self st
  ∧ applied (λ s, s ∖ {[owner (self st)]})
            (registration_targets (objs st) (self st))
            (objs st) (objs st').
Proof.
  unfold detach_parents. intros Hplain Hrun.
  apply bind_ok in Hrun as (s & st0 & [= <- <-] & Hrun).
  apply bind_ok in Hrun as ([] & st1 & Hloop & Hrun).
  apply (parents_loop _ _ (difference_idem _) attr_discard
           (λ x a, attr_discard_ok x a _) "chidren" chidren_not_variables)
    in Hloop as [Hself1 Hup1].
  assert (applied (λ s, s ∖ {[owner (self st)]})
            (λ y b, bool_decide (b = "children")
                    && parent_targets (objs st) (itervalues (items (self st))) y)
            (objs st) (objs st1)) as Hup1'.
  { eapply applied_ext; [|exact Hup1]. intros y b.
    by apply parent_targets_loop_plain. }
  unfold registration_targets.
  destruct (has_logp (self st)).
  - apply detach_extended_parents_ok in Hrun as [Hself2 Hup2].
    split; [congruence|]. rewrite Hself1 in Hup2.
    eapply applied_ext; [|eapply (applied_trans _ _ _ _ _ _ (difference_idem _));
                           [exact Hup1'|exact Hup2]].
    intros y b. simpl. f_equal. f_equal.
    by apply (extended_targets_stable _ _ _ _ _ _ Hup1').
  - injection Hrun as <-. split; [done|].
    eapply applied_ext; [|exact Hup1']. intros y b. simpl.
    by rewrite orb_false_r.
Qed.

(** Two heaps with the same objects and the same attributes are equal. *)
Lemma heap_ext (h h' : heap) :
  same_objects h h' → (∀ y b, getattr h' y b = getattr h y b) → h' = h.
Proof.
  intros Hs Hg. apply map_eq. intros y. specialize (Hs y).
  specialize (Hg y). unfold getattr in Hg.
  destruct (h' !! y) as [[c' k' a']|], (h !! y) as [[c k a]|]; simpl in *;
    try done.
  injection Hs as -> ->. f_equal. f_equal. apply map_eq. intros b.
  specialize (Hg b). destruct (a' !! b), (a !! b); congruence.
Qed.

Lemma registration_targets_stable (op : gset ref → gset ref) (h h' : heap)
    (s : ParentDict) (y : ref) (b : string) :
  applied op (registration_targets h s) h h' →
  registration_targets h' s y b = registration_targets h s y b.
Proof.
  intros Hup. unfold registration_targets.
  rewrite (parent_targets_stable _ _ _ _ _ _ Hup).
  - rewrite (extended_targets_stable _ _ _ _ _ _ Hup); [done|].
    unfold registration_targets. simpl. by rewrite andb_false_r.
  - intros p. unfold registration_targets. simpl. by rewrite andb_false_r.
Qed.

(** Whether the registration loops return depends only on which objects and
    attributes there are. *)
Lemma applied_same_shape (op : gset ref → gset ref) (P : ref → string → bool)
    (h h' : heap) :
  applied op P h h' → same_shape h h'.
Proof.
  intros (Hs & Hg & _). split; [done|]. intros y b. rewrite Hg.
  destruct (getattr h y b); split; intros [s ?]; try done; by eexists.
Qed.

Lemma same_shape_sym (h h' : heap) : same_shape h h' → same_shape h' h.
Proof. intros [Hs Hg]. split; [by intros y|]. intros y b. by rewrite Hg. Qed.

Lemma same_shape_trans (h1 h2 h3 : heap) :
  same_shape h1 h2 → same_shape h2 h3 → same_shape h1 h3.
Proof.
  intros [Hs1 Hg1] [Hs2 Hg2]. split; [by eapply same_objects_trans|].
  intros y b. by rewrite Hg2, Hg1.
Qed.

Lemma attr_discard_needs (x : ref) (a : string) (o : ref) (st st' : gstate) :
  attr_discard x a o st = (Ok tt, st') →
  (∃ s, getattr (objs st) x a = Ok s) ∧ is_hashable (objs st) o = true.
Proof.
  unfold attr_discard. cbv [mbind ST_bind get_heap lift put_heap raise].
  destruct (getattr (objs st) x a) as [s|]; [|done].
  destruct (is_hashable (objs st) o); [|done]. intros _. split; [by eexists|done].
Qed.

Lemma attr_add_total (x : ref) (a : string) (o : ref) (st : gstate) :
  (∃ s, getattr (objs st) x a = Ok s) → is_hashable (objs st) o = true →
  ∃ st', attr_add x a o st = (Ok tt, st').
Proof.
  intros [s Hs] Hh. unfold attr_add.
  cbv [mbind ST_bind get_heap lift put_heap raise]. rewrite Hs, Hh.
  by eexists.
Qed.

(** A guarded pass that took the owner out of an attribute, and the pass
    that puts it there, on heaps of the same shape. *)
Lemma add_after_discard (t : pytype) (a : string) (o : ref) (l : list ref) :
  ∀ st st' u,
  for_each l (λ e, h ← get_heap;
                   if isinstance h e t then attr_discard e a o else mret tt)
           st = (Ok tt, st') →
  same_shape (objs st) (objs u) →
  ∃ u', for_each l (λ e, h ← get_heap;
                         if isinstance h e t then attr_add e a o else mret tt)
                 u = (Ok tt, u').
Proof.
  induction l as [|e l IH]; intros st st' u Hrun Hsh; simpl in *.
  - by eexists.
  - apply bind_ok in Hrun as ([] & st1 & Hbody & Hrest).
    apply bind_ok in Hbody as (h & st0 & [= <- <-] & Hbody).
    cbv [mbind ST_bind get_heap].
    rewrite (same_objects_isinstance _ _ _ _ (proj1 Hsh)).
    destruct (isinstance (objs st) e t).
    + pose proof (attr_discard_needs _ _ _ _ _ Hbody) as [Hex Hh].
      apply attr_discard_ok in Hbody as [_ Hup].
      destruct (attr_add_total e a o u) as [u1 Hadd].
      { by apply (proj2 Hsh). }
      { by rewrite (same_objects_hashable _ _ _ (proj1 Hsh)). }
      rewrite Hadd. apply (IH st1 st' u1 Hrest).
      apply attr_add_ok in Hadd as [_ Hup'].
      eapply same_shape_trans; [|by eapply applied_same_shape].
      eapply same_shape_trans; [|exact Hsh].
      by eapply same_shape_sym, applied_same_shape.
    + injection Hbody as <-. simpl. by apply (IH st st' u).
Qed.

Lemma attach_loop_after_detach_loop (o : ref) (l : list ref) :
  ∀ st st' u,
  (∀ p, p ∈ l → isinstance (objs st) p ContainerBaseT = false) →
  for_each l (λ parent,
    h ← get_heap;
    if isinstance h parent VariableT then attr_discard parent "children" o
    else if isinstance h parent ContainerBaseT then
      vs ← lift (getattr h parent "variables");
      for_each (elements vs) (λ variable, attr_discard variable "chidren" o)
    else mret tt) st = (Ok tt, st') →
  same_shape (objs st) (objs u) →
  ∃ u', for_each l (λ parent,
    h ← get_heap;
    if isinstance h parent VariableT then attr_add parent "children" o
    else if isinstance h parent ContainerBaseT then
      vs ← lift (getattr h parent "variables");
      for_each (elements vs) (λ variable, attr_add variable "children" o)
    else mret tt) u = (Ok tt, u').
Proof.
  induction l as [|p l IH]; intros st st' u Hplain Hrun Hsh; simpl in *.
  - by eexists.
  - apply bind_ok in Hrun as ([] & st1 & Hbody & Hrest).
    apply bind_ok in Hbody as (h & st0 & [= <- <-] & Hbody).
    cbv [mbind ST_bind get_heap].
    rewrite !(same_objects_isinstance _ _ _ _ (proj1 Hsh)).
    rewrite (Hplain p) in * by left.
    destruct (isinstance (objs st) p VariableT).
    + pose proof (attr_discard_needs _ _ _ _ _ Hbody) as [Hex Hh].
      apply attr_discard_ok in Hbody as [_ Hup].
      destruct (attr_add_total p "children" o u) as [u1 Hadd].
      { by apply (proj2 Hsh). }
      { by rewrite (same_objects_hashable _ _ _ (proj1 Hsh)). }
      rewrite Hadd. apply (IH st1 st' u1); [|done|].
      * intros q Hq.
        rewrite (same_objects_isinstance _ _ _ _ (proj1 Hup)).
        apply Hplain. by right.
      * apply attr_add_ok in Hadd as [_ Hup'].
        eapply same_shape_trans; [|by eapply applied_same_shape].
        eapply same_shape_trans; [|exact Hsh].
        by eapply same_shape_sym, applied_same_shape.
    + injection Hbody as <-. simpl. apply (IH st st' u); [|done|done].
      intros q Hq. apply Hplain. by right.
Qed.

Lemma attach_after_detach (st st1 : gstate) :
  (∀ p, p ∈ itervalues (items (self st)) →
        isinstance (objs st) p ContainerBaseT = false) →
  detach_parents st = (Ok tt, st1) →
  ∃ st2, attach_parents st1 = (Ok tt, st2).
Proof.
  intros Hplain Hdet.
  pose proof (detach_parents_ok _ _ Hplain Hdet) as [Hself Hup].
  unfold detach_parents in Hdet.
  apply bind_ok in Hdet as (s & st0 & [= <- <-] & Hdet).
  apply bind_ok in Hdet as ([] & sta & Hloop & Hdet).
  pose proof Hloop as Hloop'.
  apply (parents_loop _ _ (difference_idem _) attr_discard
           (λ x a, attr_discard_ok x a _) "chidren" chidren_not_variables)
    in Hloop' as [Hselfa Hupa].
  destruct (attach_loop_after_detach_loop _ _ _ _ st1 Hplain Hloop)
    as [v1 Hloop2]; [by eapply applied_same_shape|].
  unfold attach_parents.
  rewrite (bind_run get_self _ st1 st1 (self st1) eq_refl).
  rewrite Hself, (bind_run _ _ _ _ _ Hloop2).
  pose proof Hloop2 as Hloop2'.
  apply (parents_loop _ _ (union_idem _) attr_add
           (λ x a, attr_add_ok x a _) "children" children_not_variables)
    in Hloop2' as [Hselfv Hupv].
  destruct (has_logp (self st)); [|by eexists].
  unfold detach_extended_parents in Hdet.
  apply bind_ok in Hdet as (s & st0 & [= <- <-] & Hdet).
  apply bind_ok in Hdet as (h & st0 & [= <- <-] & Hdet).
  apply bind_ok in Hdet as (eps & st0 & Heps & Hdet).
  unfold lift in Heps. injection Heps as Heps <-.
  assert (same_shape (objs sta) (objs v1)) as Hsh.
  { eapply same_shape_trans; [|by eapply applied_same_shape].
    eapply same_shape_trans; [|by eapply applied_same_shape].
    by eapply same_shape_sym, applied_same_shape. }
  assert (getattr (objs v1) (owner (self v1)) "extended_parents" = Ok eps)
    as Heps1.
  { rewrite Hselfv, Hself, <- Hselfa.
    rewrite (applied_getattr _ _ _ _ _ _ Hupv).
    - rewrite (applied_getattr _ _ _ _ _ _ Hup).
      + rewrite <- Heps. symmetry. apply (applied_getattr _ _ _ _ _ _ Hupa).
        rewrite (parent_targets_loop_plain _ _ _ _ _ Hplain). done.
      + unfold registration_targets. simpl. by rewrite andb_false_r.
    - rewrite parent_targets_loop. done. }
  destruct (add_after_discard _ _ _ _ _ _ v1 Hdet Hsh) as [v2 Hext].
  unfold attach_extended_parents.
  rewrite (bind_run get_self _ v1 v1 (self v1) eq_refl).
  rewrite (bind_run get_heap _ v1 v1 (objs v1) eq_refl).
  rewrite (bind_run (lift _) _ v1 v1 eps) by (unfold lift; by rewrite Heps1).
  rewrite Hselfv, Hself, <- Hselfa. by eexists.
Qed.

Lemma detach_attach_same (st st1 st2 : gstate) :
  (∀ p, p ∈ itervalues (items (self st)) →
        isinstance (objs st) p ContainerBaseT = false) →
  (∀ y b, registration_targets (objs st) (self st) y b = true →
          owner (self st) ∈ attr_set (objs st) y b) →
  detach_parents st = (Ok tt, st1) →
  attach_parents st1 = (Ok tt, st2) →
  (∀ y b, registration_targets (objs st) (self st) y b = true →
          owner (self st) ∉ attr_set (objs st1) y b)
  ∧ st2 = st.
Proof.
  intros Hplain Hreg Hdet Hatt.
  apply detach_parents_ok in Hdet as [Hself1 Hup1]; [|done].
  apply attach_parents_ok in Hatt as [Hself2 Hup2].
  rewrite Hself1 in Hup2. split.
  - intros y b HT. rewrite (applied_attr_set _ _ _ _ y b Hup1), HT.
    set_solver.
  - assert (objs st2 = objs st) as Hobjs.
    { apply heap_ext.
      - eapply same_objects_trans; [apply Hup1|apply Hup2].
      - intros y b.
        rewrite (proj1 (proj2 Hup2) y b), (proj1 (proj2 Hup1) y b).
        rewrite (registration_targets_stable _ _ _ _ y b Hup1).
        destruct (registration_targets (objs st) (self st) y b) eqn:HT.
        + specialize (Hreg y b HT). unfold attr_set in Hreg.
          destruct (getattr (objs st) y b) as [s|]; [|done]. f_equal.
          apply set_eq. intros x. rewrite elem_of_union, elem_of_difference,
            elem_of_singleton. destruct (decide (x = owner (self st))) as [->|];
            tauto.
        + by destruct (getattr (objs st) y b). }
    destruct st, st2. simpl in *. congruence.
Qed.

(** X15: when [attach_parents] returns, it has added the owner to the
    [children] of every bound Variable and of every Variable of a bound
    container and, for an owner with a log-probability, to the
    [extended_children] of every Stochastic among its extended parents; all
    these sets existed, every other attribute is as it was, and the binding
    map itself is unchanged. *)
Theorem attach_parents_registers (st st' : gstate) :
  attach_parents st = (Ok tt, st') →
  self st' = self st
  ∧ applied (λ s, s ∪ {[owner (self st)]})
            (registration_targets (objs st) (self st))
            (objs st) (objs st').
Proof. apply attach_parents_ok. Qed.

(** X16: when no bound parent is a container, [detach_parents] that returns
    has taken the owner out of the same sets: the [children] of every bound
    Variable and, for an owner with a log-probability, the
    [extended_children] of every Stochastic among its extended parents;
    every other attribute is as it was. *)
Theorem detach_parents_unregisters (st st' : gstate) :
  (∀ p, p ∈ itervalues (items (self st)) →
        isinstance (objs st) p ContainerBaseT = false) →
  detach_parents st = (Ok tt, st') →
  self st' = self st
  ∧ applied (λ s, s ∖ {[owner (self st)]})
            (registration_targets (objs st) (self st))
            (objs st) (objs st').
Proof. apply detach_parents_ok. Qed.

(** X17: detaching and attaching again is a round trip.  When no bound
    parent is a container and the owner was registered wherever
    [attach_parents] registers it, [detach_parents] that returns leaves the
    owner in none of these sets, and [attach_parents] then returns and gives
    back the state the two started from. *)
Theorem detach_attach_round_trip (st st1 : gstate) :
  (∀ p, p ∈ itervalues (items (self st)) →
        isinstance (objs st) p ContainerBaseT = false) →
  (∀ y b, registration_targets (objs st) (self st) y b = true →
          owner (self st) ∈ attr_set (objs st) y b) →
  detach_parents st = (Ok tt, st1) →
  (∀ y b, registration_targets (objs st) (self st) y b = true →
          owner (self st) ∉ attr_set (objs st1) y b)
  ∧ attach_parents st1 = (Ok tt, st).
Proof.
  intros Hplain Hreg Hdet.
  destruct (attach_after_detach _ _ Hplain Hdet) as [st2 Hatt].
  destruct (detach_attach_same _ _ _ Hplain Hreg Hdet Hatt) as [Hout ->].
  done.
Qed.

(** ** Rebinding *)

(** X18: rebinding a key that is not bound raises [KeyError] before anything
    is changed. *)
Theorem setitem_unbound_key `{Evaluator} (key : string) (new_parent : ref)
    (st : gstate) :
  items (self st) !! key = None →
  setitem key new_parent st = (Raise (KeyError key), st).
Proof.
  intros Hk. unfold setitem.
  rewrite (bind_run get_self _ st st (self st) eq_refl). by rewrite Hk.
Qed.

(** A step that leaves the binding map alone and the heap in its shape. *)
Lemma for_each_same_shape (l : list ref) (body : ref → M unit) :
  (∀ e st st', body e st = (Ok tt, st') →
               self st' = self st ∧ same_shape (objs st) (objs st')) →
  ∀ st st', for_each l body st = (Ok tt, st') →
            self st' = self st ∧ same_shape (objs st) (objs st').
Proof.
  intros Hbody. induction l as [|e l IH]; intros st st' Hrun; simpl in Hrun.
  - injection Hrun as <-. split; [done|]. by split.
  - apply bind_ok in Hrun as ([] & st1 & Hb & Hrest).
    destruct (Hbody _ _ _ Hb) as [Hs1 Hsh1].
    destruct (IH _ _ Hrest) as [Hs2 Hsh2].
    split; [congruence|]. by eapply same_shape_trans.
Qed.

Lemma val_keys_remove_ok (key : string) (st st' : gstate) :
  val_keys_remove key st = (Ok tt, st') →
  ∃ vk, list_remove key (val_keys (self st)) = Some vk
        ∧ st' = mkState (objs st)
                  (mkParentDict (items (self st)) (owner (self st))
                     (has_logp (self st)) (variables (self st)) vk
                     (nonval_keys (self st))).
Proof.
  unfold val_keys_remove. cbv [mbind ST_bind get_self put_self raise].
  destruct (list_remove key (val_keys (self st))) as [vk|]; [|done].
  intros [= <-]. by exists vk.
Qed.

Lemma nonval_keys_remove_ok (key : string) (st st' : gstate) :
  nonval_keys_remove key st = (Ok tt, st') →
  ∃ nk, list_remove key (nonval_keys (self st)) = Some nk
        ∧ st' = mkState (objs st)
                  (mkParentDict (items (self st)) (owner (self st))
                     (has_logp (self st)) (variables (self st))
                     (val_keys (self st)) nk).
Proof.
  unfold nonval_keys_remove. cbv [mbind ST_bind get_self put_self raise].
  destruct (list_remove key (nonval_keys (self st))) as [nk|]; [|done].
  intros [= <-]. by exists nk.
Qed.

Section Rebinding.
Context `{Evaluator}.

Lemma conditional_remove_same_shape (o : ref) (d : gmap string ref)
    (e : ref) (st st' : gstate) :
  (if decide (count_is d e = 1) then attr_remove e "children" o
   else mret tt) st = (Ok tt, st') →
  self st' = self st ∧ same_shape (objs st) (objs st').
Proof.
  case_decide.
  - intros (Hs & _ & Hup)%attr_remove_ok. split; [done|].
    by eapply applied_same_shape.
  - intros [= <-]. split; [done|]. by split.
Qed.

Lemma optional_same_shape (c : bool) (m : M unit) (st st' : gstate) :
  (∀ st st', m st = (Ok tt, st') →
             self st' = self st ∧ same_shape (objs st) (objs st')) →
  (if c then m else mret tt) st = (Ok tt, st') →
  self st' = self st ∧ same_shape (objs st) (objs st').
Proof.
  intros Hm. destruct c; [apply Hm|]. intros [= <-]. split; [done|]. by split.
Qed.

Lemma detach_extended_same_shape (st st' : gstate) :
  detach_extended_parents st = (Ok tt, st') →
  self st' = self st ∧ same_shape (objs st) (objs st').
Proof.
  intros [Hs Hup]%detach_extended_parents_ok. split; [done|].
  by eapply applied_same_shape.
Qed.

Lemma attach_extended_same_shape (st st' : gstate) :
  attach_extended_parents st = (Ok tt, st') →
  self st' = self st ∧ same_shape (objs st) (objs st').
Proof.
  intros [Hs Hup]%attach_extended_parents_ok. split; [done|].
  by eapply applied_same_shape.
Qed.

(** The first half of [__setitem__], as far as the binding map and the shape
    of the heap go. *)
Lemma setitem_old_ok (key : string) (old_parent : ref) (st st' : gstate) :
  setitem_old key old_parent st = (Ok tt, st') →
  same_shape (objs st) (objs st')
  ∧ ∃ vk nk,
      old_keys (is_val (objs st) old_parent) key
        (val_keys (self st)) (nonval_keys (self st)) = Some (vk, nk)
      ∧ self st' = mkParentDict (items (self st)) (owner (self st))
                     (has_logp (self st)) (variables (self st)) vk nk.
Proof.
  unfold setitem_old, isinstanceM, getattrM, is_val, old_keys. intros Hrun.
  apply bind_ok in Hrun as (s & st0 & [= <- <-] & Hrun).
  apply bind_ok in Hrun as (iv & st0 & Hiv & Hrun).
  apply bind_ok in Hiv as (h & st00 & [= <- <-] & [= <- <-]).
  apply bind_ok in Hrun as (ic & st0 & Hic & Hrun).
  apply bind_ok in Hic as (h & st00 & [= <- <-] & [= <- <-]).
  destruct (isinstance (objs st) old_parent VariableT
            || isinstance (objs st) old_parent ContainerBaseT) eqn:Hval.
  - apply bind_ok in Hrun as ([] & st1 & Hdet & Hrun).
    apply (optional_same_shape _ _ _ _ detach_extended_same_shape) in Hdet
      as [Hs1 Hsh1].
    apply bind_ok in Hrun as ([] & st2 & Hvr & Hrun).
    apply val_keys_remove_ok in Hvr as (vk & Hvk & ->).
    apply bind_ok in Hrun as ([] & st3 & Hna & Hrun).
    unfold nonval_keys_append in Hna.
    cbv [mbind ST_bind get_self put_self] in Hna. injection Hna as <-.
    simpl in Hrun.
    apply bind_ok in Hrun as ([] & st4 & Hrem & Hrun).
    assert (self st4 = self {| objs := objs st1; self := mkParentDict (items (self st1)) (owner (self st1)) (has_logp (self st1)) (variables (self st1)) vk (nonval_keys (self st1) ++ [key]) |}
            ∧ same_shape (objs st1) (objs st4)) as [Hs4 Hsh4].
    { destruct (isinstance (objs st) old_parent VariableT).
      - by apply conditional_remove_same_shape in Hrem.
      - injection Hrem as <-. split; [done|]. by split. }
    assert (self st' = self st4 ∧ same_shape (objs st4) (objs st'))
      as [Hs5 Hsh5].
    { destruct (isinstance (objs st) old_parent ContainerBaseT).
      - apply bind_ok in Hrun as (vs & st5 & Hvs & Hrun).
        apply bind_ok in Hvs as (h & st00 & [= <- <-] & Hvs).
        unfold lift in Hvs. injection Hvs as _ <-.
        apply for_each_same_shape in Hrun; [done|].
        intros e sa sb. apply conditional_remove_same_shape.
      - injection Hrun as <-. split; [done|]. by split. }
    split.
    + eapply same_shape_trans; [exact Hsh1|].
      by eapply same_shape_trans.
    + exists vk, (nonval_keys (self st) ++ [key])%list. rewrite <- Hs1, Hvk.
      split; [done|]. rewrite Hs5, Hs4. simpl. by rewrite Hs1.
  - injection Hrun as <-. split; [by split|].
    exists (val_keys (self st)), (nonval_keys (self st)). split; [done|].
    by destruct (self st).
Qed.

(** The second half, likewise. *)
Lemma setitem_new_ok (key : string) (new_parent : ref) (st st' : gstate) :
  setitem_new key new_parent st = (Ok tt, st') →
  same_shape (objs st) (objs st')
  ∧ ∃ vk nk,
      new_keys (is_val (objs st) new_parent) key
        (val_keys (self st)) (nonval_keys (self st)) = Some (vk, nk)
      ∧ self st' = mkParentDict (items (self st)) (owner (self st))
                     (has_logp (self st)) (variables (self st)) vk nk.
Proof.
  unfold setitem_new, isinstanceM, getattrM, is_val, new_keys. intros Hrun.
  apply bind_ok in Hrun as (s & st0 & [= <- <-] & Hrun).
  apply bind_ok in Hrun as (iv & st0 & Hiv & Hrun).
  apply bind_ok in Hiv as (h & st00 & [= <- <-] & [= <- <-]).
  apply bind_ok in Hrun as (ic & st0 & Hic & Hrun).
  apply bind_ok in Hic as (h & st00 & [= <- <-] & [= <- <-]).
  destruct (isinstance (objs st) new_parent VariableT
            || isinstance (objs st) new_parent ContainerBaseT) eqn:Hval.
  - apply bind_ok in Hrun as ([] & st1 & Hva & Hrun).
    unfold val_keys_append in Hva.
    cbv [mbind ST_bind get_self put_self] in Hva. injection Hva as <-.
    apply bind_ok in Hrun as ([] & st2 & Hnr & Hrun).
    apply nonval_keys_remove_ok in Hnr as (nk & Hnk & ->). simpl in *.
    assert (self st' = mkParentDict (items (self st)) (owner (self st))
                         (has_logp (self st)) (variables (self st))
                         (val_keys (self st) ++ [key]) nk
            ∧ same_shape (objs st) (objs st')) as [Hs Hsh].
    { destruct (isinstance (objs st) new_parent VariableT).
      - apply attr_add_ok in Hrun as [Hs Hup]. split; [done|].
        by eapply applied_same_shape.
      - destruct (isinstance (objs st) new_parent ContainerBaseT).
        + apply bind_ok in Hrun as (vs & st5 & Hvs & Hrun).
          apply bind_ok in Hvs as (h & st00 & [= <- <-] & Hvs).
          unfold lift in Hvs. injection Hvs as _ <-.
          apply for_each_same_shape in Hrun; [done|].
          intros e sa sb [Hs Hup]%attr_add_ok. split; [done|].
          by eapply applied_same_shape.
        + injection Hrun as <-. split; [done|]. by split. }
    split; [done|]. exists (val_keys (self st) ++ [key])%list, nk.
    by rewrite Hnk.
  - injection Hrun as <-. split; [by split|].
    exists (val_keys (self st)), (nonval_keys (self st)). split; [done|].
    by destruct (self st).
Qed.

(** [setattr] keeps the objects and touches one attribute. *)
Lemma setattr_same_objects (h : heap) (x : ref) (a : string) (s : gset ref) :
  same_objects h (setattr h x a s).
Proof.
  intros y. unfold setattr. destruct (h !! x) as [o|] eqn:Ho; [|done].
  destruct (decide (y = x)) as [->|Hy].
  - by rewrite lookup_insert_eq, Ho.
  - by rewrite lookup_insert_ne.
Qed.

Lemma getattr_setattr_other (h : heap) (x y : ref) (a b : string)
    (s : gset ref) :
  (y, b) ≠ (x, a) → getattr (setattr h x a s) y b = getattr h y b.
Proof.
  intros Hne. unfold getattr, setattr.
  destruct (h !! x) as [o|] eqn:Ho; [|done].
  destruct (decide (y = x)) as [->|Hy].
  - rewrite lookup_insert_eq, Ho. simpl.
    rewrite lookup_insert_ne; [done|]. congruence.
  - by rewrite lookup_insert_ne.
Qed.

Lemma getattr_setattr_same (h : heap) (x : ref) (a : string) (s : gset ref) :
  is_Some (h !! x) → getattr (setattr h x a s) x a = Ok s.
Proof.
  intros [o Ho]. unfold getattr, setattr. rewrite Ho.
  rewrite lookup_insert_eq. simpl. by rewrite lookup_insert_eq.
Qed.

(** [__setitem__] that returns, step by step. *)
Lemma setitem_ok (key : string) (new_parent : ref) (st st' : gstate) :
  setitem key new_parent st = (Ok tt, st') →
  ∃ old_parent st1 st2 eps st3 vars,
    items (self st) !! key = Some old_parent
    ∧ setitem_old key old_parent st = (Ok tt, st1)
    ∧ setitem_new key new_parent st1 = (Ok tt, st2)
    ∧ extend_parents (objs st2) (elements (variables (self st2))) = Ok eps
    ∧ (if has_logp (self st2) then attach_extended_parents else mret tt)
        (mkState (setattr (objs st2) (owner (self st2)) "extended_parents" eps)
                 (self st2))
      = (Ok tt, st3)
    ∧ file_items (objs st3) (<[key := new_parent]> (items (self st3)))
      = Ok vars
    ∧ gen_lazy_function (objs st3) (owner (self st3)) = Ok tt
    ∧ st' = mkState (objs st3)
              (mkParentDict (<[key := new_parent]> (items (self st3)))
                 (owner (self st3)) (has_logp (self st3)) vars
                 (val_keys (self st3)) (nonval_keys (self st3))).
Proof.
  unfold setitem. intros Hrun.
  apply bind_ok in Hrun as (s & st0 & [= <- <-] & Hrun).
  apply bind_ok in Hrun as (old_parent & st0 & Hold & Hrun).
  destruct (items (self st) !! key) as [p|] eqn:Hkey; [|done].
  injection Hold as <- <-.
  apply bind_ok in Hrun as ([] & st1 & Hso & Hrun).
  apply bind_ok in Hrun as ([] & st2 & Hsn & Hrun).
  apply bind_ok in Hrun as (s2 & st0 & [= <- <-] & Hrun).
  apply bind_ok in Hrun as (h2 & st0 & [= <- <-] & Hrun).
  apply bind_ok in Hrun as (eps & st0 & Heps & Hrun).
  unfold lift in Heps. injection Heps as Heps <-.
  apply bind_ok in Hrun as ([] & st0 & [= <-] & Hrun).
  apply bind_ok in Hrun as ([] & st3 & Hatt & Hrun).
  apply bind_ok in Hrun as (s3 & st0 & [= <- <-] & Hrun).
  apply bind_ok in Hrun as ([] & st0 & [= <-] & Hrun).
  apply bind_ok in Hrun as (h3 & st0 & [= <- <-] & Hrun).
  apply bind_ok in Hrun as (vars & st0 & Hvars & Hrun).
  unfold lift in Hvars. injection Hvars as Hvars <-. simpl in *.
  apply bind_ok in Hrun as ([] & st0 & [= <-] & Hrun).
  unfold lift in Hrun. injection Hrun as Hgen <-. simpl in *.
  exists p, st1, st2, eps, st3, vars. split_and!; done.
Qed.

Lemma optional_attach (c : bool) (st st' : gstate) :
  (if c then attach_extended_parents else mret tt) st = (Ok tt, st') →
  self st' = self st
  ∧ applied (λ s, s ∪ {[owner (self st)]})
      (λ y b, c && (bool_decide (b = "extended_children")
                    && extended_targets (objs st) (owner (self st)) y))
      (objs st) (objs st').
Proof.
  destruct c; simpl.
  - apply attach_extended_parents_ok.
  - intros [= <-]. split; [done|]. apply applied_refl.
Qed.

Lemma optional_detach (c : bool) (st st' : gstate) :
  (if c then detach_extended_parents else mret tt) st = (Ok tt, st') →
  self st' = self st
  ∧ applied (λ s, s ∖ {[owner (self st)]})
      (λ y b, c && (bool_decide (b = "extended_children")
                    && extended_targets (objs st) (owner (self st)) y))
      (objs st) (objs st').
Proof.
  destruct c; simpl.
  - apply detach_extended_parents_ok.
  - intros [= <-]. split; [done|]. apply applied_refl.
Qed.

Lemma setitem_binding_ok (key : string) (new_parent : ref)
    (st st' : gstate) :
  setitem key new_parent st = (Ok tt, st') →
  is_Some (items (self st) !! key)
  ∧ items (self st') = <[key := new_parent]> (items (self st))
  ∧ owner (self st') = owner (self st)
  ∧ has_logp (self st') = has_logp (self st)
  ∧ file_items (objs st') (items (self st')) = Ok (variables (self st'))
  ∧ same_objects (objs st) (objs st').
Proof.
  intros (old & st1 & st2 & eps & st3 & vars & Hkey & Hold & Hnew & Heps
          & Hatt & Hvars & Hgen & ->)%setitem_ok.
  apply setitem_old_ok in Hold as (Hsh1 & vk1 & nk1 & _ & Hs1).
  apply setitem_new_ok in Hnew as (Hsh2 & vk2 & nk2 & _ & Hs2).
  apply optional_attach in Hatt as [Hs3 Hup3]. simpl in *.
  rewrite Hs3, Hs2, Hs1. simpl. split_and!; try done.
  - by rewrite Hs3, Hs2, Hs1 in Hvars.
  - eapply same_objects_trans; [apply Hsh1|].
    eapply same_objects_trans; [apply Hsh2|].
    eapply same_objects_trans; [apply setattr_same_objects|apply Hup3].
Qed.

(** X19: a rebinding that returns has stored the new parent under the key,
    which was bound before; the other bindings, the owner and [has_logp] are
    as they were, [variables] is filed afresh from the new bindings, and the
    heap holds the same objects. *)
Theorem setitem_stores_binding (key : string) (new_parent : ref)
    (st st' : gstate) :
  setitem key new_parent st = (Ok tt, st') →
  is_Some (items (self st) !! key)
  ∧ items (self st') = <[key := new_parent]> (items (self st))
  ∧ owner (self st') = owner (self st)
  ∧ has_logp (self st') = has_logp (self st)
  ∧ file_items (objs st') (items (self st')) = Ok (variables (self st'))
  ∧ same_objects (objs st) (objs st').
Proof. apply setitem_binding_ok. Qed.

(** X20: after a rebinding that returns, an owner with a log-probability
    is among the extended children of every Stochastic that its
    [extended_parents] now holds. *)
Theorem setitem_keeps_owner_registered (key : string) (new_parent : ref)
    (st st' : gstate) :
  has_logp (self st) = true →
  setitem key new_parent st = (Ok tt, st') →
  ∀ e, e ∈ attr_set (objs st') (owner (self st)) "extended_parents" →
       isinstance (objs st') e StochasticBaseT = true →
       owner (self st) ∈ attr_set (objs st') e "extended_children".
Proof.
  intros Hlogp (old & st1 & st2 & eps & st3 & vars & Hkey & Hold & Hnew & Heps
          & Hatt & Hvars & Hgen & ->)%setitem_ok e.
  apply setitem_old_ok in Hold as (Hsh1 & vk1 & nk1 & _ & Hs1).
  apply setitem_new_ok in Hnew as (Hsh2 & vk2 & nk2 & _ & Hs2).
  assert (has_logp (self st2) = true ∧ owner (self st2) = owner (self st))
    as [Hl2 Ho2] by (by rewrite Hs2, Hs1).
  rewrite Hl2, Ho2 in Hatt.
  apply attach_extended_parents_ok in Hatt as [Hs3 Hup3]. simpl in *.
  rewrite Ho2 in Hup3.
  rewrite (applied_attr_set _ _ _ _ _ "extended_parents" Hup3). simpl.
  rewrite (same_objects_isinstance _ _ _ _ (proj1 Hup3)).
  intros Hin He.
  rewrite (applied_attr_set _ _ _ _ e "extended_children" Hup3). simpl.
  unfold extended_targets. rewrite bool_decide_eq_true_2 by done.
  rewrite He. simpl. set_solver.
Qed.

Lemma setitem_old_children (key : string) (old_parent : ref)
    (st st' : gstate) :
  isinstance (objs st) old_parent ContainerBaseT = false →
  setitem_old key old_parent st = (Ok tt, st') →
  (isinstance (objs st) old_parent VariableT = true →
   count_is (items (self st)) old_parent = 1 →
   owner (self st) ∈ attr_set (objs st) old_parent "children")
  ∧ ∀ y, getattr (objs st') y "children"
         = match getattr (objs st) y "children" with
           | Ok s =>
               Ok (if isinstance (objs st) old_parent VariableT
                      && bool_decide (count_is (items (self st)) old_parent = 1)
                      && bool_decide (y = old_parent)
                   then s ∖ {[owner (self st)]} else s)
           | Raise e => Raise e
           end.
Proof.
  unfold setitem_old, isinstanceM, getattrM. intros Hc Hrun.
  apply bind_ok in Hrun as (s & st0 & [= <- <-] & Hrun).
  apply bind_ok in Hrun as (iv & st0 & Hiv & Hrun).
  apply bind_ok in Hiv as (h & st00 & [= <- <-] & [= <- <-]).
  apply bind_ok in Hrun as (ic & st0 & Hic & Hrun).
  apply bind_ok in Hic as (h & st00 & [= <- <-] & [= <- <-]).
  rewrite Hc, orb_false_r in Hrun.
  destruct (isinstance (objs st) old_parent VariableT) eqn:Hv; simpl.
  - apply bind_ok in Hrun as ([] & st1 & Hdet & Hrun).
    apply optional_detach in Hdet as [Hs1 Hup1].
    apply bind_ok in Hrun as ([] & st2 & Hvr & Hrun).
    apply val_keys_remove_ok in Hvr as (vk & Hvk & ->).
    apply bind_ok in Hrun as ([] & st3 & Hna & Hrun).
    unfold nonval_keys_append in Hna.
    cbv [mbind ST_bind get_self put_self] in Hna. injection Hna as <-.
    simpl in Hrun.
    apply bind_ok in Hrun as ([] & st4 & Hrem & Hrun).
    injection Hrun as <-.
    assert (∀ y, getattr (objs st1) y "children"
                 = getattr (objs st) y "children") as Hframe.
    { intros y. apply (applied_getattr _ _ _ _ _ _ Hup1). simpl.
      by rewrite andb_false_r. }
    case_decide as Hcount.
    + apply attr_remove_ok in Hrem as (_ & Hin & Hup). simpl in *. split.
      * intros _ _. unfold attr_set. rewrite <- Hframe. exact Hin.
      * intros y. rewrite (proj1 (proj2 Hup) y "children"), Hframe.
        rewrite (bool_decide_eq_true_2 (count_is _ _ = 1)) by done.
        rewrite (bool_decide_eq_true_2 ("children" = "children")) by done.
        by rewrite andb_true_r.
    + injection Hrem as <-. simpl. split; [done|]. intros y. rewrite Hframe.
      rewrite (bool_decide_eq_false_2 (count_is _ _ = 1)) by done.
      by destruct (getattr (objs st) y "children").
  - injection Hrun as <-. split; [done|]. intros y.
    by destruct (getattr (objs st) y "children").
Qed.

Lemma setitem_new_children (key : string) (new_parent : ref)
    (st st' : gstate) :
  isinstance (objs st) new_parent ContainerBaseT = false →
  setitem_new key new_parent st = (Ok tt, st') →
  ∀ y, getattr (objs st') y "children"
       = match getattr (objs st) y "children" with
         | Ok s =>
             Ok (if isinstance (objs st) new_parent VariableT
                    && bool_decide (y = new_parent)
                 then s ∪ {[owner (self st)]} else s)
         | Raise e => Raise e
         end.
Proof.
  unfold setitem_new, isinstanceM, getattrM. intros Hc Hrun.
  apply bind_ok in Hrun as (s & st0 & [= <- <-] & Hrun).
  apply bind_ok in Hrun as (iv & st0 & Hiv & Hrun).
  apply bind_ok in Hiv as (h & st00 & [= <- <-] & [= <- <-]).
  apply bind_ok in Hrun as (ic & st0 & Hic & Hrun).
  apply bind_ok in Hic as (h & st00 & [= <- <-] & [= <- <-]).
  rewrite Hc, orb_false_r in Hrun.
  destruct (isinstance (objs st) new_parent VariableT) eqn:Hv; simpl.
  - apply bind_ok in Hrun as ([] & st1 & Hva & Hrun).
    unfold val_keys_append in Hva.
    cbv [mbind ST_bind get_self put_self] in Hva. injection Hva as <-.
    apply bind_ok in Hrun as ([] & st2 & Hnr & Hrun).
    apply nonval_keys_remove_ok in Hnr as (nk & Hnk & ->). simpl in *.
    apply attr_add_ok in Hrun as [_ Hup]. simpl in *. intros y.
    rewrite (proj1 (proj2 Hup) y "children").
    rewrite (bool_decide_eq_true_2 ("children" = "children")) by done.
    by rewrite andb_true_r.
  - injection Hrun as <-. intros y.
    by destruct (getattr (objs st) y "children").
Qed.

(** X21: a rebinding between parents that are not containers, when it
    returns, has changed the [children] sets in two places at most: the
    owner has left the children of the old parent if that is a Variable
    bound by this key alone, and has joined the children of the new parent
    if that is a Variable.  For the first the owner had to be among the
    children of the old parent. *)
Theorem setitem_children (key : string) (old_parent new_parent : ref)
    (st st' : gstate) :
  items (self st) !! key = Some old_parent →
  isinstance (objs st) old_parent ContainerBaseT = false →
  isinstance (objs st) new_parent ContainerBaseT = false →
  setitem key new_parent st = (Ok tt, st') →
  (isinstance (objs st) old_parent VariableT = true →
   count_is (items (self st)) old_parent = 1 →
   owner (self st) ∈ attr_set (objs st) old_parent "children")
  ∧ ∀ y, getattr (objs st') y "children"
         = match getattr (objs st) y "children" with
           | Ok s => Ok (rebound_children (objs st) (items (self st))
                           (owner (self st)) old_parent new_parent y s)
           | Raise e => Raise e
           end.
Proof.
  intros Hkey Hco Hcn
    (old & st1 & st2 & eps & st3 & vars & Hkey' & Hold & Hnew & Heps
     & Hatt & Hvars & Hgen & ->)%setitem_ok.
  assert (old = old_parent) as -> by congruence.
  pose proof (setitem_old_ok _ _ _ _ Hold) as (Hsh1 & vk1 & nk1 & _ & Hs1).
  pose proof (setitem_new_ok _ _ _ _ Hnew) as (Hsh2 & vk2 & nk2 & _ & Hs2).
  apply setitem_old_children in Hold as [Hin Hch1]; [|done].
  assert (isinstance (objs st1) new_parent ContainerBaseT = false) as Hcn1
    by (by rewrite (same_objects_isinstance _ _ _ _ (proj1 Hsh1))).
  pose proof (setitem_new_children _ _ _ _ Hcn1 Hnew) as Hch2.
  apply optional_attach in Hatt as [Hs3 Hup3]. simpl in *.
  split; [done|]. intros y.
  rewrite (applied_getattr _ _ _ _ y "children" Hup3)
    by (simpl; by rewrite andb_false_r).
  rewrite getattr_setattr_other by congruence.
  rewrite Hch2, Hch1.
  rewrite (same_objects_isinstance _ _ _ _ (proj1 Hsh1)).
  rewrite Hs1. simpl. unfold rebound_children.
  by destruct (getattr (objs st) y "children").
Qed.

Lemma list_remove_spec (k : string) (l l' : list string) :
  list_remove k l = Some l' → NoDup l →
  k ∈ l ∧ NoDup l' ∧ ∀ x, x ∈ l' ↔ x ∈ l ∧ x ≠ k.
Proof.
  revert l'. induction l as [|y l IH]; intros l' Hrem Hnd; simpl in Hrem;
    [done|].
  apply NoDup_cons in Hnd as [Hy Hnd]. case_decide as Hk.
  - injection Hrem as <-. subst y. split; [left|]. split; [done|].
    intros x. rewrite elem_of_cons. split.
    + intros Hx. split; [by right|]. by intros ->.
    + intros [[->|Hx] Hne]; done.
  - destruct (list_remove k l) as [l0|] eqn:Hl; [|done]. simpl in Hrem.
    injection Hrem as <-. destruct (IH l0 eq_refl Hnd) as (Hin & Hnd0 & Hm).
    split; [by right|]. split.
    + apply NoDup_cons. split; [|done]. rewrite Hm. tauto.
    + intros x. rewrite !elem_of_cons, Hm. split.
      * intros [->|[Hx Hne]]; [split; [by left|congruence]|].
        split; [by right|done].
      * intros [[->|Hx] Hne]; [by left|]. by right.
Qed.

Lemma is_val_same_objects (h h' : heap) (v : ref) :
  same_objects h h' → is_val h' v = is_val h v.
Proof.
  intros Hs. unfold is_val. by rewrite !(same_objects_isinstance _ _ _ _ Hs).
Qed.

(** X22: a rebinding that returns keeps the key lists in step with the
    bindings: if [val_keys] and [nonval_keys] listed the keys by the kind of
    what they bind before, they do so after. *)
Theorem setitem_keeps_keys_filed (key : string) (new_parent : ref)
    (st st' : gstate) :
  keys_filed (objs st) (self st) →
  setitem key new_parent st = (Ok tt, st') →
  keys_filed (objs st') (self st').
Proof.
  intros (Hndv & Hndn & Hfiled) Hrun.
  pose proof (setitem_binding_ok _ _ _ _ Hrun)
    as (_ & Hitems & _ & _ & _ & Hobjs).
  apply setitem_ok in Hrun
    as (old & st1 & st2 & eps & st3 & vars & Hkey & Hold & Hnew & Heps
        & Hatt & Hvars & Hgen & ->).
  apply setitem_old_ok in Hold as (Hsh1 & vk1 & nk1 & Hk1 & Hs1).
  apply setitem_new_ok in Hnew as (Hsh2 & vk2 & nk2 & Hk2 & Hs2).
  apply optional_attach in Hatt as [Hs3 Hup3]. simpl in *.
  rewrite (is_val_same_objects _ _ _ (proj1 Hsh1)) in Hk2.
  rewrite Hs1 in Hk2. simpl in Hk2.
  assert (val_keys (self st3) = vk2 ∧ nonval_keys (self st3) = nk2
          ∧ items (self st3) = items (self st)) as (-> & -> & Hit).
  { rewrite Hs3, Hs2, Hs1. done. }
  rewrite Hit.
  assert (∀ k v, (<[key := new_parent]> (items (self st)) !! k = Some v
                  ↔ (k = key ∧ v = new_parent)
                    ∨ (k ≠ key ∧ items (self st) !! k = Some v))) as Hins.
  { intros k v. destruct (decide (k = key)) as [->|Hne].
    - rewrite lookup_insert_eq. split.
      + intros [= <-]. by left.
      + intros [[_ ->]|[? _]]; done.
    - rewrite lookup_insert_ne by done. split; [by right|].
      intros [[? _]|[_ ?]]; done. }
  assert (∀ v, is_val (objs st3) v = is_val (objs st) v) as Hval.
  { intros v. apply is_val_same_objects.
    eapply same_objects_trans; [apply Hsh1|].
    eapply same_objects_trans; [apply Hsh2|].
    eapply same_objects_trans; [apply setattr_same_objects|apply Hup3]. }
  unfold keys_filed. simpl. setoid_rewrite Hval. setoid_rewrite Hins.
  assert (key ∈ val_keys (self st) ↔ is_val (objs st) old = true) as Hkv.
  { rewrite (proj1 (Hfiled key)). split.
    - intros (v & Hv & ?). congruence.
    - intros ?. by exists old. }
  assert (key ∈ nonval_keys (self st) ↔ is_val (objs st) old = false) as Hkn.
  { rewrite (proj2 (Hfiled key)). split.
    - intros (v & Hv & ?). congruence.
    - intros ?. by exists old. }
  unfold old_keys, new_keys in *.
  destruct (is_val (objs st) old) eqn:Hvo;
    destruct (is_val (objs st) new_parent) eqn:Hvn; simpl in *.
  - destruct (list_remove key (val_keys (self st))) as [vk|] eqn:Hrv;
      [|done]. simpl in Hk1. injection Hk1 as <- <-.
    destruct (list_remove key (nonval_keys (self st) ++ [key])) as [nk|]
      eqn:Hrn; [|done]. simpl in Hk2. injection Hk2 as <- <-.
    destruct (list_remove_spec _ _ _ Hrv Hndv) as (_ & Hnd1 & Hm1).
    assert (key ∉ nonval_keys (self st)) as Hnotin by (rewrite Hkn; done).
    assert (NoDup (nonval_keys (self st) ++ [key])) as Hnd2.
    { apply NoDup_app. split; [done|]. split; [|apply NoDup_singleton].
      intros x Hx ->%list_elem_of_singleton. done. }
    destruct (list_remove_spec _ _ _ Hrn Hnd2) as (_ & Hnd3 & Hm3).
    split_and!.
    + apply NoDup_app. split; [done|]. split; [|apply NoDup_singleton].
      intros x [_ Hx]%Hm1 ->%list_elem_of_singleton. done.
    + done.
    + intros k. split.
      * rewrite elem_of_app, Hm1, list_elem_of_singleton,
          (proj1 (Hfiled k)). split.
        -- intros [[(v & Hv & Hiv) Hne]| ->].
           ++ exists v. split; [by right|done].
           ++ exists new_parent. split; [by left|done].
        -- intros (v & [[-> ->]|[Hne Hv]] & Hiv); [by right|].
           left. split; [by exists v|done].
      * rewrite Hm3, elem_of_app, list_elem_of_singleton,
          (proj2 (Hfiled k)). split.
        -- intros [[(v & Hv & Hiv)| ->] Hne]; [|done].
           exists v. split; [by right|done].
        -- intros (v & [[-> ->]|[Hne Hv]] & Hiv); [congruence|].
           split; [|done]. left. by exists v.
  - destruct (list_remove key (val_keys (self st))) as [vk|] eqn:Hrv;
      [|done]. simpl in Hk1. injection Hk1 as <- <-.
    injection Hk2 as <- <-.
    destruct (list_remove_spec _ _ _ Hrv Hndv) as (_ & Hnd1 & Hm1).
    assert (key ∉ nonval_keys (self st)) as Hnotin by (rewrite Hkn; done).
    split_and!.
    + done.
    + apply NoDup_app. split; [done|]. split; [|apply NoDup_singleton].
      intros x Hx ->%list_elem_of_singleton. done.
    + intros k. split.
      * rewrite Hm1, (proj1 (Hfiled k)). split.
        -- intros [(v & Hv & Hiv) Hne]. exists v. split; [by right|done].
        -- intros (v & [[-> ->]|[Hne Hv]] & Hiv); [congruence|].
           split; [by exists v|done].
      * rewrite elem_of_app, list_elem_of_singleton, (proj2 (Hfiled k)).
        split.
        -- intros [(v & Hv & Hiv)| ->].
           ++ exists v. split; [|done]. right. split; [|done].
              intros ->. apply Hnotin, Hkn. congruence.
           ++ exists new_parent. split; [by left|done].
        -- intros (v & [[-> ->]|[Hne Hv]] & Hiv); [by right|].
           left. by exists v.
  - injection Hk1 as <- <-.
    destruct (list_remove key (nonval_keys (self st))) as [nk|] eqn:Hrn;
      [|done]. simpl in Hk2. injection Hk2 as <- <-.
    destruct (list_remove_spec _ _ _ Hrn Hndn) as (_ & Hnd1 & Hm1).
    assert (key ∉ val_keys (self st)) as Hnotin by (rewrite Hkv; done).
    split_and!.
    + apply NoDup_app. split; [done|]. split; [|apply NoDup_singleton].
      intros x Hx ->%list_elem_of_singleton. done.
    + done.
    + intros k. split.
      * rewrite elem_of_app, list_elem_of_singleton, (proj1 (Hfiled k)).
        split.
        -- intros [(v & Hv & Hiv)| ->].
           ++ exists v. split; [|done]. right. split; [|done].
              intros ->. apply Hnotin, Hkv. congruence.
           ++ exists new_parent. split; [by left|done].
        -- intros (v & [[-> ->]|[Hne Hv]] & Hiv); [by right|].
           left. by exists v.
      * rewrite Hm1, (proj2 (Hfiled k)). split.
        -- intros [(v & Hv & Hiv) Hne]. exists v. split; [by right|done].
        -- intros (v & [[-> ->]|[Hne Hv]] & Hiv); [congruence|].
           split; [by exists v|done].
  - injection Hk1 as <- <-. injection Hk2 as <- <-.
    split_and!; [done|done|]. intros k. split.
    + rewrite (proj1 (Hfiled k)). split.
      * intros (v & Hv & Hiv). exists v. split; [|done]. right.
        split; [|done]. intros ->. congruence.
      * intros (v & [[-> ->]|[Hne Hv]] & Hiv); [congruence|]. by exists v.
    + rewrite (proj2 (Hfiled k)). split.
      * intros (v & Hv & Hiv). destruct (decide (k = key)) as [->|Hne].
        -- exists new_parent. split; [by left|done].
        -- exists v. split; [by right|done].
      * intros (v & [[-> ->]|[Hne Hv]] & Hiv); [by exists old|].
        by exists v.
Qed.
End Rebinding.

(** The sample family meets the hypotheses. *)
Lemma family_values : itervalues (items family_parents) = [1%positive].
Proof. by vm_compute. Qed.

Lemma family_plain (p : ref) :
  p ∈ itervalues (items (self (mkState family family_parents))) →
  isinstance (objs (mkState family family_parents)) p ContainerBaseT = false.
Proof.
  change (p ∈ itervalues (items family_parents)
          → isinstance family p ContainerBaseT = false).
  rewrite family_values. by intros ->%list_elem_of_singleton.
Qed.

Lemma family_targets (y : ref) (b : string) :
  registration_targets family family_parents y b = true →
  y = 1%positive ∧ (b = "children" ∨ b = "extended_children").
Proof.
  unfold registration_targets. rewrite family_values.
  unfold parent_targets, extended_targets.
  change (has_logp family_parents) with true.
  change (owner family_parents) with 3%positive.
  cbn [existsb andb].
  change (isinstance family 1 VariableT) with true. cbn iota.
  assert (attr_set family 3 "extended_parents" = {[1%positive]}) as ->
    by (vm_compute; reflexivity).
  intros [[Hb Hy]%andb_true_iff|[Hb [Hy _]%andb_true_iff]%andb_true_iff]%orb_true_iff.
  - rewrite orb_false_r in Hy. apply bool_decide_eq_true in Hb, Hy. auto.
  - apply bool_decide_eq_true in Hb, Hy.
    apply elem_of_singleton in Hy. auto.
Qed.

Lemma family_registered (y : ref) (b : string) :
  registration_targets (objs (mkState family family_parents))
    (self (mkState family family_parents)) y b = true →
  owner (self (mkState family family_parents))
  ∈ attr_set (objs (mkState family family_parents)) y b.
Proof.
  change (registration_targets family family_parents y b = true
          → 3%positive ∈ attr_set family y b).
  intros [-> [-> | ->]]%family_targets.
  - assert (attr_set family 1 "children" = {[3%positive]}) as ->
      by (vm_compute; reflexivity). set_solver.
  - assert (attr_set family 1 "extended_children" = {[3%positive]}) as ->
      by (vm_compute; reflexivity). set_solver.
Qed.

Lemma attach_parents_registers_witness :
  attach_parents (mkState family boxed_parents)
  = (Ok tt, (attach_parents (mkState family boxed_parents)).2)
  ∧ self (attach_parents (mkState family boxed_parents)).2 = boxed_parents
  ∧ applied (λ s, s ∪ {[3%positive]})
            (registration_targets family boxed_parents)
            family (objs (attach_parents (mkState family boxed_parents)).2).
Proof.
  assert (attach_parents (mkState family boxed_parents)
          = (Ok tt, (attach_parents (mkState family boxed_parents)).2))
    as Hrun by (vm_compute; reflexivity).
  split; [exact Hrun|].
  exact (attach_parents_registers (mkState family boxed_parents) _ Hrun).
Defined.

Lemma detach_parents_unregisters_witness :
  (∀ p, p ∈ itervalues (items (self (mkState family family_parents))) →
        isinstance (objs (mkState family family_parents)) p ContainerBaseT
        = false)
  ∧ detach_parents (mkState family family_parents)
    = (Ok tt, (detach_parents (mkState family family_parents)).2)
  ∧ self (detach_parents (mkState family family_parents)).2 = family_parents
  ∧ applied (λ s, s ∖ {[3%positive]})
            (registration_targets family family_parents)
            family
            (objs (detach_parents (mkState family family_parents)).2).
Proof.
  assert (detach_parents (mkState family family_parents)
          = (Ok tt, (detach_parents (mkState family family_parents)).2))
    as Hrun by (vm_compute; reflexivity).
  split; [exact family_plain|]. split; [exact Hrun|].
  exact (detach_parents_unregisters (mkState family family_parents) _
           family_plain Hrun).
Defined.

Lemma detach_attach_round_trip_witness :
  detach_parents (mkState family family_parents)
  = (Ok tt, (detach_parents (mkState family family_parents)).2)
  ∧ (∀ y b, registration_targets family family_parents y b = true →
            3%positive
            ∉ attr_set (objs (detach_parents
                                (mkState family family_parents)).2) y b)
  ∧ attach_parents (detach_parents (mkState family family_parents)).2
    = (Ok tt, mkState family family_parents).
Proof.
  assert (detach_parents (mkState family family_parents)
          = (Ok tt, (detach_parents (mkState family family_parents)).2))
    as Hrun by (vm_compute; reflexivity).
  split; [exact Hrun|].
  exact (detach_attach_round_trip (mkState family family_parents) _
           family_plain family_registered Hrun).
Defined.

Lemma setitem_unbound_key_witness :
  items (self (mkState family family_parents)) !! "tau" = None
  ∧ setitem (H := quiet_evaluator) "tau" 2 (mkState family family_parents)
    = (Raise (KeyError "tau"), mkState family family_parents).
Proof.
  split; [reflexivity|].
  exact (setitem_unbound_key (H := quiet_evaluator) "tau" 2
           (mkState family family_parents) eq_refl).
Defined.

Lemma family_rebinds :
  setitem (H := quiet_evaluator) "mu" 2 (mkState family family_parents)
  = (Ok tt, family_rebound).
Proof. by vm_compute. Qed.

Lemma setitem_stores_binding_witness :
  setitem (H := quiet_evaluator) "mu" 2 (mkState family family_parents)
  = (Ok tt, family_rebound)
  ∧ is_Some (items family_parents !! "mu")
  ∧ items (self family_rebound) = <["mu" := 2%positive]> (items family_parents)
  ∧ owner (self family_rebound) = 3%positive
  ∧ has_logp (self family_rebound) = true
  ∧ file_items (objs family_rebound) (items (self family_rebound))
    = Ok (variables (self family_rebound))
  ∧ same_objects family (objs family_rebound).
Proof.
  split; [exact family_rebinds|].
  exact (setitem_stores_binding (H := quiet_evaluator) "mu" 2
           (mkState family family_parents) _ family_rebinds).
Defined.

Lemma setitem_keeps_owner_registered_witness :
  has_logp (self (mkState family family_parents)) = true
  ∧ setitem (H := quiet_evaluator) "mu" 2 (mkState family family_parents)
    = (Ok tt, family_rebound)
  ∧ ∀ e, e ∈ attr_set (objs family_rebound) 3 "extended_parents" →
         isinstance (objs family_rebound) e StochasticBaseT = true →
         3%positive ∈ attr_set (objs family_rebound) e "extended_children".
Proof.
  split; [reflexivity|]. split; [exact family_rebinds|].
  exact (setitem_keeps_owner_registered (H := quiet_evaluator) "mu" 2
           (mkState family family_parents) _ eq_refl family_rebinds).
Defined.

Lemma setitem_children_witness :
  items (self (mkState family family_parents)) !! "mu" = Some 1%positive
  ∧ isinstance family 1 ContainerBaseT = false
  ∧ isinstance family 2 ContainerBaseT = false
  ∧ setitem (H := quiet_evaluator) "mu" 2 (mkState family family_parents)
    = (Ok tt, family_rebound)
  ∧ (isinstance family 1 VariableT = true →
     count_is (items family_parents) 1 = 1 →
     3%positive ∈ attr_set family 1 "children")
  ∧ ∀ y, getattr (objs family_rebound) y "children"
         = match getattr family y "children" with
           | Ok s => Ok (rebound_children family (items family_parents)
                           3 1 2 y s)
           | Raise e => Raise e
           end.
Proof.
  split; [reflexivity|]. split; [reflexivity|]. split; [reflexivity|].
  split; [exact family_rebinds|].
  exact (setitem_children (H := quiet_evaluator) "mu" 1 2
           (mkState family family_parents) _ eq_refl eq_refl eq_refl
           family_rebinds).
Defined.

Lemma family_keys_filed : keys_filed family family_parents.
Proof.
  split; [apply NoDup_singleton|]. split; [apply NoDup_nil_2|]. intros k.
  simpl. split.
  - rewrite list_elem_of_singleton. split.
    + intros ->. exists 1%positive. split; reflexivity.
    + intros (v & Hv & _). apply lookup_singleton_Some in Hv as [<- _]. done.
  - split; [by intros ?%elem_of_nil|].
    intros (v & Hv & Hval). apply lookup_singleton_Some in Hv as [<- <-].
    by vm_compute in Hval.
Qed.

Lemma setitem_keeps_keys_filed_witness :
  keys_filed family family_parents
  ∧ setitem (H := quiet_evaluator) "mu" 2 (mkState family family_parents)
    = (Ok tt, family_rebound)
  ∧ keys_filed (objs family_rebound) (self family_rebound).
Proof.
  split; [exact family_keys_filed|]. split; [exact family_rebinds|].
  exact (setitem_keeps_keys_filed (H := quiet_evaluator) "mu" 2
           (mkState family family_parents) _ family_keys_filed
           family_rebinds).
Defined.

(** ** What the rebinding recomputes *)

Lemma registrations_only_refl (h : heap) : registrations_only h h.
Proof. by split. Qed.

Lemma registrations_only_trans (h1 h2 h3 : heap) :
  registrations_only h1 h2 → registrations_only h2 h3 →
  registrations_only h1 h3.
Proof.
  intros [Ho1 Hg1] [Ho2 Hg2]. split; [by eapply same_objects_trans|].
  intros y b Hc He. by rewrite Hg2, Hg1.
Qed.

Lemma applied_registrations_only (op : gset ref → gset ref)
    (P : ref → string → bool) (h h' : heap) :
  (∀ y b, P y b = true → b = "children" ∨ b = "extended_children") →
  applied op P h h' → registrations_only h h'.
Proof.
  intros HP Hup. split; [apply Hup|]. intros y b Hc He.
  eapply applied_getattr; [exact Hup|].
  destruct (P y b) eqn:HPy; [|done]. destruct (HP _ _ HPy); done.
Qed.

Lemma for_in_ext {A S : Type} (l : list A) (f g : A → S → result S) (s : S) :
  (∀ x a, f x a = g x a) → for_in l f s = for_in l g s.
Proof.
  intros Hfg. revert s. induction l as [|x l IH]; intros s; simpl; [done|].
  rewrite Hfg. unbind. destruct (g x s); [apply IH|done].
Qed.

(** [extend_parents] reads no registration. *)
Lemma extend_parents_frame (h h' : heap) (parents : list ref) :
  registrations_only h h' →
  extend_parents h' parents = extend_parents h parents.
Proof.
  intros [Ho Hg]. unfold extend_parents. apply for_in_ext. intros p s.
  unfold extend_parents_body, set_add.
  rewrite (same_objects_hashable _ _ _ Ho), !(same_objects_isinstance _ _ _ _ Ho).
  rewrite !Hg by done.
  assert (∀ l a, for_in l (add_contained h') a = for_in l (add_contained h) a)
    as Hadd.
  { intros l a. apply for_in_ext. intros x a'. unfold add_contained, set_add.
    by rewrite (same_objects_hashable _ _ _ Ho). }
  assert (∀ l a, for_in l (union_contained h') a
                 = for_in l (union_contained h) a) as Huni.
  { intros l a. apply for_in_ext. intros x a'. unfold union_contained.
    by rewrite Hg. }
  unbind. repeat case_match; simplify_eq/=; try done.
  all: rewrite ?Hadd, ?Huni in *; congruence.
Qed.

Lemma for_each_registrations_only (l : list ref) (body : ref → M unit) :
  (∀ e st st', body e st = (Ok tt, st') →
               registrations_only (objs st) (objs st')) →
  ∀ st st', for_each l body st = (Ok tt, st') →
            registrations_only (objs st) (objs st').
Proof.
  intros Hbody. induction l as [|e l IH]; intros st st' Hrun; simpl in Hrun.
  - injection Hrun as <-. apply registrations_only_refl.
  - apply bind_ok in Hrun as ([] & st1 & Hb & Hrest).
    eapply registrations_only_trans; [by eapply Hbody|by apply IH].
Qed.

Lemma children_registration (x y : ref) (b : string) :
  bool_decide (y = x) && bool_decide (b = "children") = true →
  b = "children" ∨ b = "extended_children".
Proof. intros [_ ?%bool_decide_eq_true]%andb_true_iff. by left. Qed.

Section Recomputation.
Context `{Evaluator}.

Lemma conditional_remove_registrations_only (o : ref) (d : gmap string ref)
    (e : ref) (st st' : gstate) :
  (if decide (count_is d e = 1) then attr_remove e "children" o
   else mret tt) st = (Ok tt, st') →
  registrations_only (objs st) (objs st').
Proof.
  case_decide.
  - intros (_ & _ & Hup)%attr_remove_ok.
    eapply applied_registrations_only; [|exact Hup].
    apply children_registration.
  - intros [= <-]. apply registrations_only_refl.
Qed.

Lemma optional_detach_registrations_only (c : bool) (st st' : gstate) :
  (if c then detach_extended_parents else mret tt) st = (Ok tt, st') →
  registrations_only (objs st) (objs st').
Proof.
  intros [_ Hup]%optional_detach.
  eapply applied_registrations_only; [|exact Hup].
  intros y b [_ [?%bool_decide_eq_true _]%andb_true_iff]%andb_true_iff.
  by right.
Qed.

Lemma optional_attach_registrations_only (c : bool) (st st' : gstate) :
  (if c then attach_extended_parents else mret tt) st = (Ok tt, st') →
  registrations_only (objs st) (objs st').
Proof.
  intros [_ Hup]%optional_attach.
  eapply applied_registrations_only; [|exact Hup].
  intros y b [_ [?%bool_decide_eq_true _]%andb_true_iff]%andb_true_iff.
  by right.
Qed.

(** The two halves of [__setitem__] change registrations only. *)
Lemma setitem_old_registrations_only (key : string) (old_parent : ref)
    (st st' : gstate) :
  setitem_old key old_parent st = (Ok tt, st') →
  registrations_only (objs st) (objs st').
Proof.
  unfold setitem_old, isinstanceM, getattrM. intros Hrun.
  apply bind_ok in Hrun as (s & st0 & [= <- <-] & Hrun).
  apply bind_ok in Hrun as (iv & st0 & Hiv & Hrun).
  apply bind_ok in Hiv as (h & st00 & [= <- <-] & [= <- <-]).
  apply bind_ok in Hrun as (ic & st0 & Hic & Hrun).
  apply bind_ok in Hic as (h & st00 & [= <- <-] & [= <- <-]).
  destruct (isinstance (objs st) old_parent VariableT
            || isinstance (objs st) old_parent ContainerBaseT) eqn:Hval.
  - apply bind_ok in Hrun as ([] & st1 & Hdet & Hrun).
    apply optional_detach_registrations_only in Hdet.
    apply bind_ok in Hrun as ([] & st2 & Hvr & Hrun).
    apply val_keys_remove_ok in Hvr as (vk & Hvk & ->).
    apply bind_ok in Hrun as ([] & st3 & Hna & Hrun).
    unfold nonval_keys_append in Hna.
    cbv [mbind ST_bind get_self put_self] in Hna. injection Hna as <-.
    simpl in Hrun.
    apply bind_ok in Hrun as ([] & st4 & Hrem & Hrun).
    assert (registrations_only (objs st1) (objs st4)) as H14.
    { destruct (isinstance (objs st) old_parent VariableT).
      - by apply conditional_remove_registrations_only in Hrem.
      - injection Hrem as <-. apply registrations_only_refl. }
    assert (registrations_only (objs st4) (objs st')) as H45.
    { destruct (isinstance (objs st) old_parent ContainerBaseT).
      - apply bind_ok in Hrun as (vs & st5 & Hvs & Hrun).
        apply bind_ok in Hvs as (h & st00 & [= <- <-] & Hvs).
        unfold lift in Hvs. injection Hvs as _ <-.
        apply for_each_registrations_only in Hrun; [done|].
        intros e sa sb. apply conditional_remove_registrations_only.
      - injection Hrun as <-. apply registrations_only_refl. }
    eapply registrations_only_trans; [exact Hdet|].
    by eapply registrations_only_trans.
  - injection Hrun as <-. apply registrations_only_refl.
Qed.

Lemma setitem_new_registrations_only (key : string) (new_parent : ref)
    (st st' : gstate) :
  setitem_new key new_parent st = (Ok tt, st') →
  registrations_only (objs st) (objs st').
Proof.
  unfold setitem_new, isinstanceM, getattrM. intros Hrun.
  apply bind_ok in Hrun as (s & st0 & [= <- <-] & Hrun).
  apply bind_ok in Hrun as (iv & st0 & Hiv & Hrun).
  apply bind_ok in Hiv as (h & st00 & [= <- <-] & [= <- <-]).
  apply bind_ok in Hrun as (ic & st0 & Hic & Hrun).
  apply bind_ok in Hic as (h & st00 & [= <- <-] & [= <- <-]).
  destruct (isinstance (objs st) new_parent VariableT
            || isinstance (objs st) new_parent ContainerBaseT) eqn:Hval.
  - apply bind_ok in Hrun as ([] & st1 & Hva & Hrun).
    unfold val_keys_append in Hva.
    cbv [mbind ST_bind get_self put_self] in Hva. injection Hva as <-.
    apply bind_ok in Hrun as ([] & st2 & Hnr & Hrun).
    apply nonval_keys_remove_ok in Hnr as (nk & Hnk & ->). simpl in *.
    destruct (isinstance (objs st) new_parent VariableT).
    + apply attr_add_ok in Hrun as [_ Hup].
      eapply applied_registrations_only; [|exact Hup].
      apply children_registration.
    + destruct (isinstance (objs st) new_parent ContainerBaseT).
      * apply bind_ok in Hrun as (vs & st5 & Hvs & Hrun).
        apply bind_ok in Hvs as (h & st00 & [= <- <-] & Hvs).
        unfold lift in Hvs. injection Hvs as _ <-.
        apply for_each_registrations_only in Hrun; [done|].
        intros e sa sb [_ Hup]%attr_add_ok.
        eapply applied_registrations_only; [|exact Hup].
        apply children_registration.
      * injection Hrun as <-. apply registrations_only_refl.
  - injection Hrun as <-. apply registrations_only_refl.
Qed.

(** The recomputation, in general. *)
Lemma setitem_recomputation (key : string) (new_parent : ref)
    (st st' : gstate) :
  is_Some (objs st !! owner (self st)) →
  setitem key new_parent st = (Ok tt, st') →
  ∃ eps, extend_parents (objs st) (elements (variables (self st))) = Ok eps
         ∧ getattr (objs st') (owner (self st)) "extended_parents" = Ok eps
         ∧ ∀ y b, (y, b) ≠ (owner (self st), "extended_parents") →
                  b ≠ "children" → b ≠ "extended_children" →
                  getattr (objs st') y b = getattr (objs st) y b.
Proof.
  intros Howner Hrun.
  apply setitem_ok in Hrun
    as (old_parent & st1 & st2 & eps & st3 & vars
        & Hkey & Hold & Hnew & Heps & Hatt & Hvars & Hgen & ->).
  pose proof (setitem_old_registrations_only _ _ _ _ Hold) as R1.
  pose proof (setitem_new_registrations_only _ _ _ _ Hnew) as R2.
  apply setitem_old_ok in Hold as (_ & vk1 & nk1 & _ & Hs1).
  apply setitem_new_ok in Hnew as (_ & vk2 & nk2 & _ & Hs2).
  pose proof (registrations_only_trans _ _ _ R1 R2) as R12.
  assert (variables (self st2) = variables (self st)) as Hv
    by (rewrite Hs2; simpl; by rewrite Hs1).
  assert (owner (self st2) = owner (self st)) as Ho
    by (rewrite Hs2; simpl; by rewrite Hs1).
  rewrite Hv, (extend_parents_frame _ _ _ R12) in Heps.
  rewrite Ho in Hatt.
  apply optional_attach_registrations_only in Hatt as [_ R3]. simpl in R3.
  exists eps. split; [exact Heps|]. simpl. split.
  - rewrite R3 by done. apply getattr_setattr_same.
    destruct R12 as [Hobj _]. specialize (Hobj (owner (self st))).
    destruct Howner as [o Ho']. rewrite Ho' in Hobj.
    destruct (objs st2 !! owner (self st)); [done|discriminate].
  - intros y b Hne Hc He. rewrite R3 by done.
    rewrite getattr_setattr_other by done. by apply R12.
Qed.

(** X23: the recomputation in [__setitem__] comes before the new binding is
    stored.  After a rebinding that returns, the [extended_parents] of the
    owner are [extend_parents] of the [variables] as they were filed before
    the call, evaluated on the graph as it was before the call; apart from
    this attribute and the registrations in [children] and
    [extended_children], no attribute of any object has changed. *)
Theorem setitem_recomputes_from_old_bindings (key : string)
    (new_parent : ref) (st st' : gstate) :
  is_Some (objs st !! owner (self st)) →
  setitem key new_parent st = (Ok tt, st') →
  ∃ eps, extend_parents (objs st) (elements (variables (self st))) = Ok eps
         ∧ getattr (objs st') (owner (self st)) "extended_parents" = Ok eps
         ∧ ∀ y b, (y, b) ≠ (owner (self st), "extended_parents") →
                  b ≠ "children" → b ≠ "extended_children" →
                  getattr (objs st') y b = getattr (objs st) y b.
Proof. apply setitem_recomputation. Qed.

End Recomputation.

Lemma setitem_recomputes_from_old_bindings_witness :
  is_Some (family !! 3%positive)
  ∧ setitem (H := quiet_evaluator) "mu" 2 (mkState family family_parents)
    = (Ok tt, family_rebound)
  ∧ ∃ eps, extend_parents family (elements (variables family_parents)) = Ok eps
           ∧ getattr (objs family_rebound) 3 "extended_parents" = Ok eps
           ∧ ∀ y b, (y, b) ≠ (3%positive, "extended_parents") →
                    b ≠ "children" → b ≠ "extended_children" →
                    getattr (objs family_rebound) y b = getattr family y b.
Proof.
  assert (is_Some (family !! 3%positive)) as Ho
    by (eexists; vm_compute; reflexivity).
  split; [exact Ho|]. split; [exact family_rebinds|].
  exact (setitem_recomputes_from_old_bindings (H := quiet_evaluator) "mu" 2
           (mkState family family_parents) _ Ho family_rebinds).
Defined.
